(** * umac: the Micro Mac core ([main.c]) and its ROM patcher ([rom.c])

    A shallow embedding of the two C files.  The globals of [main.c] are
    the fields of one record, [umac]; every C function that touches them
    is a Rocq function of the same name over that record.  Code that is
    not part of these two files (the 68000 interpreter, the VIA, SCC and
    disc models, the host) appears in two ways only: the calls that the
    core makes to it are recorded, in program order, in the [calls]
    field, and the calls that it makes into the core are data supplied
    by the caller of the model.

    C integers: [int] is an unbounded [Z] (nothing proved below depends
    on signed overflow, which C leaves undefined); [uint8_t], [int16_t]
    stores, [unsigned int] and [uint64_t] wrap explicitly. *)

From Stdlib Require Import ZArith List Lia Bool.
From stdpp Require Import base list.
Import ListNotations.
Local Open Scope Z_scope.

(** ** Machine integers *)

Definition u8 (z : Z) : Z := z mod 2 ^ 8.
Definition u16 (z : Z) : Z := z mod 2 ^ 16.
Definition u32 (z : Z) : Z := z mod 2 ^ 32.
Definition u64 (z : Z) : Z := z mod 2 ^ 64.

(** C truth value of an integer, and the integer of a C comparison. *)
Definition truthy (z : Z) : bool := negb (z =? 0).
Definition b2i (b : bool) : Z := if b then 1 else 0.

(** ** Byte buffers ([_ram_base], [_rom_base], [iwm_regs], the ROM image)

    A buffer is a list of bytes indexed from 0.  C leaves an access
    outside the buffer undefined; here such a read yields 0 and such a
    store changes nothing. *)

Definition buf_rd8 (m : list Z) (a : Z) : Z :=
  if a <? 0 then 0 else default 0 (m !! Z.to_nat a).

Definition buf_wr8 (m : list Z) (a v : Z) : list Z :=
  if a <? 0 then m else <[Z.to_nat a := Z.land v 255]> m.

(** Big-endian 16 and 32 bit accesses, byte by byte, as [ROM_WR16] and
    [ROM_WR32] of [rom.c] spell them out. *)
Definition buf_wr16 (m : list Z) (a v : Z) : list Z :=
  buf_wr8 (buf_wr8 m a (Z.shiftr v 8)) (a + 1) v.

Definition buf_wr32 (m : list Z) (a v : Z) : list Z :=
  buf_wr8 (buf_wr8 (buf_wr8 (buf_wr8 m a (Z.shiftr v 24))
                      (a + 1) (Z.shiftr v 16))
             (a + 2) (Z.shiftr v 8))
    (a + 3) v.

Definition buf_rd16 (m : list Z) (a : Z) : Z :=
  Z.lor (Z.shiftl (buf_rd8 m a) 8) (buf_rd8 m (a + 1)).

Definition buf_rd32 (m : list Z) (a : Z) : Z :=
  Z.lor (Z.shiftl (buf_rd16 m a) 16) (buf_rd16 m (a + 2)).

(** ** Build configuration

    [machw.h] is not among the sources, nor is the build system that
    sets [ENABLE_AUDIO] and [SIM].  What [main.c] takes from them is a
    parameter of the model: the two flags, the RAM size, the doorbell
    address and the address-decoding predicates.  [IS_RAM] and [IS_ROM]
    read the global [overlay], which they receive as first argument.
    [rom.c] further takes the bytes of the replacement driver from
    [sonydrv.h] and the display and memory sizes of the build. *)

Record config := {
  ENABLE_AUDIO : bool;
  SIM : bool;
  RAM_SIZE : Z;
  PV_SONY_ADDR : Z;
  IS_RAM : Z -> Z -> bool;
  IS_ROM : Z -> Z -> bool;
  IS_VIA : Z -> bool;
  IS_IWM : Z -> bool;
  IS_SCC_RD : Z -> bool;
  IS_SCC_WR : Z -> bool;
  IS_DUMMY : Z -> bool;
  IS_TESTSW : Z -> bool;
  IS_RAM_AUDIO_TRAP : Z -> bool;
  sony_driver : list Z;
  DISP_WIDTH : Z;
  DISP_HEIGHT : Z;
  UMAC_MEMSIZE : Z
}.

(** Modelled from the spec: [ROM_ADDR] and [ROM_SIZE] of [machw.h] are
    missing; the spec keeps the ROM at 0x400000 and gives it 128 KiB. *)
Definition ROM_ADDR : Z := 0x400000.
Definition ROM_SIZE : Z := 0x20000.

Definition UMAC_EXECLOOP_QUANTUM : Z := 5000.

Definition KBD_CMD_GET_MODEL : Z := 0x16.
Definition KBD_CMD_INQUIRY : Z := 0x10.
Definition KBD_MODEL : Z := 5.
Definition KBD_RSP_NULL : Z := 0x7b.

Definition MTemp_h : Z := 0x82a.
Definition MTemp_v : Z := 0x828.
Definition CrsrNew : Z := 0x8ce.
Definition CrsrCouple : Z := 0x8cf.

(** ** State *)

(** The two values the function pointer [cpu_read_instr] takes. *)
Inductive instr_reader :=
| Ptr_cpu_read_instr_overlay
| Ptr_cpu_read_instr_normal.

(** Calls from [main.c] into code outside it, with their arguments. *)
Inductive ext_call :=
| Call_m68k_set_irq (level : Z)
| Call_m68k_set_virq (level status : Z)
| Call_m68k_pulse_reset
| Call_m68k_execute (cycles : Z)
| Call_via_write (address value : Z)
| Call_via_read (address : Z)
| Call_via_limit_cycles (cycles : Z)
| Call_via_tick (cycles : Z)
| Call_via_sr_rx (byte : Z)
| Call_scc_write (address value : Z)
| Call_scc_read (address : Z)
| Call_disc_pv_hook (value : Z)
| Call_umac_audio_cfg (volume sndres : Z)
| Call_umac_audio_trap
| Call_exit (status : Z).

(** The globals of [main.c], its function-local statics ([guard_val] of
    [exit_error], [oldval] of [via_ra_changed]), the two buffers the
    host lends to the core, and the record of outgoing calls (most
    recent first). *)
Record umac := {
  g_int_controller_pending : Z;
  g_int_controller_highest_int : Z;
  ram : list Z;
  rom : list Z;
  umac_volume : Z;
  umac_sndres : Z;
  overlay : Z;
  global_time_us : Z;
  global_cycles : Z;
  sim_done : Z;
  disassemble : Z;
  guard_val : Z;
  oldval : Z;
  via_quadbits : Z;
  via_mouse_pressed : Z;
  kbd_last_cmd : Z;
  kbd_last_cmd_time : Z;
  kbd_pending_evt : Z;
  scc_irq_state : Z;
  iwm_regs : list Z;
  cpu_read_instr : instr_reader;
  calls : list ext_call
}.

(** The static initialisers, for buffers [ram0] and [rom0]. *)
Definition initial (ram0 rom0 : list Z) : umac :=
  {| g_int_controller_pending := 0;
     g_int_controller_highest_int := 0;
     ram := ram0; rom := rom0;
     umac_volume := 0; umac_sndres := 0;
     overlay := 1;
     global_time_us := 0; global_cycles := 0;
     sim_done := 0; disassemble := 0;
     guard_val := 0; oldval := 0x10;
     via_quadbits := 0; via_mouse_pressed := 0;
     kbd_last_cmd := 0; kbd_last_cmd_time := 0; kbd_pending_evt := -1;
     scc_irq_state := 0;
     iwm_regs := repeat 0 16;
     cpu_read_instr := Ptr_cpu_read_instr_overlay;
     calls := [] |}.

(** Assignments to one global ([via_quadbits] is never assigned). *)

Definition set_g_int_controller_pending (v : Z) (s : umac) : umac :=
  {| g_int_controller_pending := v;
     g_int_controller_highest_int := g_int_controller_highest_int s;
     ram := ram s; rom := rom s; umac_volume := umac_volume s;
     umac_sndres := umac_sndres s; overlay := overlay s;
     global_time_us := global_time_us s; global_cycles := global_cycles s;
     sim_done := sim_done s; disassemble := disassemble s;
     guard_val := guard_val s; oldval := oldval s;
     via_quadbits := via_quadbits s;
     via_mouse_pressed := via_mouse_pressed s;
     kbd_last_cmd := kbd_last_cmd s;
     kbd_last_cmd_time := kbd_last_cmd_time s;
     kbd_pending_evt := kbd_pending_evt s; scc_irq_state := scc_irq_state s;
     iwm_regs := iwm_regs s; cpu_read_instr := cpu_read_instr s;
     calls := calls s |}.

Definition set_g_int_controller_highest_int (v : Z) (s : umac) : umac :=
  {| g_int_controller_pending := g_int_controller_pending s;
     g_int_controller_highest_int := v; ram := ram s; rom := rom s;
     umac_volume := umac_volume s; umac_sndres := umac_sndres s;
     overlay := overlay s; global_time_us := global_time_us s;
     global_cycles := global_cycles s; sim_done := sim_done s;
     disassemble := disassemble s; guard_val := guard_val s;
     oldval := oldval s; via_quadbits := via_quadbits s;
     via_mouse_pressed := via_mouse_pressed s;
     kbd_last_cmd := kbd_last_cmd s;
     kbd_last_cmd_time := kbd_last_cmd_time s;
     kbd_pending_evt := kbd_pending_evt s; scc_irq_state := scc_irq_state s;
     iwm_regs := iwm_regs s; cpu_read_instr := cpu_read_instr s;
     calls := calls s |}.

Definition set_ram (v : list Z) (s : umac) : umac :=
  {| g_int_controller_pending := g_int_controller_pending s;
     g_int_controller_highest_int := g_int_controller_highest_int s;
     ram := v; rom := rom s; umac_volume := umac_volume s;
     umac_sndres := umac_sndres s; overlay := overlay s;
     global_time_us := global_time_us s; global_cycles := global_cycles s;
     sim_done := sim_done s; disassemble := disassemble s;
     guard_val := guard_val s; oldval := oldval s;
     via_quadbits := via_quadbits s;
     via_mouse_pressed := via_mouse_pressed s;
     kbd_last_cmd := kbd_last_cmd s;
     kbd_last_cmd_time := kbd_last_cmd_time s;
     kbd_pending_evt := kbd_pending_evt s; scc_irq_state := scc_irq_state s;
     iwm_regs := iwm_regs s; cpu_read_instr := cpu_read_instr s;
     calls := calls s |}.

Definition set_rom (v : list Z) (s : umac) : umac :=
  {| g_int_controller_pending := g_int_controller_pending s;
     g_int_controller_highest_int := g_int_controller_highest_int s;
     ram := ram s; rom := v; umac_volume := umac_volume s;
     umac_sndres := umac_sndres s; overlay := overlay s;
     global_time_us := global_time_us s; global_cycles := global_cycles s;
     sim_done := sim_done s; disassemble := disassemble s;
     guard_val := guard_val s; oldval := oldval s;
     via_quadbits := via_quadbits s;
     via_mouse_pressed := via_mouse_pressed s;
     kbd_last_cmd := kbd_last_cmd s;
     kbd_last_cmd_time := kbd_last_cmd_time s;
     kbd_pending_evt := kbd_pending_evt s; scc_irq_state := scc_irq_state s;
     iwm_regs := iwm_regs s; cpu_read_instr := cpu_read_instr s;
     calls := calls s |}.

Definition set_umac_volume (v : Z) (s : umac) : umac :=
  {| g_int_controller_pending := g_int_controller_pending s;
     g_int_controller_highest_int := g_int_controller_highest_int s;
     ram := ram s; rom := rom s; umac_volume := v;
     umac_sndres := umac_sndres s; overlay := overlay s;
     global_time_us := global_time_us s; global_cycles := global_cycles s;
     sim_done := sim_done s; disassemble := disassemble s;
     guard_val := guard_val s; oldval := oldval s;
     via_quadbits := via_quadbits s;
     via_mouse_pressed := via_mouse_pressed s;
     kbd_last_cmd := kbd_last_cmd s;
     kbd_last_cmd_time := kbd_last_cmd_time s;
     kbd_pending_evt := kbd_pending_evt s; scc_irq_state := scc_irq_state s;
     iwm_regs := iwm_regs s; cpu_read_instr := cpu_read_instr s;
     calls := calls s |}.

Definition set_umac_sndres (v : Z) (s : umac) : umac :=
  {| g_int_controller_pending := g_int_controller_pending s;
     g_int_controller_highest_int := g_int_controller_highest_int s;
     ram := ram s; rom := rom s; umac_volume := umac_volume s;
     umac_sndres := v; overlay := overlay s;
     global_time_us := global_time_us s; global_cycles := global_cycles s;
     sim_done := sim_done s; disassemble := disassemble s;
     guard_val := guard_val s; oldval := oldval s;
     via_quadbits := via_quadbits s;
     via_mouse_pressed := via_mouse_pressed s;
     kbd_last_cmd := kbd_last_cmd s;
     kbd_last_cmd_time := kbd_last_cmd_time s;
     kbd_pending_evt := kbd_pending_evt s; scc_irq_state := scc_irq_state s;
     iwm_regs := iwm_regs s; cpu_read_instr := cpu_read_instr s;
     calls := calls s |}.

Definition set_overlay (v : Z) (s : umac) : umac :=
  {| g_int_controller_pending := g_int_controller_pending s;
     g_int_controller_highest_int := g_int_controller_highest_int s;
     ram := ram s; rom := rom s; umac_volume := umac_volume s;
     umac_sndres := umac_sndres s; overlay := v;
     global_time_us := global_time_us s; global_cycles := global_cycles s;
     sim_done := sim_done s; disassemble := disassemble s;
     guard_val := guard_val s; oldval := oldval s;
     via_quadbits := via_quadbits s;
     via_mouse_pressed := via_mouse_pressed s;
     kbd_last_cmd := kbd_last_cmd s;
     kbd_last_cmd_time := kbd_last_cmd_time s;
     kbd_pending_evt := kbd_pending_evt s; scc_irq_state := scc_irq_state s;
     iwm_regs := iwm_regs s; cpu_read_instr := cpu_read_instr s;
     calls := calls s |}.

Definition set_global_time_us (v : Z) (s : umac) : umac :=
  {| g_int_controller_pending := g_int_controller_pending s;
     g_int_controller_highest_int := g_int_controller_highest_int s;
     ram := ram s; rom := rom s; umac_volume := umac_volume s;
     umac_sndres := umac_sndres s; overlay := overlay s; global_time_us := v;
     global_cycles := global_cycles s; sim_done := sim_done s;
     disassemble := disassemble s; guard_val := guard_val s;
     oldval := oldval s; via_quadbits := via_quadbits s;
     via_mouse_pressed := via_mouse_pressed s;
     kbd_last_cmd := kbd_last_cmd s;
     kbd_last_cmd_time := kbd_last_cmd_time s;
     kbd_pending_evt := kbd_pending_evt s; scc_irq_state := scc_irq_state s;
     iwm_regs := iwm_regs s; cpu_read_instr := cpu_read_instr s;
     calls := calls s |}.

Definition set_global_cycles (v : Z) (s : umac) : umac :=
  {| g_int_controller_pending := g_int_controller_pending s;
     g_int_controller_highest_int := g_int_controller_highest_int s;
     ram := ram s; rom := rom s; umac_volume := umac_volume s;
     umac_sndres := umac_sndres s; overlay := overlay s;
     global_time_us := global_time_us s; global_cycles := v;
     sim_done := sim_done s; disassemble := disassemble s;
     guard_val := guard_val s; oldval := oldval s;
     via_quadbits := via_quadbits s;
     via_mouse_pressed := via_mouse_pressed s;
     kbd_last_cmd := kbd_last_cmd s;
     kbd_last_cmd_time := kbd_last_cmd_time s;
     kbd_pending_evt := kbd_pending_evt s; scc_irq_state := scc_irq_state s;
     iwm_regs := iwm_regs s; cpu_read_instr := cpu_read_instr s;
     calls := calls s |}.

Definition set_sim_done (v : Z) (s : umac) : umac :=
  {| g_int_controller_pending := g_int_controller_pending s;
     g_int_controller_highest_int := g_int_controller_highest_int s;
     ram := ram s; rom := rom s; umac_volume := umac_volume s;
     umac_sndres := umac_sndres s; overlay := overlay s;
     global_time_us := global_time_us s; global_cycles := global_cycles s;
     sim_done := v; disassemble := disassemble s; guard_val := guard_val s;
     oldval := oldval s; via_quadbits := via_quadbits s;
     via_mouse_pressed := via_mouse_pressed s;
     kbd_last_cmd := kbd_last_cmd s;
     kbd_last_cmd_time := kbd_last_cmd_time s;
     kbd_pending_evt := kbd_pending_evt s; scc_irq_state := scc_irq_state s;
     iwm_regs := iwm_regs s; cpu_read_instr := cpu_read_instr s;
     calls := calls s |}.

Definition set_disassemble (v : Z) (s : umac) : umac :=
  {| g_int_controller_pending := g_int_controller_pending s;
     g_int_controller_highest_int := g_int_controller_highest_int s;
     ram := ram s; rom := rom s; umac_volume := umac_volume s;
     umac_sndres := umac_sndres s; overlay := overlay s;
     global_time_us := global_time_us s; global_cycles := global_cycles s;
     sim_done := sim_done s; disassemble := v; guard_val := guard_val s;
     oldval := oldval s; via_quadbits := via_quadbits s;
     via_mouse_pressed := via_mouse_pressed s;
     kbd_last_cmd := kbd_last_cmd s;
     kbd_last_cmd_time := kbd_last_cmd_time s;
     kbd_pending_evt := kbd_pending_evt s; scc_irq_state := scc_irq_state s;
     iwm_regs := iwm_regs s; cpu_read_instr := cpu_read_instr s;
     calls := calls s |}.

Definition set_guard_val (v : Z) (s : umac) : umac :=
  {| g_int_controller_pending := g_int_controller_pending s;
     g_int_controller_highest_int := g_int_controller_highest_int s;
     ram := ram s; rom := rom s; umac_volume := umac_volume s;
     umac_sndres := umac_sndres s; overlay := overlay s;
     global_time_us := global_time_us s; global_cycles := global_cycles s;
     sim_done := sim_done s; disassemble := disassemble s; guard_val := v;
     oldval := oldval s; via_quadbits := via_quadbits s;
     via_mouse_pressed := via_mouse_pressed s;
     kbd_last_cmd := kbd_last_cmd s;
     kbd_last_cmd_time := kbd_last_cmd_time s;
     kbd_pending_evt := kbd_pending_evt s; scc_irq_state := scc_irq_state s;
     iwm_regs := iwm_regs s; cpu_read_instr := cpu_read_instr s;
     calls := calls s |}.

Definition set_oldval (v : Z) (s : umac) : umac :=
  {| g_int_controller_pending := g_int_controller_pending s;
     g_int_controller_highest_int := g_int_controller_highest_int s;
     ram := ram s; rom := rom s; umac_volume := umac_volume s;
     umac_sndres := umac_sndres s; overlay := overlay s;
     global_time_us := global_time_us s; global_cycles := global_cycles s;
     sim_done := sim_done s; disassemble := disassemble s;
     guard_val := guard_val s; oldval := v; via_quadbits := via_quadbits s;
     via_mouse_pressed := via_mouse_pressed s;
     kbd_last_cmd := kbd_last_cmd s;
     kbd_last_cmd_time := kbd_last_cmd_time s;
     kbd_pending_evt := kbd_pending_evt s; scc_irq_state := scc_irq_state s;
     iwm_regs := iwm_regs s; cpu_read_instr := cpu_read_instr s;
     calls := calls s |}.

Definition set_via_mouse_pressed (v : Z) (s : umac) : umac :=
  {| g_int_controller_pending := g_int_controller_pending s;
     g_int_controller_highest_int := g_int_controller_highest_int s;
     ram := ram s; rom := rom s; umac_volume := umac_volume s;
     umac_sndres := umac_sndres s; overlay := overlay s;
     global_time_us := global_time_us s; global_cycles := global_cycles s;
     sim_done := sim_done s; disassemble := disassemble s;
     guard_val := guard_val s; oldval := oldval s;
     via_quadbits := via_quadbits s; via_mouse_pressed := v;
     kbd_last_cmd := kbd_last_cmd s;
     kbd_last_cmd_time := kbd_last_cmd_time s;
     kbd_pending_evt := kbd_pending_evt s; scc_irq_state := scc_irq_state s;
     iwm_regs := iwm_regs s; cpu_read_instr := cpu_read_instr s;
     calls := calls s |}.

Definition set_kbd_last_cmd (v : Z) (s : umac) : umac :=
  {| g_int_controller_pending := g_int_controller_pending s;
     g_int_controller_highest_int := g_int_controller_highest_int s;
     ram := ram s; rom := rom s; umac_volume := umac_volume s;
     umac_sndres := umac_sndres s; overlay := overlay s;
     global_time_us := global_time_us s; global_cycles := global_cycles s;
     sim_done := sim_done s; disassemble := disassemble s;
     guard_val := guard_val s; oldval := oldval s;
     via_quadbits := via_quadbits s;
     via_mouse_pressed := via_mouse_pressed s; kbd_last_cmd := v;
     kbd_last_cmd_time := kbd_last_cmd_time s;
     kbd_pending_evt := kbd_pending_evt s; scc_irq_state := scc_irq_state s;
     iwm_regs := iwm_regs s; cpu_read_instr := cpu_read_instr s;
     calls := calls s |}.

Definition set_kbd_last_cmd_time (v : Z) (s : umac) : umac :=
  {| g_int_controller_pending := g_int_controller_pending s;
     g_int_controller_highest_int := g_int_controller_highest_int s;
     ram := ram s; rom := rom s; umac_volume := umac_volume s;
     umac_sndres := umac_sndres s; overlay := overlay s;
     global_time_us := global_time_us s; global_cycles := global_cycles s;
     sim_done := sim_done s; disassemble := disassemble s;
     guard_val := guard_val s; oldval := oldval s;
     via_quadbits := via_quadbits s;
     via_mouse_pressed := via_mouse_pressed s;
     kbd_last_cmd := kbd_last_cmd s; kbd_last_cmd_time := v;
     kbd_pending_evt := kbd_pending_evt s; scc_irq_state := scc_irq_state s;
     iwm_regs := iwm_regs s; cpu_read_instr := cpu_read_instr s;
     calls := calls s |}.

Definition set_kbd_pending_evt (v : Z) (s : umac) : umac :=
  {| g_int_controller_pending := g_int_controller_pending s;
     g_int_controller_highest_int := g_int_controller_highest_int s;
     ram := ram s; rom := rom s; umac_volume := umac_volume s;
     umac_sndres := umac_sndres s; overlay := overlay s;
     global_time_us := global_time_us s; global_cycles := global_cycles s;
     sim_done := sim_done s; disassemble := disassemble s;
     guard_val := guard_val s; oldval := oldval s;
     via_quadbits := via_quadbits s;
     via_mouse_pressed := via_mouse_pressed s;
     kbd_last_cmd := kbd_last_cmd s;
     kbd_last_cmd_time := kbd_last_cmd_time s; kbd_pending_evt := v;
     scc_irq_state := scc_irq_state s; iwm_regs := iwm_regs s;
     cpu_read_instr := cpu_read_instr s; calls := calls s |}.

Definition set_scc_irq_state (v : Z) (s : umac) : umac :=
  {| g_int_controller_pending := g_int_controller_pending s;
     g_int_controller_highest_int := g_int_controller_highest_int s;
     ram := ram s; rom := rom s; umac_volume := umac_volume s;
     umac_sndres := umac_sndres s; overlay := overlay s;
     global_time_us := global_time_us s; global_cycles := global_cycles s;
     sim_done := sim_done s; disassemble := disassemble s;
     guard_val := guard_val s; oldval := oldval s;
     via_quadbits := via_quadbits s;
     via_mouse_pressed := via_mouse_pressed s;
     kbd_last_cmd := kbd_last_cmd s;
     kbd_last_cmd_time := kbd_last_cmd_time s;
     kbd_pending_evt := kbd_pending_evt s; scc_irq_state := v;
     iwm_regs := iwm_regs s; cpu_read_instr := cpu_read_instr s;
     calls := calls s |}.

Definition set_iwm_regs (v : list Z) (s : umac) : umac :=
  {| g_int_controller_pending := g_int_controller_pending s;
     g_int_controller_highest_int := g_int_controller_highest_int s;
     ram := ram s; rom := rom s; umac_volume := umac_volume s;
     umac_sndres := umac_sndres s; overlay := overlay s;
     global_time_us := global_time_us s; global_cycles := global_cycles s;
     sim_done := sim_done s; disassemble := disassemble s;
     guard_val := guard_val s; oldval := oldval s;
     via_quadbits := via_quadbits s;
     via_mouse_pressed := via_mouse_pressed s;
     kbd_last_cmd := kbd_last_cmd s;
     kbd_last_cmd_time := kbd_last_cmd_time s;
     kbd_pending_evt := kbd_pending_evt s; scc_irq_state := scc_irq_state s;
     iwm_regs := v; cpu_read_instr := cpu_read_instr s; calls := calls s |}.

Definition set_cpu_read_instr (v : instr_reader) (s : umac) : umac :=
  {| g_int_controller_pending := g_int_controller_pending s;
     g_int_controller_highest_int := g_int_controller_highest_int s;
     ram := ram s; rom := rom s; umac_volume := umac_volume s;
     umac_sndres := umac_sndres s; overlay := overlay s;
     global_time_us := global_time_us s; global_cycles := global_cycles s;
     sim_done := sim_done s; disassemble := disassemble s;
     guard_val := guard_val s; oldval := oldval s;
     via_quadbits := via_quadbits s;
     via_mouse_pressed := via_mouse_pressed s;
     kbd_last_cmd := kbd_last_cmd s;
     kbd_last_cmd_time := kbd_last_cmd_time s;
     kbd_pending_evt := kbd_pending_evt s; scc_irq_state := scc_irq_state s;
     iwm_regs := iwm_regs s; cpu_read_instr := v; calls := calls s |}.

Definition set_calls (v : list ext_call) (s : umac) : umac :=
  {| g_int_controller_pending := g_int_controller_pending s;
     g_int_controller_highest_int := g_int_controller_highest_int s;
     ram := ram s; rom := rom s; umac_volume := umac_volume s;
     umac_sndres := umac_sndres s; overlay := overlay s;
     global_time_us := global_time_us s; global_cycles := global_cycles s;
     sim_done := sim_done s; disassemble := disassemble s;
     guard_val := guard_val s; oldval := oldval s;
     via_quadbits := via_quadbits s;
     via_mouse_pressed := via_mouse_pressed s;
     kbd_last_cmd := kbd_last_cmd s;
     kbd_last_cmd_time := kbd_last_cmd_time s;
     kbd_pending_evt := kbd_pending_evt s; scc_irq_state := scc_irq_state s;
     iwm_regs := iwm_regs s; cpu_read_instr := cpu_read_instr s;
     calls := v |}.

Definition call (c : ext_call) (s : umac) : umac :=
  set_calls (c :: calls s) s.

(** ** Interrupt controller *)

(** [g_int_controller_pending |= (1<<value)], then the level is raised
    when the mask changed and [value] is above the current level. *)
Definition int_controller_set (value : Z) (s : umac) : umac :=
  let old_pending := g_int_controller_pending s in
  let s := set_g_int_controller_pending
             (u32 (Z.lor (g_int_controller_pending s) (Z.shiftl 1 value))) s in
  if negb (old_pending =? g_int_controller_pending s)
     && (g_int_controller_highest_int s <? value)
  then
    let s := set_g_int_controller_highest_int value s in
    call (Call_m68k_set_irq (g_int_controller_highest_int s)) s
  else s.

(** The [for] loop of [int_controller_clear]: [h] counts down from 7 and
    stops at the first level whose bit is pending, or at 0. *)
Fixpoint highest_pending_from (h : nat) (pending : Z) : Z :=
  match h with
  | O => 0
  | S h' =>
      if truthy (Z.land pending (Z.shiftl 1 (Z.of_nat h)))
      then Z.of_nat h
      else highest_pending_from h' pending
  end.

Definition int_controller_clear (value : Z) (s : umac) : umac :=
  let s := set_g_int_controller_pending
             (Z.land (g_int_controller_pending s)
                     (u32 (Z.lnot (Z.shiftl 1 value)))) s in
  let s := set_g_int_controller_highest_int
             (highest_pending_from 7 (g_int_controller_pending s)) s in
  call (Call_m68k_set_irq (g_int_controller_highest_int s)) s.

(** ** Control flow

    A function of [main.c] returns, or leaves through
    [longjmp(main_loop_jb, 1)], or ends the process with [exit]. *)

Inductive outcome (A : Type) :=
| Ret (a : A) (s : umac)
| Longjmp (s : umac)
| Exit (s : umac).
Arguments Ret {A} a s.
Arguments Longjmp {A} s.
Arguments Exit {A} s.

Definition bind {A B : Type} (m : outcome A) (k : A -> umac -> outcome B)
  : outcome B :=
  match m with
  | Ret a s => k a s
  | Longjmp s => Longjmp s
  | Exit s => Exit s
  end.

Definition state_of {A : Type} (m : outcome A) : umac :=
  match m with
  | Ret _ s => s
  | Longjmp s => s
  | Exit s => s
  end.

(** [exit_error]: a second entry returns at once.  The first one prints,
    disassembles the faulting instruction (reads through
    [cpu_read_word_dasm], whose own [exit_error] now returns at once),
    sets [sim_done] and jumps to the [setjmp] of [umac_loop]. *)
Definition exit_error (s : umac) : outcome unit :=
  if truthy (guard_val s) then Ret tt s
  else
    let s := set_guard_val 1 s in
    let s := set_sim_done 1 s in
    Longjmp s.

(** ** VIA-related controls *)

Definition update_overlay_layout (s : umac) : umac :=
  if truthy (overlay s)
  then set_cpu_read_instr Ptr_cpu_read_instr_overlay s
  else set_cpu_read_instr Ptr_cpu_read_instr_normal s.

(** The tail from [uint8_t vol] to [oldval = val] is compiled under
    [ENABLE_AUDIO] only. *)
Definition via_ra_changed (cfg : config) (val : Z) (s : umac) : umac :=
  let val := u8 val in
  let s := set_overlay (b2i (truthy (Z.land val 0x10))) s in
  let s := if truthy (Z.land (Z.lxor (oldval s) val) 0x10)
           then update_overlay_layout s else s in
  if ENABLE_AUDIO cfg then
    let vol := u8 (Z.land val 7) in
    let s := if negb (vol =? umac_volume s)
             then
               let s := set_umac_volume (Z.land val 7) s in
               call (Call_umac_audio_cfg (umac_volume s) (umac_sndres s)) s
             else s in
    set_oldval val s
  else s.

Definition via_rb_changed (cfg : config) (val : Z) (s : umac) : umac :=
  let val := u8 val in
  if ENABLE_AUDIO cfg then
    let sndres := u8 (Z.shiftr val 7) in
    if negb (sndres =? umac_sndres s)
    then
      let s := set_umac_sndres sndres s in
      call (Call_umac_audio_cfg (umac_volume s) (umac_sndres s)) s
    else s
  else s.

Definition via_ra_in (s : umac) : Z := 0.

Definition via_rb_in (s : umac) : Z :=
  let v := via_quadbits s in
  if negb (truthy (via_mouse_pressed s))
  then u8 (Z.lor v (Z.shiftl 1 3))
  else v.

(** ** Keyboard *)

Definition via_sr_tx (data : Z) (s : umac) : umac :=
  let data := u8 data in
  let s := set_kbd_last_cmd data s in
  set_kbd_last_cmd_time (global_time_us s) s.

Definition kbd_rx (data : Z) (s : umac) : umac :=
  let data := u8 data in
  if data =? KBD_CMD_GET_MODEL then
    call (Call_via_sr_rx (Z.lor 0x01 (Z.shiftl KBD_MODEL 1))) s
  else if data =? KBD_CMD_INQUIRY then
    if kbd_pending_evt s =? -1 then
      call (Call_via_sr_rx KBD_RSP_NULL) s
    else
      let s := call (Call_via_sr_rx (kbd_pending_evt s)) s in
      set_kbd_pending_evt (-1) s
  else s.

Definition kbd_check_work (s : umac) : umac :=
  if truthy (kbd_last_cmd s)
     && (UMAC_EXECLOOP_QUANTUM
           <? u64 (global_time_us s - kbd_last_cmd_time s))
  then
    let s := kbd_rx (kbd_last_cmd s) s in
    set_kbd_last_cmd 0 s
  else s.

Definition umac_kbd_event (scancode down : Z) (s : umac) : umac :=
  set_kbd_pending_evt
    (Z.lor (u8 scancode) (if truthy down then 0 else 0x80)) s.

(** ** Interrupt outputs of the VIA and the SCC *)

Definition via_irq_set (status : Z) (s : umac) : umac :=
  if truthy status
  then call (Call_m68k_set_virq 1 1) s
  else call (Call_m68k_set_virq 1 0) s.

Definition scc_irq_set (status : Z) (s : umac) : umac :=
  let s := if truthy status
           then call (Call_m68k_set_virq 2 1) s
           else call (Call_m68k_set_virq 2 0) s in
  set_scc_irq_state status s.

(** ** IWM *)

Definition iwm_write (address data : Z) (s : umac) : umac :=
  let r := Z.land (Z.shiftr address 9) 0xf in
  set_iwm_regs (buf_wr8 (iwm_regs s) r data) s.

Definition iwm_read (address : Z) (s : umac) : Z :=
  let r := Z.land (Z.shiftr address 9) 0xf in
  let data := buf_rd8 (iwm_regs s) r in
  if r =? 8 then 0xff
  else if r =? 14 then 0x1f
  else data.

(** ** Host entry points that touch no device *)

Definition umac_opt_disassemble (enable : Z) (s : umac) : umac :=
  set_disassemble enable s.

(** [int16_t] conversion of the sum stored back by [umac_mouse]. *)
Definition s16 (z : Z) : Z := (z + 2 ^ 15) mod 2 ^ 16 - 2 ^ 15.

(** Modelled from the spec: the RAM and ROM access macros of [machw.h]
    are missing; the spec makes word and long accesses unaligned
    big-endian and wraps a RAM address by masking it with
    [RAM_SIZE - 1]. *)
Definition CLAMP_RAM_ADDR (cfg : config) (x : Z) : Z :=
  Z.land x (RAM_SIZE cfg - 1).
Definition RAM_RD8 (s : umac) (a : Z) : Z := buf_rd8 (ram s) a.
Definition RAM_RD16 (s : umac) (a : Z) : Z := buf_rd16 (ram s) a.
Definition RAM_RD32 (s : umac) (a : Z) : Z := buf_rd32 (ram s) a.
Definition RAM_RD_ALIGNED_BE16 (s : umac) (a : Z) : Z := buf_rd16 (ram s) a.
Definition RAM_WR8 (a v : Z) (s : umac) : umac :=
  set_ram (buf_wr8 (ram s) a v) s.
Definition RAM_WR16 (a v : Z) (s : umac) : umac :=
  set_ram (buf_wr16 (ram s) a v) s.
Definition RAM_WR32 (a v : Z) (s : umac) : umac :=
  set_ram (buf_wr32 (ram s) a v) s.
Definition ROM_RD8 (s : umac) (a : Z) : Z := buf_rd8 (rom s) a.
Definition ROM_RD16 (s : umac) (a : Z) : Z := buf_rd16 (rom s) a.
Definition ROM_RD32 (s : umac) (a : Z) : Z := buf_rd32 (rom s) a.
Definition ROM_RD_ALIGNED_BE16 (s : umac) (a : Z) : Z := buf_rd16 (rom s) a.

Definition umac_mouse (deltax deltay button : Z) (s : umac) : umac :=
  let s := if truthy deltax
           then
             let temp_h := s16 (RAM_RD16 s MTemp_h + deltax) in
             RAM_WR16 MTemp_h temp_h s
           else s in
  let s := if truthy deltay
           then
             let temp_v := s16 (RAM_RD16 s MTemp_v - deltay) in
             RAM_WR16 MTemp_v temp_v s
           else s in
  let s := if truthy deltax || truthy deltay
           then RAM_WR8 CrsrNew (RAM_RD8 s CrsrCouple) s
           else s in
  set_via_mouse_pressed (u8 button) s.

Definition umac_reset (s : umac) : umac :=
  let s := set_overlay 1 s in
  call Call_m68k_pulse_reset s.

Definition umac_disc_ejected (cfg : config) (s : umac) : outcome unit :=
  if SIM cfg then Exit (call (Call_exit 1) s)
  else Ret tt (umac_reset s).

(** [umac_init] stores the two buffer pointers and initialises the CPU
    and the devices; it assigns no other global. *)
Definition umac_init (ram_base rom_base : list Z) (s : umac) : umac :=
  let s := set_ram ram_base s in
  let s := set_rom rom_base s in
  call Call_m68k_pulse_reset s.

(** ** Calls into the core from the device models

    The VIA, the SCC and the disc service live in other files.  While
    the core waits in [via_write], [via_read], [via_tick], [scc_write],
    [scc_read] or [disc_pv_hook], they call back through [struct via_cb]
    and [struct scc_cb], report an ejected disc, and the disc service
    stores sector data into the RAM buffer.  Which of these happen, and
    with which arguments, is an input of the model. *)
Inductive callback :=
| Cb_ra_change (val : Z)
| Cb_rb_change (val : Z)
| Cb_ra_in
| Cb_rb_in
| Cb_sr_tx (data : Z)
| Cb_via_irq_set (status : Z)
| Cb_scc_irq_set (status : Z)
| Cb_umac_disc_ejected
| Cb_ram_store (offset value : Z).

Definition run_callback (cfg : config) (c : callback) (s : umac)
  : outcome unit :=
  match c with
  | Cb_ra_change val => Ret tt (via_ra_changed cfg val s)
  | Cb_rb_change val => Ret tt (via_rb_changed cfg val s)
  | Cb_ra_in => Ret tt s
  | Cb_rb_in => Ret tt s
  | Cb_sr_tx data => Ret tt (via_sr_tx data s)
  | Cb_via_irq_set status => Ret tt (via_irq_set status s)
  | Cb_scc_irq_set status => Ret tt (scc_irq_set status s)
  | Cb_umac_disc_ejected => umac_disc_ejected cfg s
  | Cb_ram_store offset value => Ret tt (RAM_WR8 offset value s)
  end.

Fixpoint run_callbacks (cfg : config) (cs : list callback) (s : umac)
  : outcome unit :=
  match cs with
  | [] => Ret tt s
  | c :: cs' => bind (run_callback cfg c s) (fun _ s => run_callbacks cfg cs' s)
  end.

(** ** Memory accessors *)

Definition cpu_read_instr_normal (cfg : config) (address : Z) (s : umac) : Z :=
  if negb (Z.land address 0xf00000 =? ROM_ADDR)
  then RAM_RD_ALIGNED_BE16 s (CLAMP_RAM_ADDR cfg address)
  else ROM_RD_ALIGNED_BE16 s (Z.land address (ROM_SIZE - 1)).

Definition cpu_read_instr_overlay (cfg : config) (address : Z) (s : umac) : Z :=
  if IS_ROM cfg (overlay s) address
  then ROM_RD_ALIGNED_BE16 s (Z.land address (ROM_SIZE - 1))
  else RAM_RD_ALIGNED_BE16 s (CLAMP_RAM_ADDR cfg address).

(** A call through the pointer [cpu_read_instr]. *)
Definition call_cpu_read_instr (cfg : config) (address : Z) (s : umac) : Z :=
  match cpu_read_instr s with
  | Ptr_cpu_read_instr_overlay => cpu_read_instr_overlay cfg address s
  | Ptr_cpu_read_instr_normal => cpu_read_instr_normal cfg address s
  end.

(** [react] is what the addressed device does while it is being read
    and [dev] the byte it returns. *)
Definition cpu_read_byte (cfg : config) (address : Z)
    (react : list callback) (dev : Z) (s : umac) : outcome Z :=
  if IS_RAM cfg (overlay s) address
  then Ret (RAM_RD8 s (CLAMP_RAM_ADDR cfg address)) s
  else if IS_ROM cfg (overlay s) address
  then Ret (ROM_RD8 s (Z.land address (ROM_SIZE - 1))) s
  else if IS_VIA cfg address
  then bind (run_callbacks cfg react (call (Call_via_read address) s))
            (fun _ s => Ret dev s)
  else if IS_IWM cfg address
  then Ret (iwm_read address s) s
  else if IS_SCC_RD cfg address
  then bind (run_callbacks cfg react (call (Call_scc_read address) s))
            (fun _ s => Ret dev s)
  else if IS_DUMMY cfg address
  then Ret 0 s
  else Ret 0 s.

Definition cpu_read_word (cfg : config) (address : Z) (s : umac) : outcome Z :=
  if IS_RAM cfg (overlay s) address
  then Ret (RAM_RD16 s (CLAMP_RAM_ADDR cfg address)) s
  else if IS_ROM cfg (overlay s) address
  then Ret (ROM_RD16 s (Z.land address (ROM_SIZE - 1))) s
  else if IS_TESTSW cfg address
  then Ret 0 s
  else bind (exit_error s) (fun _ s => Ret 0 s).

Definition cpu_read_long (cfg : config) (address : Z) (s : umac) : outcome Z :=
  if IS_RAM cfg (overlay s) address
  then Ret (RAM_RD32 s (CLAMP_RAM_ADDR cfg address)) s
  else if IS_ROM cfg (overlay s) address
  then Ret (ROM_RD32 s (Z.land address (ROM_SIZE - 1))) s
  else if IS_TESTSW cfg address
  then Ret 0 s
  else bind (exit_error s) (fun _ s => Ret 0 s).

Definition cpu_read_word_dasm (cfg : config) (address : Z) (s : umac)
  : outcome Z :=
  if IS_RAM cfg (overlay s) address
  then Ret (RAM_RD16 s (CLAMP_RAM_ADDR cfg address)) s
  else if IS_ROM cfg (overlay s) address
  then Ret (ROM_RD16 s (Z.land address (ROM_SIZE - 1))) s
  else bind (exit_error s) (fun _ s => Ret 0 s).

Definition cpu_read_long_dasm (cfg : config) (address : Z) (s : umac)
  : outcome Z :=
  if IS_RAM cfg (overlay s) address
  then Ret (RAM_RD32 s (CLAMP_RAM_ADDR cfg address)) s
  else if IS_ROM cfg (overlay s) address
  then Ret (ROM_RD32 s (Z.land address (ROM_SIZE - 1))) s
  else bind (exit_error s) (fun _ s => Ret 0 s).

(** [react] is what the addressed device, or the disc service behind
    the doorbell, does during the write; [r] is the value that
    [disc_pv_hook] returns. *)
Definition cpu_write_byte (cfg : config) (address value : Z)
    (react : list callback) (r : Z) (s : umac) : outcome unit :=
  if IS_RAM cfg (overlay s) address then
    let address := CLAMP_RAM_ADDR cfg address in
    let s := RAM_WR8 address value s in
    let s := if ENABLE_AUDIO cfg && IS_RAM_AUDIO_TRAP cfg address
             then call Call_umac_audio_trap s else s in
    Ret tt s
  else if IS_VIA cfg address then
    run_callbacks cfg react (call (Call_via_write address value) s)
  else if IS_IWM cfg address then
    Ret tt (iwm_write address value s)
  else if IS_SCC_WR cfg address then
    run_callbacks cfg react (call (Call_scc_write address value) s)
  else if IS_DUMMY cfg address then
    Ret tt s
  else if address =? PV_SONY_ADDR cfg then
    bind (run_callbacks cfg react (call (Call_disc_pv_hook value) s))
         (fun _ s => if truthy r then exit_error s else Ret tt s)
  else Ret tt s.

Definition cpu_write_word (cfg : config) (address value : Z) (s : umac)
  : outcome unit :=
  if IS_RAM cfg (overlay s) address
  then Ret tt (RAM_WR16 (CLAMP_RAM_ADDR cfg address) value s)
  else Ret tt s.

Definition cpu_write_long (cfg : config) (address value : Z) (s : umac)
  : outcome unit :=
  if IS_RAM cfg (overlay s) address
  then Ret tt (RAM_WR32 (CLAMP_RAM_ADDR cfg address) value s)
  else Ret tt s.

Definition cpu_pulse_reset (s : umac) : umac := s.

(** [cpu_irq_ack] returns the constant [M68K_INT_ACK_AUTOVECTOR] and
    assigns nothing. *)
Definition cpu_irq_ack (level : Z) (s : umac) : umac := s.

(** [make_hex]: one [cpu_read_word_dasm] per two bytes of the
    instruction; [n] is the number of rounds of the loop, half the
    (even) instruction size. *)
Fixpoint make_hex (cfg : config) (n : nat) (pc : Z) (s : umac) : outcome unit :=
  match n with
  | O => Ret tt s
  | S n' => bind (cpu_read_word_dasm cfg pc s)
                 (fun _ s => make_hex cfg n' (pc + 2) s)
  end.

(** Reads that [m68k_disassemble] makes through [cpu_read_word_dasm]. *)
Fixpoint dasm_reads (cfg : config) (addrs : list Z) (s : umac) : outcome unit :=
  match addrs with
  | [] => Ret tt s
  | a :: addrs' => bind (cpu_read_word_dasm cfg a s)
                        (fun _ s => dasm_reads cfg addrs' s)
  end.

(** [cpu_instr_callback]: [addrs] are the words the disassembler reads
    and [instr_size] the size it returns. *)
Definition cpu_instr_callback (cfg : config) (pc : Z) (addrs : list Z)
    (instr_size : Z) (s : umac) : outcome unit :=
  if negb (truthy (disassemble s)) then Ret tt s
  else bind (dasm_reads cfg addrs s)
            (fun _ s => make_hex cfg (Z.to_nat ((instr_size + 1) / 2)) pc s).

(** ** The CPU as a client of [main.c]

    The 68000 interpreter is a library.  During [m68k_execute] it calls
    the accessors above; one [bus_op] is one such call together with
    what the addressed device does meanwhile. *)
Inductive bus_op :=
| Op_read_instr (address : Z)
| Op_read_byte (address : Z) (react : list callback) (dev : Z)
| Op_read_word (address : Z)
| Op_read_long (address : Z)
| Op_write_byte (address value : Z) (react : list callback) (r : Z)
| Op_write_word (address value : Z)
| Op_write_long (address value : Z)
| Op_pulse_reset
| Op_irq_ack (level : Z)
| Op_instr_callback (pc : Z) (addrs : list Z) (instr_size : Z).

Definition discard {A : Type} (m : outcome A) : outcome unit :=
  bind m (fun _ s => Ret tt s).

Definition run_bus_op (cfg : config) (op : bus_op) (s : umac) : outcome unit :=
  match op with
  | Op_read_instr address => Ret tt s
  | Op_read_byte address react dev =>
      discard (cpu_read_byte cfg address react dev s)
  | Op_read_word address => discard (cpu_read_word cfg address s)
  | Op_read_long address => discard (cpu_read_long cfg address s)
  | Op_write_byte address value react r =>
      cpu_write_byte cfg address value react r s
  | Op_write_word address value => cpu_write_word cfg address value s
  | Op_write_long address value => cpu_write_long cfg address value s
  | Op_pulse_reset => Ret tt (cpu_pulse_reset s)
  | Op_irq_ack level => Ret tt (cpu_irq_ack level s)
  | Op_instr_callback pc addrs instr_size =>
      cpu_instr_callback cfg pc addrs instr_size s
  end.

(** [m68k_execute(cycles)]: the accesses of one run, in order.  A
    [longjmp] or an [exit] inside an accessor abandons the rest. *)
Fixpoint m68k_execute (cfg : config) (ops : list bus_op) (s : umac)
  : outcome unit :=
  match ops with
  | [] => Ret tt s
  | op :: ops' => bind (run_bus_op cfg op s)
                       (fun _ s => m68k_execute cfg ops' s)
  end.

(** What the outside does during one pass through the body of
    [umac_loop]: the value [via_limit_cycles] returns, the accesses the
    CPU makes and the cycles it reports, and the callbacks made by
    [via_tick]. *)
Record cpu_run := {
  limit_cycles : Z;
  ops : list bus_op;
  used_cycles : Z;
  tick : list callback
}.

(** [global_cycles += used_cycles; global_time_us = global_cycles / 8;] *)
Definition account_cycles (used_cycles : Z) (s : umac) : umac :=
  let s := set_global_cycles (u64 (global_cycles s + used_cycles)) s in
  set_global_time_us (global_cycles s / 8) s.

(** The body of [umac_loop] after [m68k_execute] has returned: time
    keeping, device polling, and the return of [sim_done]. *)
Definition umac_loop_tail (cfg : config) (run : cpu_run) (s : umac)
  : outcome Z :=
  let s := account_cycles (used_cycles run) s in
  let s := call (Call_via_tick (used_cycles run)) s in
  bind (run_callbacks cfg (tick run) s)
       (fun _ s =>
          let s := kbd_check_work s in
          Ret (sim_done s) s).

(** ** Main loop

    [setjmp(main_loop_jb)] is the first statement, so a [longjmp]
    restarts the body: the CPU is run again, for the next element of
    [runs].  [None] means that [runs] describes fewer passes than the
    call makes. *)
Fixpoint umac_loop (cfg : config) (runs : list cpu_run) (s : umac)
  : option (outcome Z) :=
  match runs with
  | [] => None
  | run :: runs' =>
      let cycles := UMAC_EXECLOOP_QUANTUM * 8 in
      let s := call (Call_via_limit_cycles cycles) s in
      let cycles := limit_cycles run in
      let s := call (Call_m68k_execute cycles) s in
      match m68k_execute cfg (ops run) s with
      | Longjmp s => umac_loop cfg runs' s
      | Exit s => Some (Exit s)
      | Ret _ s => Some (umac_loop_tail cfg run s)
      end
  end.

(** ** The host as a client of [main.c]

    Besides the entry points of [main.c], the host has entry points
    that are defined with the devices ([umac_vsync_event],
    [umac_1hz_event]); what those can do to the core is to make a
    device call back. *)
Inductive host_call :=
| H_umac_init (ram_base rom_base : list Z)
| H_umac_opt_disassemble (enable : Z)
| H_umac_kbd_event (scancode down : Z)
| H_umac_mouse (deltax deltay button : Z)
| H_umac_reset
| H_umac_disc_ejected
| H_int_controller_set (value : Z)
| H_int_controller_clear (value : Z)
| H_device_event (react : list callback)
| H_umac_loop (runs : list cpu_run).

(** One host call; the integer is the value of [umac_loop]. *)
Definition host_step (cfg : config) (h : host_call) (s : umac)
  : option (outcome (option Z)) :=
  match h with
  | H_umac_init ram_base rom_base => Some (Ret None (umac_init ram_base rom_base s))
  | H_umac_opt_disassemble enable => Some (Ret None (umac_opt_disassemble enable s))
  | H_umac_kbd_event scancode down => Some (Ret None (umac_kbd_event scancode down s))
  | H_umac_mouse deltax deltay button =>
      Some (Ret None (umac_mouse deltax deltay button s))
  | H_umac_reset => Some (Ret None (umac_reset s))
  | H_umac_disc_ejected =>
      Some (bind (umac_disc_ejected cfg s) (fun _ s => Ret None s))
  | H_int_controller_set value => Some (Ret None (int_controller_set value s))
  | H_int_controller_clear value => Some (Ret None (int_controller_clear value s))
  | H_device_event react =>
      Some (bind (run_callbacks cfg react s) (fun _ s => Ret None s))
  | H_umac_loop runs =>
      match umac_loop cfg runs s with
      | None => None
      | Some m => Some (bind m (fun r s => Ret (Some r) s))
      end
  end.

(** A session: host calls in order; the values returned by the calls
    of [umac_loop] are collected, oldest first. *)
Fixpoint host_run (cfg : config) (hs : list host_call) (s : umac)
  : option (outcome (list Z)) :=
  match hs with
  | [] => Some (Ret [] s)
  | h :: hs' =>
      match host_step cfg h s with
      | None => None
      | Some (Longjmp s) => Some (Longjmp s)
      | Some (Exit s) => Some (Exit s)
      | Some (Ret r s) =>
          match host_run cfg hs' s with
          | Some (Ret rs s') =>
              Some (Ret (match r with Some v => v :: rs | None => rs end) s')
          | other => other
          end
      end
  end.

(** ** ROM patching ([rom.c]) *)

Definition ROM_PLUSv3_VERSION : Z := 0x4d1f8172.
Definition ROM_PLUSv3_SONYDRV : Z := 0x17d30.
Definition M68K_INST_NOP : Z := 0x4e71.

Definition ROM_WR8 (rom_base : list Z) (offset data : Z) : list Z :=
  buf_wr8 rom_base offset data.
Definition ROM_WR16 (rom_base : list Z) (offset data : Z) : list Z :=
  buf_wr16 rom_base offset data.
Definition ROM_WR32 (rom_base : list Z) (offset data : Z) : list Z :=
  buf_wr32 rom_base offset data.

(** [memcpy(rom_base + dst, src, sizeof(src))]. *)
Fixpoint memcpy (rom_base : list Z) (dst : Z) (src : list Z) : list Z :=
  match src with
  | [] => rom_base
  | b :: src' => memcpy (buf_wr8 rom_base dst b) (dst + 1) src'
  end.

Definition sizeof (a : list Z) : Z := Z.of_nat (length a).

(** The version word: the first four bytes, big-endian. *)
Definition rom_get_version (rom_base : list Z) : Z := buf_rd32 rom_base 0.

(** [for (i = ...; ...; i += 2) ROM_WR16(i, M68K_INST_NOP)], [n] rounds. *)
Fixpoint nop_fill (n : nat) (rom_base : list Z) (i : Z) : list Z :=
  match n with
  | O => rom_base
  | S n' => nop_fill n' (ROM_WR16 rom_base i M68K_INST_NOP) (i + 2)
  end.

(** The body of [if (ram_size > 128*1024 && ram_size < 512*1024)]. *)
Definition patch_memtop (rom_base : list Z) (ram_size : Z) : list Z :=
  let rom_base := nop_fill 4 rom_base 0x376 in
  let rom_base := ROM_WR16 rom_base 0x376 0x2a7c in
  let rom_base := ROM_WR16 rom_base 0x378 (Z.shiftr ram_size 16) in
  let rom_base := ROM_WR16 rom_base 0x37a (Z.land ram_size 0xffff) in
  let rom_base := ROM_WR16 rom_base 0x132 0x6000 in
  ROM_WR32 rom_base 0x292 (ram_size - 768).

(** The screen tables, from [ROM_WR32(0x8a, screen_base)] to the end of
    the resolution branch. *)
Definition patch_screen_tables (rom_base : list Z)
    (disp_width disp_height screen_size screen_base patch_0 patch_1 patch_2 : Z)
  : list Z :=
  let SBCOORD x y :=
    screen_base + Z.quot disp_width 8 * y + Z.quot x 8 in
  let rom_base := ROM_WR32 rom_base 0x8a screen_base in
  let rom_base := ROM_WR32 rom_base 0x146 screen_base in
  let rom_base := ROM_WR32 rom_base 0x164
    (SBCOORD (Z.quot disp_width 2 - Z.quot 48 2) (Z.quot disp_height 2 + 8)) in
  let rom_base := ROM_WR16 rom_base 0x188 (Z.quot disp_width 8) in
  let rom_base := ROM_WR16 rom_base 0x194 (Z.quot disp_width 8) in
  let rom_base := ROM_WR16 rom_base 0x19c (Z.quot (6 * disp_width) 8 - 1) in
  let rom_base := ROM_WR32 rom_base 0x1a4
    (SBCOORD (Z.quot disp_width 2 - 8) (Z.quot disp_height 2 + 8 + 8)) in
  let rom_base := ROM_WR16 rom_base 0x1ee (Z.quot screen_size 4 - 1) in
  let rom_base := ROM_WR32 rom_base 0xf0c
    (SBCOORD (Z.quot disp_width 2 - 16) (Z.quot disp_height 2 - 26)) in
  let rom_base := ROM_WR32 rom_base 0xf18
    (SBCOORD (Z.quot disp_width 2 - 8) (Z.quot disp_height 2 - 20)) in
  let rom_base := ROM_WR32 rom_base 0x7e0
    (SBCOORD (Z.quot disp_width 2 - 16) (Z.quot disp_height 2 - 26)) in
  let rom_base := ROM_WR32 rom_base 0x7f2
    (SBCOORD (Z.quot disp_width 2 - 8) (Z.quot disp_height 2 - 11)) in
  let rom_base := ROM_WR16 rom_base 0x3a0 0x6000 in
  let rom_base := ROM_WR16 rom_base 0x3a2 (u32 (patch_0 - 0x3a2)) in
  let rom_base := ROM_WR16 rom_base 0x474 (Z.quot disp_width 8) in
  let rom_base := ROM_WR16 rom_base 0x494 disp_height in
  let rom_base := ROM_WR16 rom_base 0x498 disp_width in
  let rom_base := ROM_WR16 rom_base 0xa0e disp_height in
  let rom_base := ROM_WR16 rom_base 0xa10 disp_width in
  let rom_base := ROM_WR16 rom_base 0xee2 (Z.quot disp_width 8 - 4) in
  let rom_base := ROM_WR16 rom_base 0xef2 (Z.quot disp_width 8) in
  let rom_base := ROM_WR16 rom_base 0xf36 (Z.quot disp_width 8 - 2) in
  let rom_base :=
    if 128 <=? Z.quot disp_width 8 then
      let rom_base := ROM_WR16 rom_base 0x1ccc 0x4eba in
      let rom_base := ROM_WR16 rom_base 0x1cce (u32 (patch_2 - 0x1cce)) in
      ROM_WR16 rom_base 0x1cd0 0x4e71
    else ROM_WR8 rom_base 0x1cd1 (Z.quot disp_width 8) in
  let rom_base := ROM_WR16 rom_base 0x1d48 (disp_width - 32) in
  let rom_base := ROM_WR16 rom_base 0x1d4e (disp_width - 32) in
  let rom_base := ROM_WR16 rom_base 0x1d6e (disp_height - 16) in
  let rom_base := ROM_WR16 rom_base 0x1d74 disp_height in
  let rom_base := ROM_WR8 rom_base 0x1d93 (Z.quot disp_width 8) in
  let rom_base := ROM_WR16 rom_base 0x1e68 disp_height in
  let rom_base :=
    if 128 <=? Z.quot disp_width 8 then
      let rom_base := ROM_WR16 rom_base 0x1d92 0x4eba in
      ROM_WR16 rom_base 0x1d94 (u32 (patch_1 - 0x1d94))
    else ROM_WR8 rom_base 0x1d93 (Z.quot disp_width 8) in
  let rom_base := ROM_WR16 rom_base 0x1e6e disp_width in
  ROM_WR16 rom_base 0x1e82 disp_height.

(** [rom_patch_plusv3]: the patched buffer and the returned status.  The
    two [return -1] leave the writes made so far in the buffer.  The
    [int] arithmetic on the display size is written in [Z]; the two
    agree as long as no [int] overflows, as is the case for a width and
    a height of at most 32768. *)
Definition rom_patch_plusv3 (cfg : config) (rom_base : list Z)
    (disp_width disp_height ram_size : Z) : list Z * Z :=
  let rom_base := ROM_WR16 rom_base 0xd92 0xb381 in
  let rom_base := memcpy rom_base ROM_PLUSv3_SONYDRV (sony_driver cfg) in
  let rom_base :=
    ROM_WR32 rom_base (ROM_PLUSv3_SONYDRV + sizeof (sony_driver cfg) - 4)
             (PV_SONY_ADDR cfg) in
  let rom_base :=
    if (128 * 1024 <? ram_size) && (ram_size <? 512 * 1024)
    then patch_memtop rom_base ram_size
    else rom_base in
  if negb (disp_width =? 512) || negb (disp_height =? 342) then
    let screen_size := Z.quot (disp_width * disp_height) 8 in
    let screen_distance_from_top := screen_size + 0x380 in
    let screen_base := 0x400000 - screen_distance_from_top in
    let rom_base := ROM_WR16 rom_base 0x42 0x6000 in
    let rom_base := ROM_WR16 rom_base 0x44 (0x62 - 0x44) in
    let patch_0 := 0x46 in
    let rom_base := ROM_WR16 rom_base (patch_0 + 0) 0x9bfc in
    let rom_base := ROM_WR32 rom_base (patch_0 + 2) screen_distance_from_top in
    let rom_base := ROM_WR16 rom_base (patch_0 + 6) 0x6000 in
    let rom_base := ROM_WR16 rom_base (patch_0 + 8) (0x3a4 - (patch_0 + 8)) in
    let patch_2 := 0x32 in
    let patch_1 := patch_0 + 10 in
    let finish rom_base :=
      (patch_screen_tables rom_base disp_width disp_height screen_size
                           screen_base patch_0 patch_1 patch_2, 0) in
    if 128 <=? Z.quot disp_width 8 then
      let rom_base := ROM_WR16 rom_base (patch_1 + 0) 0x3a3c in
      let rom_base := ROM_WR16 rom_base (patch_1 + 2) (Z.quot disp_width 8) in
      let rom_base := ROM_WR16 rom_base (patch_1 + 4) 0xc2c5 in
      let rom_base := ROM_WR16 rom_base (patch_1 + 6) 0x4e75 in
      if 0x58 <? patch_1 + 8 then (rom_base, -1)
      else
        let rom_base := ROM_WR16 rom_base 0x2e 0x6000 in
        let rom_base := ROM_WR16 rom_base 0x30 (0x62 - 0x30) in
        let rom_base := ROM_WR16 rom_base (patch_2 + 0) 0x303c in
        let rom_base := ROM_WR16 rom_base (patch_2 + 2) (Z.quot disp_width 8) in
        let rom_base := ROM_WR16 rom_base (patch_2 + 4) 0x41f8 in
        let rom_base := ROM_WR16 rom_base (patch_2 + 6) 0x088c in
        let rom_base := ROM_WR16 rom_base (patch_2 + 8) 0x4e75 in
        if 0x41 <? patch_2 + 10 then (rom_base, -1)
        else finish rom_base
    else finish rom_base
  else (rom_base, 0).

Definition rom_patch1 (cfg : config) (rom_base : list Z)
    (disp_width disp_height mem_size : Z) : list Z * Z :=
  let v := rom_get_version rom_base in
  let r := -1 in
  if v =? ROM_PLUSv3_VERSION
  then rom_patch_plusv3 cfg rom_base disp_width disp_height mem_size
  else (rom_base, r).

Definition rom_patch (cfg : config) (rom_base : list Z) : list Z * Z :=
  rom_patch1 cfg rom_base (DISP_WIDTH cfg) (DISP_HEIGHT cfg)
             (UMAC_MEMSIZE cfg * 1024).

(** ** Host start-up ([unix_main.c])

    What [main] does with the core before its loop: the ROM file is
    patched; if [rom_patch] reports an error [main] returns 1 and the
    core is never initialised; otherwise [umac_init] receives the RAM
    and the patched ROM. *)
Definition unix_main_start (cfg : config) (rom_file ram_file : list Z)
  : Z + umac :=
  let '(rom_base, r) := rom_patch cfg rom_file in
  if truthy r then inl 1
  else inr (umac_init ram_file rom_base (initial [] [])).

(** ** A configuration and buffers to run the model on *)

Definition in_range (lo hi a : Z) : bool := (lo <=? a) && (a <=? hi).

(** Modelled from the spec: the contents of [machw.h] and [sonydrv.h]
    are missing.  The address windows are those of the memory map table
    of the spec, the build is the default one (128 KiB, 512x342, no
    audio), and the driver is 64 bytes long.  The spec puts the doorbell
    "in dummy space" without giving its value; [cpu_write_byte] tests
    [IS_DUMMY] before the doorbell, so the sample takes an address that
    none of the earlier tests of [cpu_write_byte] claims. *)
Definition sample_cfg : config :=
  {| ENABLE_AUDIO := false;
     SIM := false;
     RAM_SIZE := 128 * 1024;
     PV_SONY_ADDR := 0x700000;
     IS_RAM := fun overlay a =>
       in_range 0x600000 0x6fffff a
       || (negb (truthy overlay) && in_range 0 0x3fffff a);
     IS_ROM := fun overlay a =>
       in_range 0x400000 0x4fffff a
       || (truthy overlay
           && (in_range 0 0x0fffff a || in_range 0x200000 0x2fffff a));
     IS_VIA := in_range 0xe80000 0xefffff;
     IS_IWM := in_range 0xc00000 0xdfffff;
     IS_SCC_RD := in_range 0x800000 0x9fffff;
     IS_SCC_WR := in_range 0xa00000 0xbfffff;
     IS_DUMMY := in_range 0xf00000 0xffffff;
     IS_TESTSW := in_range 0xf00000 0xffffff;
     IS_RAM_AUDIO_TRAP := fun _ => false;
     sony_driver := map Z.of_nat (seq 1 64);
     DISP_WIDTH := 512;
     DISP_HEIGHT := 342;
     UMAC_MEMSIZE := 128 |}.

(** The same build with [ENABLE_AUDIO] set. *)
Definition sample_audio_cfg : config :=
  {| ENABLE_AUDIO := true;
     SIM := SIM sample_cfg;
     RAM_SIZE := RAM_SIZE sample_cfg;
     PV_SONY_ADDR := PV_SONY_ADDR sample_cfg;
     IS_RAM := IS_RAM sample_cfg;
     IS_ROM := IS_ROM sample_cfg;
     IS_VIA := IS_VIA sample_cfg;
     IS_IWM := IS_IWM sample_cfg;
     IS_SCC_RD := IS_SCC_RD sample_cfg;
     IS_SCC_WR := IS_SCC_WR sample_cfg;
     IS_DUMMY := IS_DUMMY sample_cfg;
     IS_TESTSW := IS_TESTSW sample_cfg;
     IS_RAM_AUDIO_TRAP := IS_RAM_AUDIO_TRAP sample_cfg;
     sony_driver := sony_driver sample_cfg;
     DISP_WIDTH := DISP_WIDTH sample_cfg;
     DISP_HEIGHT := DISP_HEIGHT sample_cfg;
     UMAC_MEMSIZE := UMAC_MEMSIZE sample_cfg |}.

(** A zeroed RAM of 4 KiB (enough for the low-memory globals), a ROM
    image of 128 KiB that carries the Mac Plus v3 version word, and one
    that does not. *)
Definition sample_ram : list Z := repeat 0 4096.
Definition sample_rom : list Z :=
  [0x4d; 0x1f; 0x81; 0x72] ++ repeat 0xff (Z.to_nat ROM_SIZE - 4).
Definition other_rom : list Z :=
  [0x4d; 0x1e; 0xee; 0xe1] ++ repeat 0xff (Z.to_nat ROM_SIZE - 4).
Definition sample_state : umac := initial sample_ram sample_rom.

(** ** Vocabulary of the statements *)

(** The state in which a pass hands control to the CPU. *)
Definition entering (run : cpu_run) (s : umac) : umac :=
  call (Call_m68k_execute (limit_cycles run))
       (call (Call_via_limit_cycles (UMAC_EXECLOOP_QUANTUM * 8)) s).

(** A pass of [umac_loop] in which the CPU uses [used] cycles without
    touching a device and the VIA makes no callback. *)
Definition idle_pass (used : Z) : cpu_run :=
  {| limit_cycles := UMAC_EXECLOOP_QUANTUM * 8;
     ops := [];
     used_cycles := used;
     tick := [] |}.

(** A pass in which the CPU writes the command tag 1 to the doorbell
    and [disc_pv_hook] returns 1, and one in which the CPU, after such a
    write, stores 0x55 into RAM (0x600010 is RAM while the overlay is
    on). *)
Definition doorbell_failure : bus_op :=
  Op_write_byte (PV_SONY_ADDR sample_cfg) 1 [] 1.

Definition failing_pass : cpu_run :=
  {| limit_cycles := UMAC_EXECLOOP_QUANTUM * 8;
     ops := [doorbell_failure];
     used_cycles := 0;
     tick := [] |}.

Definition failing_again_pass : cpu_run :=
  {| limit_cycles := UMAC_EXECLOOP_QUANTUM * 8;
     ops := [doorbell_failure; Op_write_byte 0x600010 0x55 [] 0];
     used_cycles := 40000;
     tick := [] |}.

(** The core after a call of [umac_loop] that met a failing doorbell
    write. *)
Definition faulted_state : umac :=
  match umac_loop sample_cfg [failing_pass; idle_pass 40000] sample_state with
  | Some m => state_of m
  | None => sample_state
  end.

(** The state in which an idle pass makes the deferred-work check. *)
Definition at_check (used : Z) (s : umac) : umac :=
  call (Call_via_tick used)
       (account_cycles used (entering (idle_pass used) s)).

(** The state after a run of idle passes, given by the cycles that
    each of them uses. *)
Fixpoint idle_passes (useds : list Z) (s : umac) : umac :=
  match useds with
  | [] => s
  | used :: useds' => idle_passes useds' (kbd_check_work (at_check used s))
  end.

(** The interrupt controller as the devices drive it. *)
Inductive int_op :=
| Int_set (level : Z)
| Int_clear (level : Z).

Definition int_op_level (op : int_op) : Z :=
  match op with
  | Int_set level => level
  | Int_clear level => level
  end.

Definition run_int_op (op : int_op) (s : umac) : umac :=
  match op with
  | Int_set level => int_controller_set level s
  | Int_clear level => int_controller_clear level s
  end.

Definition run_int_ops (ops : list int_op) (s : umac) : umac :=
  fold_left (fun s op => run_int_op op s) ops s.

Definition valid_level (op : int_op) : Prop := 1 <= int_op_level op <= 7.

(** The maximum bit index set in a mask, or 0 if the mask is empty. *)
Definition highest_set_bit (mask : Z) : Z :=
  if mask =? 0 then 0 else Z.log2 mask.

(** The level on the IRQ input of the CPU: the argument of the latest
    [m68k_set_irq], or 0 when it was never called. *)
Fixpoint irq_input (cs : list ext_call) : Z :=
  match cs with
  | [] => 0
  | Call_m68k_set_irq level :: _ => level
  | _ :: cs' => irq_input cs'
  end.


(** ** The SDL host: frame buffer and audio ([unix_main.c])

    [copy_fb] expands the one-bit-per-pixel frame buffer of the Mac
    into 32-bit pixels.  Its result is the sequence of words stored
    through [fb_out], in the order of the stores. *)

(** [(p & (0x80 >> i)) ? 0 : 0xffffffff] *)
Definition fb_pixel (p i : Z) : Z :=
  if truthy (Z.land p (Z.shiftr 0x80 i)) then 0 else 0xffffffff.

(** [for (int i = 0; i < 8; i++) *fb_out++ = ...] *)
Definition fb_pixels8 (p : Z) : list Z :=
  map (fun i => fb_pixel p (Z.of_nat i)) (seq 0 8).

(** The loop over [x], which advances by 16; [n] is the number of its
    rounds. *)
Fixpoint copy_fb_row (n : nat) (cfg : config) (fb_in : list Z) (y x : Z)
  : list Z :=
  match n with
  | O => []
  | S n' =>
      let plo :=
        buf_rd8 fb_in (Z.quot x 8 + Z.quot (y * DISP_WIDTH cfg) 8 + 0) in
      let phi :=
        buf_rd8 fb_in (Z.quot x 8 + Z.quot (y * DISP_WIDTH cfg) 8 + 1) in
      fb_pixels8 plo ++ fb_pixels8 phi ++ copy_fb_row n' cfg fb_in y (x + 16)
  end.

(** The loop over [y]; [n] is the number of its rounds. *)
Fixpoint copy_fb_rows (n : nat) (cfg : config) (fb_in : list Z) (y : Z)
  : list Z :=
  match n with
  | O => []
  | S n' =>
      copy_fb_row (Z.to_nat ((DISP_WIDTH cfg + 15) / 16)) cfg fb_in y 0
        ++ copy_fb_rows n' cfg fb_in (y + 1)
  end.

Definition copy_fb (cfg : config) (fb_in : list Z) : list Z :=
  copy_fb_rows (Z.to_nat (DISP_HEIGHT cfg)) cfg fb_in 0.

(** [umac_audio_cfg]: the new value of [volscale]. *)
Definition umac_audio_cfg (umac_volume umac_sndres : Z) : Z :=
  if truthy umac_sndres then 0 else Z.quot (65536 * umac_volume) 7.

(** The loop of [umac_audio_trap] over the words at [audio_base], as
    the host reads them; [n] is the number of its rounds.  The product
    [a * scale] is an [int]: it stays far below 2^31 for a scale that
    [umac_audio_cfg] computes from a volume of 0 to 7.  [>>] on a
    negative [int] is the arithmetic shift that compilers implement.
    The store into [int16_t audio[]] converts. *)
Fixpoint audio_samples (n : nat) (scale : Z) (audiodata : list Z) : list Z :=
  match n with
  | O => []
  | S n' =>
      let offset := 128 in
      let a := Z.land (hd 0 audiodata) 0xff - offset in
      let a := Z.shiftr (a * scale) 8 in
      s16 a :: audio_samples n' scale (tl audiodata)
  end.

(** [umac_audio_trap]: the new contents of [audio], from [volscale] and
    the words at [audio_base]. *)
Definition umac_audio_trap (volscale : Z) (audiodata : list Z) : list Z :=
  let scale := volscale in
  if negb (truthy scale) then repeat 0 370
  else audio_samples 370 scale audiodata.

(** Finite tables: the integers [lo, lo + n). *)
Definition Zrange (lo : Z) (n : nat) : list Z :=
  map (fun i => lo + Z.of_nat i) (seq 0 n).

(** A pending mask the controller can hold: levels 1 to 7 only. *)
Definition pending_ok (p : Z) : bool :=
  (0 <=? p) && (p <? 256) && negb (Z.testbit p 0).

(** What [int_controller_set] and [int_controller_clear] compute from a
    mask [p] whose level is [highest_set_bit p], checked against the
    highest set bit of the new mask. *)
Definition set_ok (p v : Z) : bool :=
  let p' := u32 (Z.lor p (Z.shiftl 1 v)) in
  pending_ok p'
  && (if negb (p =? p') && (highest_set_bit p <? v)
      then v =? highest_set_bit p'
      else highest_set_bit p =? highest_set_bit p').

Definition clear_ok (p v : Z) : bool :=
  let p' := Z.land p (u32 (Z.lnot (Z.shiftl 1 v))) in
  pending_ok p' && (highest_pending_from 7 p' =? highest_set_bit p').

Definition int_inv (s : umac) : Prop :=
  pending_ok (g_int_controller_pending s) = true
  /\ g_int_controller_highest_int s
     = highest_set_bit (g_int_controller_pending s)
  /\ irq_input (calls s) = g_int_controller_highest_int s.

(** The instruction-fetch accessor that belongs to a value of the
    overlay flag, and the states in which the pointer holds it. *)
Definition reader_for (overlay : Z) : instr_reader :=
  if truthy overlay then Ptr_cpu_read_instr_overlay
  else Ptr_cpu_read_instr_normal.

Definition dispatch_matches (s : umac) : Prop :=
  cpu_read_instr s = reader_for (overlay s).

(** Port A as the VIA reports it: a sequence of written values. *)
Definition run_port_a (cfg : config) (vals : list Z) (s : umac) : umac :=
  fold_left (fun s val => via_ra_changed cfg val s) vals s.

(** Bit 4 of [oldval] tracks the overlay flag (audio builds, as long as
    [umac_reset] is not called). *)
Definition oldval_tracks (s : umac) : Prop :=
  truthy (Z.land (oldval s) 0x10) = truthy (overlay s).

(** The state of the keyboard link some passes after a transmit made at
    time [t0]: the clock is consistent and has not run backwards, and
    the command is still recorded exactly if no check was made later
    than one quantum after [t0]. *)
Definition kbd_waiting (data t0 : Z) (s : umac) : Prop :=
  0 <= global_cycles s
  /\ global_time_us s = global_cycles s / 8
  /\ kbd_last_cmd_time s = t0
  /\ 0 <= t0 <= global_time_us s
  /\ kbd_last_cmd s
     = if global_time_us s - t0 <=? UMAC_EXECLOOP_QUANTUM then u8 data else 0.

(** Both error flags are untouched. *)
Definition err_pres (s s' : umac) : Prop :=
  sim_done s' = sim_done s /\ guard_val s' = guard_val s.

(** The record of outgoing calls only grows. *)
Definition calls_extend (s s' : umac) : Prop :=
  calls s `suffix_of` calls s'.

(** What every function of [main.c] that always returns leaves alone:
    the quadrature bits and the error flags; it only adds calls. *)
Definition plain_ok (s s' : umac) : Prop :=
  via_quadbits s' = via_quadbits s /\ err_pres s s' /\ calls_extend s s'.

(** How a function of [main.c] may treat the error flags: it returns or
    exits with both untouched, or it leaves through the one [longjmp],
    which needs a clear guard and sets both. *)
Definition err_ok {A : Type} (s : umac) (m : outcome A) : Prop :=
  match m with
  | Ret _ s' => err_pres s s'
  | Exit s' => err_pres s s'
  | Longjmp s' => guard_val s = 0 /\ sim_done s' = 1 /\ guard_val s' = 1
  end.

(** Only a [SIM] build ends the process. *)
Definition exit_ok {A : Type} (cfg : config) (m : outcome A) : Prop :=
  match m with
  | Exit _ => SIM cfg = true
  | _ => True
  end.

Definition out_ok {A : Type} (cfg : config) (s : umac) (m : outcome A)
  : Prop :=
  via_quadbits (state_of m) = via_quadbits s
  /\ calls_extend s (state_of m)
  /\ err_ok s m
  /\ exit_ok cfg m.

(** The result of [umac_loop], or of a session, once the done flag is
    set: every value returned is 1 and the flag stays set; a call fails
    to return only where a [SIM] build ends the process. *)
Definition reports_done (cfg : config) (m : outcome Z) : Prop :=
  match m with
  | Ret r s' => r = 1 /\ sim_done s' = 1
  | Exit _ => SIM cfg = true
  | Longjmp _ => False
  end.

Fixpoint loop_calls (hs : list host_call) : nat :=
  match hs with
  | [] => O
  | H_umac_loop _ :: hs' => S (loop_calls hs')
  | _ :: hs' => loop_calls hs'
  end.

Definition session_done (cfg : config) (hs : list host_call)
    (m : outcome (list Z)) : Prop :=
  match m with
  | Ret rs s' =>
      length rs = loop_calls hs /\ Forall (fun r => r = 1) rs
      /\ sim_done s' = 1
  | Exit _ => SIM cfg = true
  | Longjmp _ => False
  end.

(** Every call of [umac_loop] in a session is described for two passes,
    which is as many as one call can make. *)
Definition described (h : host_call) : Prop :=
  match h with
  | H_umac_loop runs => (2 <= length runs)%nat
  | _ => True
  end.


(** A sequence of byte stores [(offset, value)], applied in order. *)
Definition apply_writes (ws : list (Z * Z)) (m : list Z) : list Z :=
  fold_left (fun m w => buf_wr8 m (fst w) (snd w)) ws m.

(** [f] stores bytes that do not depend on the buffer, none of them
    below offset [lo]. *)
Definition writer (lo : Z) (f : list Z -> list Z) : Prop :=
  exists ws,
    Forall (fun w => lo <= fst w) ws /\ forall m, f m = apply_writes ws m.

Definition hits (a : Z) (i : nat) : bool :=
  (0 <=? a) && (Z.to_nat a =? i)%nat.

(** The byte the last store to index [i] leaves there, if any. *)
Fixpoint last_write (ws : list (Z * Z)) (i : nat) : option Z :=
  match ws with
  | [] => None
  | w :: ws' =>
      match last_write ws' i with
      | Some v => Some v
      | None => if hits (fst w) i then Some (Z.land (snd w) 255) else None
      end
  end.

(** The two byte ranges that the patch of the default build may touch:
    the checksum-compare word and the replacement driver. *)
Definition in_checksum_word (a : Z) : Prop := 0xd92 <= a <= 0xd93.
Definition in_sony_region (cfg : config) (a : Z) : Prop :=
  ROM_PLUSv3_SONYDRV <= a < ROM_PLUSv3_SONYDRV + sizeof (sony_driver cfg).

(** ** Vocabulary of the further properties *)

(** The IWM register that an address selects: bits 12 to 9. *)
Definition iwm_reg (address : Z) : Z := Z.land (Z.shiftr address 9) 0xf.

(** The audio settings are within what port A and port B can encode. *)
Definition audio_inv (s : umac) : Prop :=
  0 <= umac_volume s <= 7 /\ 0 <= umac_sndres s <= 1.

(** The calls that the emulation makes while the CPU runs: the priority
    encoder's [m68k_set_irq] is not among them, an interrupt leaves on
    line 1 or 2 with status 0 or 1, the audio settings are in range. *)
Definition call_ok (c : ext_call) : Prop :=
  match c with
  | Call_m68k_set_irq _ => False
  | Call_m68k_set_virq level status =>
      (level = 1 \/ level = 2) /\ (status = 0 \/ status = 1)
  | Call_umac_audio_cfg volume sndres =>
      0 <= volume <= 7 /\ 0 <= sndres <= 1
  | _ => True
  end.

(** What the accessors and callbacks never assign. *)
Definition fixed (s s' : umac) : Prop :=
  rom s' = rom s
  /\ global_cycles s' = global_cycles s
  /\ global_time_us s' = global_time_us s
  /\ disassemble s' = disassemble s
  /\ g_int_controller_pending s' = g_int_controller_pending s
  /\ g_int_controller_highest_int s' = g_int_controller_highest_int s
  /\ length (iwm_regs s') = length (iwm_regs s).

(** The calls added between two states are all of the kind above. *)
Definition grows (s s' : umac) : Prop :=
  exists l, calls s' = l ++ calls s /\ (audio_inv s -> Forall call_ok l).

Definition steady (s s' : umac) : Prop :=
  fixed s s' /\ (audio_inv s -> audio_inv s') /\ grows s s'.

(** The same over [umac_loop], which advances the clock. *)
Definition steady_but_clock (s s' : umac) : Prop :=
  rom s' = rom s
  /\ disassemble s' = disassemble s
  /\ g_int_controller_pending s' = g_int_controller_pending s
  /\ g_int_controller_highest_int s' = g_int_controller_highest_int s
  /\ length (iwm_regs s') = length (iwm_regs s)
  /\ (audio_inv s -> audio_inv s')
  /\ grows s s'.

(** The clock after a pass that used [used] cycles. *)
Definition clock_after (used : Z) (s s' : umac) : Prop :=
  global_cycles s' = u64 (global_cycles s + used)
  /\ global_time_us s' = global_cycles s' / 8.

Fixpoint no_init (hs : list host_call) : bool :=
  match hs with
  | [] => true
  | H_umac_init _ _ :: _ => false
  | _ :: hs' => no_init hs'
  end.

(** An address that no test of [cpu_read_word] and [cpu_read_long]
    claims. *)
Definition unmapped (cfg : config) (s : umac) (address : Z) : Prop :=
  IS_RAM cfg (overlay s) address = false
  /\ IS_ROM cfg (overlay s) address = false
  /\ IS_TESTSW cfg address = false.

(** A word or a long read, as the CPU makes it. *)
Definition wide_read (long : bool) (address : Z) : bus_op :=
  if long then Op_read_long address else Op_read_word address.

(** The state that [exit_error] hands to the [setjmp] of [umac_loop]. *)
Definition faulted (s : umac) : umac := set_sim_done 1 (set_guard_val 1 s).

(** The accesses behind which [exit_error] can be reached: word and long
    reads, the disassembler, and a byte write for which [disc_pv_hook]
    reports a failure. *)
Definition may_fault (op : bus_op) : bool :=
  match op with
  | Op_read_word _ => true
  | Op_read_long _ => true
  | Op_instr_callback _ _ _ => true
  | Op_write_byte _ _ _ r => truthy r
  | _ => false
  end.

(** Setting and then clearing level [v] over a mask [p] in which it is not
    pending. *)
Definition round_trip_ok (p v : Z) : bool :=
  let p1 := u32 (Z.lor p (Z.shiftl 1 v)) in
  let p2 := Z.land p1 (u32 (Z.lnot (Z.shiftl 1 v))) in
  if Z.testbit p v then p1 =? p
  else negb (p =? p1) && (p2 =? p)
       && (highest_pending_from 7 p2 =? highest_set_bit p).

(** A pass of an audio build in which the CPU writes to the VIA, which
    reports port A as 0x17 and raises its interrupt, and in which
    [via_tick] reports port B as 0x80 and the SCC drops its interrupt. *)
Definition via_pass : cpu_run :=
  {| limit_cycles := UMAC_EXECLOOP_QUANTUM * 8;
     ops := [Op_write_byte 0xefe1fe 0x17 [Cb_ra_change 0x17; Cb_via_irq_set 1] 0];
     used_cycles := 40000;
     tick := [Cb_rb_change 0x80; Cb_scc_irq_set 0] |}.

(** The core right after [umac_init] with the sample RAM and a ROM that
    is cut down to its version word. *)
Definition small_state : umac := initial sample_ram [0x4d; 0x1f; 0x81; 0x72].

Definition via_pass_outcome : outcome Z :=
  match umac_loop sample_audio_cfg [via_pass] small_state with
  | Some m => m
  | None => Ret 0 small_state
  end.


(** A pass that uses 7 cycles and is abandoned: the CPU reads a word
    from 0x500000, which the sample memory map leaves unclaimed. *)
Definition abandoned_pass : cpu_run :=
  {| limit_cycles := UMAC_EXECLOOP_QUANTUM * 8;
     ops := [Op_read_word 0x500000];
     used_cycles := 7;
     tick := [] |}.

Definition after_abandoned_pass : umac :=
  match umac_loop sample_cfg [abandoned_pass; idle_pass 40000] small_state with
  | Some m => state_of m
  | None => small_state
  end.

(** The cycles that a call of [umac_loop] accounts: those of its first
    pass, or those of the second if the first is abandoned. *)
Definition accounted_cycles (cfg : config) (run1 : cpu_run)
    (runs : list cpu_run) (s : umac) : Z :=
  match m68k_execute cfg (ops run1) (entering run1 s) with
  | Longjmp _ =>
      match runs with
      | run2 :: _ => used_cycles run2
      | [] => 0
      end
  | _ => used_cycles run1
  end.

(** A short session: a key press, a mouse move, a pass that stores into
    RAM after a failing doorbell write, a reset. *)
Definition sample_session : list host_call :=
  [H_umac_kbd_event 0x33 1; H_umac_mouse 5 (-3) 0;
   H_umac_loop [failing_again_pass; idle_pass 40000]; H_umac_reset].

Definition sample_session_outcome : outcome (list Z) :=
  match host_run sample_cfg sample_session small_state with
  | Some m => m
  | None => Ret [] small_state
  end.

(** A pass in which the CPU reads a word from 0x500000, which the
    sample memory map leaves unclaimed. *)
Definition stray_read_pass : cpu_run :=
  {| limit_cycles := UMAC_EXECLOOP_QUANTUM * 8;
     ops := [Op_write_byte 0x600010 0x55 [] 0; Op_read_word 0x500000;
             Op_write_byte 0x600011 0x66 [] 0];
     used_cycles := 40000;
     tick := [] |}.

Definition before_stray_read : umac :=
  state_of (m68k_execute sample_cfg [Op_write_byte 0x600010 0x55 [] 0]
              (entering stray_read_pass small_state)).

(** Accesses none of which can reach [exit_error]. *)
Definition harmless_ops : list bus_op :=
  [Op_write_byte 0x600010 0x55 [] 0; Op_read_byte 0x500000 [] 0;
   Op_write_word 0x500000 1; Op_write_byte (PV_SONY_ADDR sample_cfg) 2 [] 0;
   Op_irq_ack 1].

(** [f] stores bytes that do not depend on the buffer, all of them at
    offsets that satisfy [P]. *)
Definition writes_within (P : Z -> Prop) (f : list Z -> list Z) : Prop :=
  exists ws,
    Forall (fun w => P (fst w)) ws /\ forall m, f m = apply_writes ws m.

(** Where a patch may store, whatever the display and the RAM size: the
    low ROM from the first stolen word to the last screen constant, and
    the replacement driver. *)
Definition patch_area (cfg : config) (a : Z) : Prop :=
  0x2e <= a < 0x1e84 \/ in_sony_region cfg a.

(** Where the resolution branch stores: in the low ROM, but not in the
    words of the memory-size branch and not in the checksum word. *)
Definition tables_area (a : Z) : Prop :=
  0x2e <= a < 0x1e84
  /\ ~ 0x132 <= a <= 0x133
  /\ ~ 0x292 <= a <= 0x295
  /\ ~ 0x376 <= a <= 0x37d
  /\ ~ 0xd92 <= a <= 0xd93.

(** The first three statements of [rom_patch_plusv3], and its
    memory-size branch. *)
Definition install_driver (cfg : config) (rom_base : list Z) : list Z :=
  ROM_WR32
    (memcpy (ROM_WR16 rom_base 0xd92 0xb381) ROM_PLUSv3_SONYDRV
            (sony_driver cfg))
    (ROM_PLUSv3_SONYDRV + sizeof (sony_driver cfg) - 4) (PV_SONY_ADDR cfg).

Definition memtop_step (ram_size : Z) (rom_base : list Z) : list Z :=
  if (128 * 1024 <? ram_size) && (ram_size <? 512 * 1024)
  then patch_memtop rom_base ram_size
  else rom_base.

(** * Proofs *)

(** ** Interrupt controller *)

Lemma highest_set_bit_is_set (mask : Z) :
  0 < mask -> Z.testbit mask (highest_set_bit mask) = true.
Proof.
  intros H. unfold highest_set_bit.
  destruct (Z.eqb_spec mask 0); [lia|]. now apply Z.bit_log2.
Qed.

Lemma highest_set_bit_is_highest (mask i : Z) :
  0 <= mask -> highest_set_bit mask < i -> Z.testbit mask i = false.
Proof.
  intros H Hi. unfold highest_set_bit in Hi.
  destruct (Z.eqb_spec mask 0) as [->|Hne].
  - apply Z.bits_0.
  - now apply Z.bits_above_log2.
Qed.

Lemma Zrange_forallb (P : Z -> bool) (lo : Z) (n : nat) :
  forallb P (Zrange lo n) = true ->
  forall z, lo <= z < lo + Z.of_nat n -> P z = true.
Proof.
  intros H z Hz. rewrite forallb_forall in H. apply H.
  unfold Zrange. apply in_map_iff. exists (Z.to_nat (z - lo)).
  split; [lia|]. apply in_seq. lia.
Qed.

(** The controller has 128 masks and 7 levels: both operations are
    checked on each pair. *)
Lemma int_controller_table :
  forallb (fun p =>
             negb (pending_ok p)
             || forallb (fun v => set_ok p v && clear_ok p v) (Zrange 1 7))
          (Zrange 0 256) = true.
Proof. vm_compute. reflexivity. Qed.

Lemma int_controller_cases (p v : Z) :
  pending_ok p = true -> 1 <= v <= 7 ->
  set_ok p v = true /\ clear_ok p v = true.
Proof.
  intros Hp Hv.
  assert (Hr : 0 <= p < 0 + Z.of_nat 256).
  { unfold pending_ok in Hp. lia. }
  pose proof (Zrange_forallb _ _ _ int_controller_table p Hr) as H.
  cbv beta in H. rewrite Hp in H. cbn [negb orb] in H.
  pose proof (Zrange_forallb _ _ _ H v ltac:(lia)) as H'.
  cbv beta in H'. now apply andb_prop in H'.
Qed.

Lemma int_inv_initial (ram0 rom0 : list Z) : int_inv (initial ram0 rom0).
Proof. repeat split. Qed.

Lemma int_inv_step (op : int_op) (s : umac) :
  valid_level op -> int_inv s -> int_inv (run_int_op op s).
Proof.
  intros Hv (Hp & Hh & Hi).
  destruct (int_controller_cases _ _ Hp Hv) as [Hs Hc].
  destruct op as [v|v]; cbn [int_op_level run_int_op] in *.
  - unfold set_ok in Hs. apply andb_prop in Hs as [Hp' Hs].
    unfold int_controller_set. cbn.
    rewrite Hh.
    destruct (negb _ && _) eqn:E; cbn; unfold int_inv; cbn.
    + apply Z.eqb_eq in Hs. repeat split; [exact Hp' | exact Hs].
    + apply Z.eqb_eq in Hs. repeat split; [exact Hp' | congruence | exact Hi].
  - unfold clear_ok in Hc. apply andb_prop in Hc as [Hp' Hc].
    unfold int_controller_clear, int_inv. cbn.
    apply Z.eqb_eq in Hc. repeat split; [exact Hp' | exact Hc].
Qed.

Lemma int_inv_run (ops : list int_op) (s : umac) :
  Forall valid_level ops -> int_inv s -> int_inv (run_int_ops ops s).
Proof.
  intros Hv. revert s. induction Hv as [|op ops Hop _ IH]; intros s Hs.
  - exact Hs.
  - cbn. apply IH. now apply int_inv_step.
Qed.

(** C2.  Start from the static initialisers and make any sequence of
    [int_controller_set] and [int_controller_clear] calls with levels in
    1..7.  After each call (after the first [n] calls, for every [n])
    the level [g_int_controller_highest_int] is the maximum bit index
    set in the pending mask, or 0 if the mask is empty, and it is the
    level last passed to the IRQ input of the CPU. *)
Theorem int_controller_reports_highest (ops : list int_op) (n : nat)
    (ram0 rom0 : list Z) :
  Forall valid_level ops ->
  let s := run_int_ops (take n ops) (initial ram0 rom0) in
  g_int_controller_highest_int s
    = highest_set_bit (g_int_controller_pending s)
  /\ irq_input (calls s) = g_int_controller_highest_int s.
Proof.
  intros Hv s.
  assert (Hs : int_inv s).
  { apply int_inv_run; [|apply int_inv_initial].
    now apply Forall_take. }
  destruct Hs as (_ & Hh & Hi). now split.
Qed.

Lemma int_controller_reports_highest_witness :
  let s := run_int_ops (take 3 [Int_set 1; Int_set 2; Int_clear 2; Int_clear 1])
                       sample_state in
  g_int_controller_pending s = 2
  /\ g_int_controller_highest_int s = 1
  /\ g_int_controller_highest_int s
     = highest_set_bit (g_int_controller_pending s)
  /\ irq_input (calls s) = g_int_controller_highest_int s.
Proof.
  split; [reflexivity|]. split; [reflexivity|].
  apply (int_controller_reports_highest
           [Int_set 1; Int_set 2; Int_clear 2; Int_clear 1] 3
           sample_ram sample_rom).
  repeat constructor; unfold valid_level; cbn; lia.
Defined.

(** ** What the functions of [main.c] leave alone *)

Lemma plain_ok_refl (s : umac) : plain_ok s s.
Proof.
  unfold plain_ok, err_pres, calls_extend.
  split; [|split; [split|]]; reflexivity.
Qed.

Lemma plain_ok_trans (s1 s2 s3 : umac) :
  plain_ok s1 s2 -> plain_ok s2 s3 -> plain_ok s1 s3.
Proof.
  intros (Hq & (Hd & Hg) & Hc) (Hq' & (Hd' & Hg') & Hc').
  split; [|split; [split|]]; try congruence.
  unfold calls_extend in *. now transitivity (calls s2).
Qed.

(** Case analysis on every conditional of the goal. *)
Ltac split_ifs :=
  repeat match goal with
         | |- context [if ?b then _ else _] => destruct b
         end.

(** For a function built from assignments, [call] and conditionals:
    reads the fields off each branch. *)
Ltac plain_frame :=
  intros;
  split_ifs;
  unfold plain_ok, err_pres, calls_extend; cbn;
  (split; [|split; [split|]]);
  try reflexivity;
  repeat apply suffix_cons_r; reflexivity.

Lemma int_controller_set_plain value s : plain_ok s (int_controller_set value s).
Proof. unfold int_controller_set. cbn. plain_frame. Qed.

Lemma int_controller_clear_plain value s :
  plain_ok s (int_controller_clear value s).
Proof. unfold int_controller_clear. plain_frame. Qed.

Lemma via_ra_changed_plain cfg val s : plain_ok s (via_ra_changed cfg val s).
Proof.
  unfold via_ra_changed, update_overlay_layout. cbn. plain_frame.
Qed.

Lemma via_rb_changed_plain cfg val s : plain_ok s (via_rb_changed cfg val s).
Proof. unfold via_rb_changed. cbn. plain_frame. Qed.

Lemma via_sr_tx_plain data s : plain_ok s (via_sr_tx data s).
Proof. unfold via_sr_tx. plain_frame. Qed.

Lemma kbd_rx_plain data s : plain_ok s (kbd_rx data s).
Proof. unfold kbd_rx. plain_frame. Qed.

Lemma kbd_check_work_plain s : plain_ok s (kbd_check_work s).
Proof. unfold kbd_check_work, kbd_rx. cbn. plain_frame. Qed.

Lemma umac_kbd_event_plain scancode down s :
  plain_ok s (umac_kbd_event scancode down s).
Proof. unfold umac_kbd_event. plain_frame. Qed.

Lemma via_irq_set_plain status s : plain_ok s (via_irq_set status s).
Proof. unfold via_irq_set. plain_frame. Qed.

Lemma scc_irq_set_plain status s : plain_ok s (scc_irq_set status s).
Proof. unfold scc_irq_set. plain_frame. Qed.

Lemma iwm_write_plain address data s : plain_ok s (iwm_write address data s).
Proof. unfold iwm_write. plain_frame. Qed.

Lemma umac_opt_disassemble_plain enable s :
  plain_ok s (umac_opt_disassemble enable s).
Proof. unfold umac_opt_disassemble. plain_frame. Qed.

Lemma RAM_WR8_plain a v s : plain_ok s (RAM_WR8 a v s).
Proof. unfold RAM_WR8. plain_frame. Qed.

Lemma RAM_WR16_plain a v s : plain_ok s (RAM_WR16 a v s).
Proof. unfold RAM_WR16. plain_frame. Qed.

Lemma RAM_WR32_plain a v s : plain_ok s (RAM_WR32 a v s).
Proof. unfold RAM_WR32. plain_frame. Qed.

Lemma umac_mouse_plain deltax deltay button s :
  via_quadbits (umac_mouse deltax deltay button s) = via_quadbits s
  /\ err_pres s (umac_mouse deltax deltay button s)
  /\ calls_extend s (umac_mouse deltax deltay button s).
Proof. unfold umac_mouse, RAM_WR16, RAM_WR8. plain_frame. Qed.

Lemma umac_reset_plain s : plain_ok s (umac_reset s).
Proof. unfold umac_reset. plain_frame. Qed.

Lemma umac_init_plain ram_base rom_base s :
  plain_ok s (umac_init ram_base rom_base s).
Proof. unfold umac_init. plain_frame. Qed.

Lemma call_plain c s : plain_ok s (call c s).
Proof. plain_frame. Qed.

Section Outcomes.

(** Functions that may not return, in one build. *)
Variable cfg : config.

Lemma out_ok_ret {A : Type} (a : A) s s' :
  plain_ok s s' -> out_ok cfg s (Ret a s').
Proof. intros (Hq & He & Hc). split; [|split; [|split]]; cbn; auto. Qed.

Lemma out_ok_pre {A : Type} s s' (m : outcome A) :
  plain_ok s s' -> out_ok cfg s' m -> out_ok cfg s m.
Proof.
  intros (Hq & (Hd & Hg) & Hc) (Hq' & Hc' & He & Hx).
  split; [|split; [|split]]; try congruence; try assumption.
  - unfold calls_extend in *. now transitivity (calls s').
  - destruct m; cbn in *; unfold err_pres in *;
      intuition congruence.
Qed.

Lemma out_ok_bind {A B : Type} s (m : outcome A)
    (k : A -> umac -> outcome B) :
  out_ok cfg s m -> (forall a s1, out_ok cfg s1 (k a s1)) ->
  out_ok cfg s (bind m k).
Proof.
  intros Hm Hk. destruct m as [a s1|s1|s1]; cbn [bind]; try exact Hm.
  destruct Hm as (Hq & Hc & He & _). cbn in Hq, Hc, He.
  apply (out_ok_pre s s1); [|apply Hk].
  split; [|split]; assumption.
Qed.

Lemma exit_error_ok s : out_ok cfg s (exit_error s).
Proof.
  unfold exit_error. destruct (truthy (guard_val s)) eqn:E.
  - apply out_ok_ret, plain_ok_refl.
  - unfold truthy in E. apply negb_false_iff, Z.eqb_eq in E.
    unfold out_ok, calls_extend. cbn.
    split; [reflexivity|]. split; [reflexivity|]. split; [|exact I].
    split; [exact E|]. split; reflexivity.
Qed.

Lemma umac_disc_ejected_ok s : out_ok cfg s (umac_disc_ejected cfg s).
Proof.
  unfold umac_disc_ejected. destruct (SIM cfg) eqn:E.
  - unfold out_ok, calls_extend, err_pres. cbn.
    split; [reflexivity|]. split; [apply suffix_cons_r; reflexivity|].
    split; [split; reflexivity|exact E].
  - apply out_ok_ret, umac_reset_plain.
Qed.

Lemma run_callback_ok c s : out_ok cfg s (run_callback cfg c s).
Proof.
  destruct c; cbn [run_callback];
    try (apply out_ok_ret;
         first [ apply plain_ok_refl | apply via_ra_changed_plain
               | apply via_rb_changed_plain | apply via_sr_tx_plain
               | apply via_irq_set_plain | apply scc_irq_set_plain
               | apply RAM_WR8_plain ]).
  apply umac_disc_ejected_ok.
Qed.

Lemma run_callbacks_ok cs s : out_ok cfg s (run_callbacks cfg cs s).
Proof.
  revert s. induction cs as [|c cs IH]; intros s; cbn [run_callbacks].
  - apply out_ok_ret, plain_ok_refl.
  - apply out_ok_bind; [apply run_callback_ok|intros _ s1; apply IH].
Qed.

Lemma run_callbacks_call_ok cs c s :
  out_ok cfg s (run_callbacks cfg cs (call c s)).
Proof.
  apply (out_ok_pre s (call c s)); [apply call_plain|].
  apply run_callbacks_ok.
Qed.

(** One step of the proofs below: split a conditional, or peel a
    [bind], a device reaction, a recorded call or a store. *)
Ltac out_frame :=
  repeat first
    [ apply exit_error_ok
    | apply out_ok_bind; [|intros ? ?]
    | apply out_ok_ret
    | apply plain_ok_refl
    | apply iwm_write_plain
    | apply RAM_WR8_plain | apply RAM_WR16_plain | apply RAM_WR32_plain
    | apply call_plain
    | apply run_callbacks_call_ok
    | match goal with
      | |- context [if ?b then _ else _] => destruct b
      end ].

Lemma cpu_read_byte_ok address react dev s :
  out_ok cfg s (cpu_read_byte cfg address react dev s).
Proof. unfold cpu_read_byte. out_frame. Qed.

Lemma cpu_read_word_ok address s : out_ok cfg s (cpu_read_word cfg address s).
Proof. unfold cpu_read_word. out_frame. Qed.

Lemma cpu_read_long_ok address s : out_ok cfg s (cpu_read_long cfg address s).
Proof. unfold cpu_read_long. out_frame. Qed.

Lemma cpu_read_word_dasm_ok address s :
  out_ok cfg s (cpu_read_word_dasm cfg address s).
Proof. unfold cpu_read_word_dasm. out_frame. Qed.

Lemma cpu_write_byte_ok address value react r s :
  out_ok cfg s (cpu_write_byte cfg address value react r s).
Proof.
  unfold cpu_write_byte. cbv zeta.
  destruct (IS_RAM cfg (overlay s) address).
  { apply out_ok_ret.
    apply (plain_ok_trans _ (RAM_WR8 (CLAMP_RAM_ADDR cfg address) value s));
      [apply RAM_WR8_plain|].
    destruct (_ && _); [apply call_plain|apply plain_ok_refl]. }
  out_frame.
Qed.

Lemma cpu_write_word_ok address value s :
  out_ok cfg s (cpu_write_word cfg address value s).
Proof. unfold cpu_write_word. out_frame. Qed.

Lemma cpu_write_long_ok address value s :
  out_ok cfg s (cpu_write_long cfg address value s).
Proof. unfold cpu_write_long. out_frame. Qed.

Lemma make_hex_ok n pc s : out_ok cfg s (make_hex cfg n pc s).
Proof.
  revert pc s. induction n as [|n IH]; intros pc s; cbn [make_hex].
  - apply out_ok_ret, plain_ok_refl.
  - apply out_ok_bind; [apply cpu_read_word_dasm_ok|intros _ s1; apply IH].
Qed.

Lemma dasm_reads_ok addrs s : out_ok cfg s (dasm_reads cfg addrs s).
Proof.
  revert s. induction addrs as [|a addrs IH]; intros s; cbn [dasm_reads].
  - apply out_ok_ret, plain_ok_refl.
  - apply out_ok_bind; [apply cpu_read_word_dasm_ok|intros _ s1; apply IH].
Qed.

Lemma cpu_instr_callback_ok pc addrs instr_size s :
  out_ok cfg s (cpu_instr_callback cfg pc addrs instr_size s).
Proof.
  unfold cpu_instr_callback. destruct (negb _).
  - apply out_ok_ret, plain_ok_refl.
  - apply out_ok_bind; [apply dasm_reads_ok|intros _ s1; apply make_hex_ok].
Qed.

Lemma run_bus_op_ok op s : out_ok cfg s (run_bus_op cfg op s).
Proof.
  destruct op; cbn [run_bus_op]; unfold discard, cpu_pulse_reset, cpu_irq_ack.
  - apply out_ok_ret, plain_ok_refl.
  - apply out_ok_bind; [apply cpu_read_byte_ok|intros; apply out_ok_ret, plain_ok_refl].
  - apply out_ok_bind; [apply cpu_read_word_ok|intros; apply out_ok_ret, plain_ok_refl].
  - apply out_ok_bind; [apply cpu_read_long_ok|intros; apply out_ok_ret, plain_ok_refl].
  - apply cpu_write_byte_ok.
  - apply cpu_write_word_ok.
  - apply cpu_write_long_ok.
  - apply out_ok_ret, plain_ok_refl.
  - apply out_ok_ret, plain_ok_refl.
  - apply cpu_instr_callback_ok.
Qed.

Lemma m68k_execute_ok ops s : out_ok cfg s (m68k_execute cfg ops s).
Proof.
  revert s. induction ops as [|op ops IH]; intros s; cbn [m68k_execute].
  - apply out_ok_ret, plain_ok_refl.
  - apply out_ok_bind; [apply run_bus_op_ok|intros _ s1; apply IH].
Qed.

End Outcomes.

(** ** Overlay flag and instruction-fetch dispatch *)

Lemma land_pow2 (x n : Z) :
  0 <= n -> Z.land x (2 ^ n) = if Z.testbit x n then 2 ^ n else 0.
Proof.
  intros Hn. apply Z.bits_inj'. intros k Hk.
  rewrite Z.land_spec, Z.pow2_bits_eqb by exact Hn.
  destruct (Z.eqb_spec n k) as [->|Hne].
  - destruct (Z.testbit x k); cbn.
    + now rewrite Z.pow2_bits_true.
    + now rewrite Z.bits_0.
  - rewrite andb_false_r.
    destruct (Z.testbit x n); [|now rewrite Z.bits_0].
    now rewrite Z.pow2_bits_false.
Qed.

Lemma truthy_land_16 (x : Z) : truthy (Z.land x 0x10) = Z.testbit x 4.
Proof.
  change 0x10 with (2 ^ 4). rewrite land_pow2 by lia.
  now destruct (Z.testbit x 4).
Qed.

Lemma truthy_b2i (b : bool) : truthy (b2i b) = b.
Proof. now destruct b. Qed.

Lemma dispatch_matches_initial (ram0 rom0 : list Z) :
  dispatch_matches (initial ram0 rom0) /\ oldval_tracks (initial ram0 rom0).
Proof. split; reflexivity. Qed.

(** The three fields that [via_ra_changed] decides. *)
Lemma via_ra_changed_overlay (cfg : config) (val : Z) (s : umac) :
  overlay (via_ra_changed cfg val s) = b2i (Z.testbit (u8 val) 4).
Proof.
  unfold via_ra_changed, update_overlay_layout. cbv zeta.
  rewrite !truthy_land_16. split_ifs; reflexivity.
Qed.

Lemma via_ra_changed_pointer (cfg : config) (val : Z) (s : umac) :
  cpu_read_instr (via_ra_changed cfg val s) =
  if xorb (Z.testbit (oldval s) 4) (Z.testbit (u8 val) 4)
  then reader_for (b2i (Z.testbit (u8 val) 4))
  else cpu_read_instr s.
Proof.
  unfold via_ra_changed, update_overlay_layout, reader_for. cbv zeta.
  rewrite !truthy_land_16, Z.lxor_spec.
  cbn [oldval overlay set_overlay].
  split_ifs; reflexivity.
Qed.

Lemma via_ra_changed_oldval (cfg : config) (val : Z) (s : umac) :
  oldval (via_ra_changed cfg val s) =
  if ENABLE_AUDIO cfg then u8 val else oldval s.
Proof.
  unfold via_ra_changed, update_overlay_layout. cbv zeta.
  split_ifs; reflexivity.
Qed.

(** With [ENABLE_AUDIO], [oldval] follows the written values and the
    pointer follows the flag. *)
Lemma via_ra_changed_audio (cfg : config) (val : Z) (s : umac) :
  ENABLE_AUDIO cfg = true ->
  dispatch_matches s /\ oldval_tracks s ->
  dispatch_matches (via_ra_changed cfg val s)
  /\ oldval_tracks (via_ra_changed cfg val s).
Proof.
  intros Ha [Hd Ho]. unfold dispatch_matches, oldval_tracks in *.
  rewrite truthy_land_16 in *.
  rewrite via_ra_changed_overlay, via_ra_changed_pointer, via_ra_changed_oldval.
  rewrite Ha, Ho, Hd, truthy_b2i. split; [|reflexivity].
  destruct (xorb _ _) eqn:Hx; [reflexivity|].
  apply xorb_eq in Hx. unfold reader_for. now rewrite truthy_b2i, Hx.
Qed.

Lemma run_port_a_audio (cfg : config) (vals : list Z) (s : umac) :
  ENABLE_AUDIO cfg = true ->
  dispatch_matches s /\ oldval_tracks s ->
  dispatch_matches (run_port_a cfg vals s).
Proof.
  intros Ha. revert s. induction vals as [|val vals IH]; intros s Hs.
  - apply Hs.
  - cbn. apply IH. now apply via_ra_changed_audio.
Qed.

(** [umac_reset] sets the flag and leaves the pointer as it is. *)
Lemma umac_reset_keeps_pointer (s : umac) :
  overlay (umac_reset s) = 1
  /\ cpu_read_instr (umac_reset s) = cpu_read_instr s.
Proof. split; reflexivity. Qed.

(** Without [ENABLE_AUDIO], [oldval] stays at its initialiser 0x10: the
    layout is updated only by a value with bit 4 clear, so the pointer
    never goes back to the overlay version. *)
Lemma via_ra_changed_no_audio (cfg : config) (val : Z) (s : umac) :
  ENABLE_AUDIO cfg = false ->
  oldval s = 0x10 ->
  cpu_read_instr s = Ptr_cpu_read_instr_normal ->
  oldval (via_ra_changed cfg val s) = 0x10
  /\ cpu_read_instr (via_ra_changed cfg val s) = Ptr_cpu_read_instr_normal.
Proof.
  intros Ha Ho Hr.
  rewrite via_ra_changed_pointer, via_ra_changed_oldval, Ha, Ho, Hr.
  split; [reflexivity|].
  change (Z.testbit 16 4) with true.
  now destruct (Z.testbit (u8 val) 4).
Qed.

(** In every build, and whatever the buffers: once the overlay has been
    cleared through port A, [umac_reset] leaves the flag set and the
    pointer on the normal version. *)
Lemma reset_after_overlay_clear (cfg : config) (ram0 rom0 : list Z) :
  let s := umac_reset (via_ra_changed cfg 0xEF (initial ram0 rom0)) in
  overlay s = 1 /\ cpu_read_instr s = Ptr_cpu_read_instr_normal.
Proof.
  cbv zeta. destruct (umac_reset_keeps_pointer
                        (via_ra_changed cfg 0xEF (initial ram0 rom0)))
    as [-> ->].
  split; [reflexivity|]. now rewrite via_ra_changed_pointer.
Qed.

(** C1.  The pointer [cpu_read_instr] does not always match the overlay
    flag.  In any build, clearing the overlay through port A (0xEF) and
    then calling [umac_reset] leaves the flag set and the fetch path on
    the normal (RAM low) version.  In a build without [ENABLE_AUDIO],
    writing 0xEF and then 0xFF to port A does the same. *)
Theorem fetch_dispatch_goes_stale :
  let s1 := umac_reset (via_ra_changed sample_audio_cfg 0xEF sample_state) in
  let s2 := umac_reset (via_ra_changed sample_cfg 0xEF sample_state) in
  let s3 := run_port_a sample_cfg [0xEF; 0xFF] sample_state in
  (overlay s1 = 1 /\ cpu_read_instr s1 = Ptr_cpu_read_instr_normal
   /\ ~ dispatch_matches s1)
  /\ (overlay s2 = 1 /\ cpu_read_instr s2 = Ptr_cpu_read_instr_normal
      /\ ~ dispatch_matches s2)
  /\ (overlay s3 = 1 /\ cpu_read_instr s3 = Ptr_cpu_read_instr_normal
      /\ ~ dispatch_matches s3).
Proof.
  cbv zeta. unfold dispatch_matches.
  repeat split; try reflexivity; vm_compute; discriminate.
Qed.

(** ** Byte buffers *)

Lemma length_buf_wr8 (m : list Z) (a v : Z) :
  length (buf_wr8 m a v) = length m.
Proof. unfold buf_wr8. destruct (a <? 0); [reflexivity|apply length_insert]. Qed.

Lemma lookup_buf_wr8 (m : list Z) (a v : Z) (i : nat) :
  buf_wr8 m a v !! i =
  if hits a i && bool_decide (i < length m)%nat
  then Some (Z.land v 255) else m !! i.
Proof.
  unfold buf_wr8, hits.
  destruct (Z.ltb_spec a 0) as [Ha|Ha].
  - destruct (Z.leb_spec 0 a); [lia|reflexivity].
  - destruct (Z.leb_spec 0 a); [|lia]. cbn [andb].
    rewrite list_lookup_insert.
    destruct (Nat.eqb_spec (Z.to_nat a) i) as [->|Hne]; cbn [andb].
    + destruct (bool_decide_reflect (i < length m)%nat);
        destruct (decide _) as [[_ ?]|?]; try reflexivity; try lia;
        exfalso; tauto.
    + destruct (decide _) as [[? _]|?]; [contradiction|reflexivity].
Qed.

Lemma lookup_buf_wr8_ne (m : list Z) (a v : Z) (i : nat) :
  Z.of_nat i <> a -> buf_wr8 m a v !! i = m !! i.
Proof.
  intros H. rewrite lookup_buf_wr8. unfold hits.
  destruct (Z.leb_spec 0 a); cbn [andb]; [|reflexivity].
  destruct (Nat.eqb_spec (Z.to_nat a) i); [lia|reflexivity].
Qed.

Lemma buf_rd8_wr8_same (m : list Z) (a v : Z) :
  0 <= a < Z.of_nat (length m) ->
  buf_rd8 (buf_wr8 m a v) a = Z.land v 255.
Proof.
  intros Ha. unfold buf_rd8. destruct (Z.ltb_spec a 0); [lia|].
  rewrite lookup_buf_wr8. unfold hits.
  destruct (Z.leb_spec 0 a); [|lia]. rewrite Nat.eqb_refl. cbn [andb].
  destruct (bool_decide_reflect (Z.to_nat a < length m)%nat); [reflexivity|lia].
Qed.

Lemma buf_rd8_wr8_other (m : list Z) (a v b : Z) :
  a <> b -> buf_rd8 (buf_wr8 m a v) b = buf_rd8 m b.
Proof.
  intros Hne. unfold buf_rd8. destruct (Z.ltb_spec b 0); [reflexivity|].
  rewrite lookup_buf_wr8_ne; [reflexivity|lia].
Qed.

(** The two bytes that [buf_wr16] stores read back as the low 16 bits. *)
Lemma be16_bytes (v : Z) :
  Z.lor (Z.shiftl (Z.land (Z.shiftr v 8) 255) 8) (Z.land v 255) = u16 v.
Proof.
  unfold u16. apply Z.bits_inj'. intros n Hn.
  rewrite Z.lor_spec, Z.testbit_mod_pow2 by lia.
  change 255 with (Z.ones 8).
  rewrite (Z.land_spec v), Z.testbit_ones_nonneg by lia.
  destruct (Z.ltb_spec n 8) as [H8|H8].
  - rewrite Z.shiftl_spec_low by lia. cbn [orb].
    destruct (Z.ltb_spec n 16); [|lia]. now rewrite andb_true_r.
  - rewrite andb_false_r, orb_false_r.
    rewrite Z.shiftl_spec, Z.land_spec, Z.shiftr_spec by lia.
    rewrite Z.testbit_ones_nonneg by lia.
    replace (n - 8 + 8) with n by lia.
    destruct (Z.ltb_spec n 16); destruct (Z.ltb_spec (n - 8) 8); try lia;
      rewrite ?andb_true_r, ?andb_false_r; reflexivity.
Qed.

Lemma buf_rd16_wr16_same (m : list Z) (a v : Z) :
  0 <= a -> a + 1 < Z.of_nat (length m) ->
  buf_rd16 (buf_wr16 m a v) a = u16 v.
Proof.
  intros Ha Hb. unfold buf_rd16, buf_wr16.
  rewrite buf_rd8_wr8_other by lia.
  rewrite !buf_rd8_wr8_same by (rewrite ?length_buf_wr8; lia).
  apply be16_bytes.
Qed.

Lemma buf_rd16_wr8_other (m : list Z) (a v b : Z) :
  a <> b -> a <> b + 1 -> buf_rd16 (buf_wr8 m a v) b = buf_rd16 m b.
Proof.
  intros H1 H2. unfold buf_rd16. now rewrite !buf_rd8_wr8_other.
Qed.

Lemma buf_rd16_wr16_other (m : list Z) (a v b : Z) :
  a + 1 < b \/ b + 1 < a -> buf_rd16 (buf_wr16 m a v) b = buf_rd16 m b.
Proof.
  intros H. unfold buf_wr16. rewrite !buf_rd16_wr8_other by lia. reflexivity.
Qed.

Lemma buf_rd8_wr16_other (m : list Z) (a v b : Z) :
  a <> b -> a + 1 <> b -> buf_rd8 (buf_wr16 m a v) b = buf_rd8 m b.
Proof.
  intros H1 H2. unfold buf_wr16. now rewrite !buf_rd8_wr8_other.
Qed.

Lemma length_buf_wr16 (m : list Z) (a v : Z) :
  length (buf_wr16 m a v) = length m.
Proof. unfold buf_wr16. now rewrite !length_buf_wr8. Qed.

Lemma u16_s16 (z : Z) : u16 (s16 z) = u16 z.
Proof.
  unfold u16, s16.
  rewrite Zminus_mod_idemp_l.
  replace (z + 2 ^ 15 - 2 ^ 15) with z by lia. reflexivity.
Qed.

(** ** Mouse *)

(** With the quadrature bits at their initialiser, port B reads the
    button alone. *)
Lemma via_rb_in_button (s : umac) :
  via_quadbits s = 0 ->
  via_rb_in s = if truthy (via_mouse_pressed s) then 0 else 8.
Proof.
  intros Hq. unfold via_rb_in. rewrite Hq.
  now destruct (truthy (via_mouse_pressed s)).
Qed.

Lemma umac_mouse_button (deltax deltay button : Z) (s : umac) :
  via_mouse_pressed (umac_mouse deltax deltay button s) = u8 button.
Proof. reflexivity. Qed.

Lemma umac_mouse_quadbits (deltax deltay button : Z) (s : umac) :
  via_quadbits (umac_mouse deltax deltay button s) = via_quadbits s.
Proof. apply umac_mouse_plain. Qed.

(** What [umac_mouse] does with the motion: it is added to the low-memory
    words [MTemp_h] and [MTemp_v] (Y grows upwards, so [deltay] is
    subtracted), and [CrsrNew] is loaded from [CrsrCouple]. *)
Lemma umac_mouse_adds_motion (deltax deltay button : Z) (s : umac) :
  CrsrCouple < Z.of_nat (length (ram s)) ->
  let s' := umac_mouse deltax deltay button s in
  RAM_RD16 s' MTemp_h
    = (if truthy deltax then u16 (RAM_RD16 s MTemp_h + deltax)
       else RAM_RD16 s MTemp_h)
  /\ RAM_RD16 s' MTemp_v
     = (if truthy deltay then u16 (RAM_RD16 s MTemp_v - deltay)
        else RAM_RD16 s MTemp_v)
  /\ (truthy deltax || truthy deltay = true ->
      RAM_RD8 s' CrsrNew = Z.land (RAM_RD8 s CrsrCouple) 255).
Proof.
  unfold CrsrCouple, CrsrNew, MTemp_h, MTemp_v. intros Hlen.
  unfold umac_mouse, RAM_WR16, RAM_WR8, RAM_RD16, RAM_RD8,
    MTemp_h, MTemp_v, CrsrNew, CrsrCouple.
  cbv zeta.
  destruct (truthy deltax), (truthy deltay); cbn [orb ram set_ram set_via_mouse_pressed];
    repeat split; try discriminate; intros;
    rewrite ?buf_rd8_wr8_same by (rewrite ?length_buf_wr16; lia);
    rewrite ?buf_rd16_wr8_other by lia;
    rewrite ?(buf_rd16_wr16_other _ 2088 _ 2090) by lia;
    rewrite ?(buf_rd16_wr16_other _ 2090 _ 2088) by lia;
    rewrite ?buf_rd16_wr16_same by (rewrite ?length_buf_wr16; lia);
    rewrite ?u16_s16;
    rewrite ?(buf_rd16_wr16_other _ 2088 _ 2090) by lia;
    rewrite ?(buf_rd16_wr16_other _ 2090 _ 2088) by lia;
    try reflexivity.
  all: rewrite !buf_rd8_wr16_other by lia; reflexivity.
Qed.

(** C3, as the code has it.  [umac_mouse] does not touch the quadrature
    bits: in a state where they hold their initialiser 0 (no function
    of [main.c] assigns them), bits 4 and 5 of the port B input read the
    same after the call as before it, whatever the motion.  The motion
    goes to low memory instead: a nonzero [deltax] is added to the word
    [MTemp_h], a nonzero [deltay] is subtracted from the word [MTemp_v]
    (both modulo 2^16), and if either is nonzero [CrsrNew] is loaded
    from [CrsrCouple]; without motion the two words stay as they are.
    The button is kept in a byte: bit 3 of the port B input reads 0
    exactly when the low byte of the button value is nonzero, so for a
    button value that fits a byte, exactly when the button is
    pressed. *)
Theorem umac_mouse_port_b (deltax deltay button : Z) (s : umac) :
  via_quadbits s = 0 ->
  0 <= button <= 255 ->
  CrsrCouple < Z.of_nat (length (ram s)) ->
  let s' := umac_mouse deltax deltay button s in
  via_quadbits s' = via_quadbits s
  /\ Z.testbit (via_rb_in s') 4 = Z.testbit (via_rb_in s) 4
  /\ Z.testbit (via_rb_in s') 5 = Z.testbit (via_rb_in s) 5
  /\ (Z.testbit (via_rb_in s') 3 = false <-> button <> 0)
  /\ (forall button',
        Z.testbit (via_rb_in (umac_mouse deltax deltay button' s)) 3 = false
        <-> u8 button' <> 0)
  /\ RAM_RD16 s' MTemp_h
     = (if truthy deltax then u16 (RAM_RD16 s MTemp_h + deltax)
        else RAM_RD16 s MTemp_h)
  /\ RAM_RD16 s' MTemp_v
     = (if truthy deltay then u16 (RAM_RD16 s MTemp_v - deltay)
        else RAM_RD16 s MTemp_v)
  /\ (truthy deltax || truthy deltay = true ->
      RAM_RD8 s' CrsrNew = Z.land (RAM_RD8 s CrsrCouple) 255).
Proof.
  intros Hq Hb Hlen s'.
  assert (Hbit : forall b,
             Z.testbit (via_rb_in (umac_mouse deltax deltay b s)) 3 = false
             <-> u8 b <> 0).
  { intros b.
    assert (Hq' : via_quadbits (umac_mouse deltax deltay b s) = 0)
      by now rewrite umac_mouse_quadbits.
    rewrite (via_rb_in_button _ Hq'), umac_mouse_button. unfold truthy.
    destruct (Z.eqb_spec (u8 b) 0) as [->|Hne]; cbn; split; intros H;
      try reflexivity; try discriminate; try assumption; congruence. }
  assert (Hq' : via_quadbits s' = 0).
  { unfold s'. now rewrite umac_mouse_quadbits. }
  assert (Hu : u8 button = button).
  { unfold u8. apply Z.mod_small. lia. }
  split; [congruence|].
  rewrite (via_rb_in_button s Hq), (via_rb_in_button s' Hq').
  split; [now destruct (truthy _), (truthy _)|].
  split; [now destruct (truthy _), (truthy _)|].
  split.
  { rewrite <- (via_rb_in_button s' Hq'), <- Hu. apply Hbit. }
  split; [exact Hbit|].
  exact (umac_mouse_adds_motion deltax deltay button s Hlen).
Qed.

Lemma umac_mouse_port_b_witness :
  let s' := umac_mouse 5 (-3) 1 sample_state in
  via_quadbits s' = via_quadbits sample_state
  /\ Z.testbit (via_rb_in s') 4 = Z.testbit (via_rb_in sample_state) 4
  /\ Z.testbit (via_rb_in s') 5 = Z.testbit (via_rb_in sample_state) 5
  /\ (Z.testbit (via_rb_in s') 3 = false <-> 1 <> 0)
  /\ (forall button',
        Z.testbit (via_rb_in (umac_mouse 5 (-3) button' sample_state)) 3
        = false
        <-> u8 button' <> 0)
  /\ RAM_RD16 s' MTemp_h
     = (if truthy 5 then u16 (RAM_RD16 sample_state MTemp_h + 5)
        else RAM_RD16 sample_state MTemp_h)
  /\ RAM_RD16 s' MTemp_v
     = (if truthy (-3) then u16 (RAM_RD16 sample_state MTemp_v - -3)
        else RAM_RD16 sample_state MTemp_v)
  /\ (truthy 5 || truthy (-3) = true ->
      RAM_RD8 s' CrsrNew = Z.land (RAM_RD8 sample_state CrsrCouple) 255).
Proof.
  apply (umac_mouse_port_b 5 (-3) 1 sample_state);
    [reflexivity|lia|vm_compute; reflexivity].
Defined.

(** C3 as stated fails: a motion of (5, -3) reported to a freshly
    initialised core leaves the quadrature bits and bits 4 and 5 of the
    port B input as they were; the motion went to [MTemp_h] and
    [MTemp_v].  The button test fails beyond a byte: with the button
    value 256, which is nonzero, bit 3 of the port B input reads 1 as
    for a released button, since [via_mouse_pressed] keeps only the low
    byte. *)
Lemma umac_mouse_quadrature_unmoved :
  let s' := umac_mouse 5 (-3) 0 sample_state in
  via_quadbits s' = via_quadbits sample_state
  /\ Z.land (via_rb_in s') 0x30 = Z.land (via_rb_in sample_state) 0x30
  /\ ~ (Z.testbit (via_rb_in s') 4 <> Z.testbit (via_rb_in sample_state) 4
        \/ Z.testbit (via_rb_in s') 5 <> Z.testbit (via_rb_in sample_state) 5)
  /\ RAM_RD16 s' MTemp_h = 5
  /\ RAM_RD16 s' MTemp_v = 3
  /\ 256 <> 0
  /\ via_mouse_pressed (umac_mouse 0 0 256 sample_state) = 0
  /\ Z.testbit (via_rb_in (umac_mouse 0 0 256 sample_state)) 3 = true.
Proof.
  cbv zeta. split; [reflexivity|]. split; [reflexivity|].
  split; [intros [H|H]; apply H; reflexivity|].
  split; [vm_compute; reflexivity|].
  split; [vm_compute; reflexivity|].
  split; [discriminate|]. split; reflexivity.
Qed.

(** ** Keyboard *)

Lemma u8_u8 (z : Z) : u8 (u8 z) = u8 z.
Proof. unfold u8. apply Z.mod_mod. lia. Qed.

Lemma u8_small (z : Z) : 0 <= z <= 255 -> u8 z = z.
Proof. intros H. unfold u8. apply Z.mod_small. lia. Qed.

Lemma kbd_rx_u8 (data : Z) (s : umac) : kbd_rx (u8 data) s = kbd_rx data s.
Proof. unfold kbd_rx. now rewrite u8_u8. Qed.

(** A key event fills the one-event buffer with the scancode, bit 7 set
    for a release. *)
Lemma umac_kbd_event_buffers (scancode down : Z) (s : umac) :
  0 <= scancode <= 255 ->
  kbd_pending_evt (umac_kbd_event scancode down s)
    = Z.lor scancode (if truthy down then 0 else 0x80)
  /\ kbd_pending_evt (umac_kbd_event scancode down s) <> -1.
Proof.
  intros Hs. cbn. rewrite (u8_small _ Hs). split; [reflexivity|].
  assert (0 <= Z.lor scancode (if truthy down then 0 else 128)).
  { apply Z.lor_nonneg. destruct (truthy down); lia. }
  lia.
Qed.

(** C5.  [kbd_rx] on a command byte: GET_MODEL (0x16) answers
    [(5 << 1) | 1 = 0x0B] through [via_sr_rx]; INQUIRY (0x10) answers
    0x7B when the one-event buffer is empty, and otherwise answers the
    buffered scancode and empties the buffer; any other byte changes
    nothing, so nothing is answered. *)
Theorem kbd_rx_responses (s : umac) :
  kbd_rx 0x16 s = call (Call_via_sr_rx 0x0B) s
  /\ (kbd_pending_evt s = -1 ->
      kbd_rx 0x10 s = call (Call_via_sr_rx 0x7B) s)
  /\ (kbd_pending_evt s <> -1 ->
      kbd_rx 0x10 s
      = set_kbd_pending_evt (-1) (call (Call_via_sr_rx (kbd_pending_evt s)) s))
  /\ (forall data, 0 <= data <= 255 -> data <> 0x16 -> data <> 0x10 ->
      kbd_rx data s = s).
Proof.
  split; [reflexivity|]. split; [|split].
  - intros H. unfold kbd_rx. cbn. now rewrite H.
  - intros H. unfold kbd_rx. cbn.
    destruct (Z.eqb_spec (kbd_pending_evt s) (-1)); [contradiction|reflexivity].
  - intros data Hd H1 H2. unfold kbd_rx. cbv zeta. rewrite (u8_small _ Hd).
    unfold KBD_CMD_GET_MODEL, KBD_CMD_INQUIRY.
    destruct (Z.eqb_spec data 0x16); [contradiction|].
    destruct (Z.eqb_spec data 0x10); [contradiction|reflexivity].
Qed.

Lemma kbd_rx_responses_witness :
  let s := sample_state in
  let s' := umac_kbd_event 0x33 0 sample_state in
  kbd_rx 0x16 s = call (Call_via_sr_rx 0x0B) s
  /\ kbd_rx 0x10 s = call (Call_via_sr_rx 0x7B) s
  /\ kbd_rx 0x10 s' = set_kbd_pending_evt (-1) (call (Call_via_sr_rx 0xB3) s')
  /\ kbd_rx 0x14 s = s.
Proof.
  cbv zeta.
  destruct (kbd_rx_responses sample_state) as (H1 & H2 & _ & H4).
  destruct (kbd_rx_responses (umac_kbd_event 0x33 0 sample_state))
    as (_ & _ & H3 & _).
  split; [exact H1|]. split; [apply H2; reflexivity|].
  split; [apply H3; discriminate|].
  apply H4; lia.
Defined.

(** [via_sr_tx] records the byte and the current virtual time. *)
Lemma via_sr_tx_records (data : Z) (s : umac) :
  kbd_last_cmd (via_sr_tx data s) = u8 data
  /\ kbd_last_cmd_time (via_sr_tx data s) = global_time_us s.
Proof. split; reflexivity. Qed.

(** C6.  A command byte [data] is transmitted in state [s0]:
    [via_sr_tx] records it with the virtual time of [s0].  Let [s] be a
    later state in which that command is still the recorded one.  If
    the virtual time elapsed since the transmit does not exceed one
    execution-loop quantum, [kbd_check_work] does nothing; once it
    exceeds the quantum, [kbd_check_work] hands the command to [kbd_rx]
    and clears it. *)
Theorem kbd_command_delay (data : Z) (s0 s : umac) :
  u8 data <> 0 ->
  kbd_last_cmd s = kbd_last_cmd (via_sr_tx data s0) ->
  kbd_last_cmd_time s = kbd_last_cmd_time (via_sr_tx data s0) ->
  0 <= global_time_us s0 <= global_time_us s ->
  global_time_us s < 2 ^ 64 ->
  let elapsed := global_time_us s - global_time_us s0 in
  (elapsed <= UMAC_EXECLOOP_QUANTUM -> kbd_check_work s = s)
  /\ (UMAC_EXECLOOP_QUANTUM < elapsed ->
      kbd_check_work s = set_kbd_last_cmd 0 (kbd_rx data s)).
Proof.
  intros Hd Hc Ht Hmono Hmax elapsed.
  destruct (via_sr_tx_records data s0) as [Hc0 Ht0].
  rewrite Hc0 in Hc. rewrite Ht0 in Ht.
  unfold kbd_check_work. rewrite Hc, Ht.
  assert (Hu : u64 (global_time_us s - global_time_us s0) = elapsed).
  { unfold u64. apply Z.mod_small. unfold elapsed. lia. }
  rewrite Hu, kbd_rx_u8.
  assert (Hp : truthy (u8 data) = true).
  { unfold truthy. now destruct (Z.eqb_spec (u8 data) 0). }
  rewrite Hp. cbn [andb]. split; intros H.
  - destruct (Z.ltb_spec UMAC_EXECLOOP_QUANTUM elapsed); [lia|reflexivity].
  - destruct (Z.ltb_spec UMAC_EXECLOOP_QUANTUM elapsed); [reflexivity|lia].
Qed.

(** In an idle pass the check is made in [at_check]. *)
Lemma umac_loop_idle_pass (cfg : config) (used : Z) (s : umac) :
  let s' := kbd_check_work (at_check used s) in
  umac_loop cfg [idle_pass used] s = Some (Ret (sim_done s') s').
Proof. reflexivity. Qed.

(** INQUIRY is transmitted at time 0.  A pass of 40000 cycles brings the
    virtual time to 5000: nothing is answered.  A pass of 40008 cycles
    brings it to 5001: the command is answered and cleared. *)
Lemma kbd_command_delay_witness :
  let s0 := sample_state in
  let early := at_check 40000 (via_sr_tx 0x10 s0) in
  let late := at_check 40008 (via_sr_tx 0x10 s0) in
  global_time_us early = 5000
  /\ kbd_check_work early = early
  /\ global_time_us late = 5001
  /\ kbd_check_work late = set_kbd_last_cmd 0 (kbd_rx 0x10 late).
Proof.
  cbv zeta. split; [reflexivity|]. split.
  - apply (kbd_command_delay 0x10 sample_state
             (at_check 40000 (via_sr_tx 0x10 sample_state))).
    + vm_compute; discriminate.
    + reflexivity.
    + reflexivity.
    + vm_compute; split; discriminate.
    + vm_compute; reflexivity.
    + vm_compute; discriminate.
  - split; [reflexivity|].
    apply (kbd_command_delay 0x10 sample_state
             (at_check 40008 (via_sr_tx 0x10 sample_state))).
    + vm_compute; discriminate.
    + reflexivity.
    + reflexivity.
    + vm_compute; split; discriminate.
    + vm_compute; reflexivity.
    + vm_compute; reflexivity.
Defined.

(** The fields that the keyboard check reads, in the state in which an
    idle pass makes it. *)
Lemma at_check_fields (used : Z) (s : umac) :
  global_cycles (at_check used s) = u64 (global_cycles s + used)
  /\ global_time_us (at_check used s) = u64 (global_cycles s + used) / 8
  /\ kbd_last_cmd (at_check used s) = kbd_last_cmd s
  /\ kbd_last_cmd_time (at_check used s) = kbd_last_cmd_time s.
Proof. repeat split. Qed.

(** [kbd_check_work] does not touch the clock or the recorded time. *)
Lemma kbd_check_work_clock (s : umac) :
  global_cycles (kbd_check_work s) = global_cycles s
  /\ global_time_us (kbd_check_work s) = global_time_us s
  /\ kbd_last_cmd_time (kbd_check_work s) = kbd_last_cmd_time s.
Proof.
  unfold kbd_check_work, kbd_rx. cbv zeta. split_ifs; repeat split.
Qed.

(** What [kbd_check_work] leaves in [kbd_last_cmd]. *)
Lemma kbd_check_work_cmd (s : umac) :
  kbd_last_cmd (kbd_check_work s)
  = if truthy (kbd_last_cmd s)
       && (UMAC_EXECLOOP_QUANTUM <? u64 (global_time_us s - kbd_last_cmd_time s))
    then 0 else kbd_last_cmd s.
Proof. unfold kbd_check_work. now destruct (_ && _). Qed.

Lemma kbd_waiting_pass (data t0 used : Z) (s : umac) :
  u8 data <> 0 -> 0 <= used -> global_cycles s + used < 2 ^ 64 ->
  kbd_waiting data t0 s ->
  kbd_waiting data t0 (kbd_check_work (at_check used s)).
Proof.
  intros Hd Hu Hmax (Hc & Ht & Hl & Ht0 & Hcmd). unfold kbd_waiting.
  destruct (kbd_check_work_clock (at_check used s)) as (-> & -> & ->).
  rewrite kbd_check_work_cmd.
  destruct (at_check_fields used s) as (-> & -> & -> & ->).
  assert (Hu64 : u64 (global_cycles s + used) = global_cycles s + used).
  { unfold u64. apply Z.mod_small. lia. }
  rewrite Hu64, Hl.
  set (t1 := (global_cycles s + used) / 8).
  assert (Hm : global_time_us s <= t1).
  { rewrite Ht. apply Z.div_le_mono; lia. }
  assert (Ht1 : t1 < 2 ^ 64).
  { apply Z.div_lt_upper_bound; lia. }
  assert (He : u64 (t1 - t0) = t1 - t0).
  { unfold u64. apply Z.mod_small. lia. }
  rewrite He, Hcmd.
  repeat split; try lia.
  unfold truthy.
  destruct (Z.leb_spec (global_time_us s - t0) UMAC_EXECLOOP_QUANTUM);
    destruct (Z.leb_spec (t1 - t0) UMAC_EXECLOOP_QUANTUM);
    destruct (Z.ltb_spec UMAC_EXECLOOP_QUANTUM (t1 - t0));
    destruct (Z.eqb_spec (u8 data) 0);
    cbn; try reflexivity; try lia; contradiction.
Qed.

Lemma kbd_check_work_at_check_cycles (used : Z) (s : umac) :
  0 <= global_cycles s -> 0 <= used -> global_cycles s + used < 2 ^ 64 ->
  global_cycles (kbd_check_work (at_check used s)) = global_cycles s + used.
Proof.
  intros Hc Hu Hmax.
  destruct (kbd_check_work_clock (at_check used s)) as (-> & _).
  destruct (at_check_fields used s) as (-> & _).
  unfold u64. apply Z.mod_small. lia.
Qed.

Lemma sum_nonneg (useds : list Z) :
  Forall (fun used => 0 <= used) useds -> 0 <= fold_right Z.add 0 useds.
Proof. induction 1; cbn; lia. Qed.

Lemma idle_passes_cons (used : Z) (useds : list Z) (s : umac) :
  idle_passes (used :: useds) s
  = idle_passes useds (kbd_check_work (at_check used s)).
Proof. unfold idle_passes at 1. fold idle_passes. reflexivity. Qed.

Lemma kbd_waiting_passes (data t0 : Z) (useds : list Z) (s : umac) :
  u8 data <> 0 ->
  Forall (fun used => 0 <= used) useds ->
  kbd_waiting data t0 s ->
  global_cycles s + fold_right Z.add 0 useds < 2 ^ 64 ->
  kbd_waiting data t0 (idle_passes useds s).
Proof.
  intros Hd. revert s.
  induction useds as [|used useds IH]; intros s Hpos Hw Hsum.
  - exact Hw.
  - apply Forall_cons in Hpos as [Hu Hpos].
    pose proof (sum_nonneg useds Hpos) as Hnn.
    cbn [fold_right] in Hsum.
    rewrite idle_passes_cons.
    assert (Hc : 0 <= global_cycles s) by apply Hw.
    apply IH.
    + exact Hpos.
    + apply kbd_waiting_pass; try assumption. lia.
    + rewrite kbd_check_work_at_check_cycles; lia.
Qed.

(** Over a run of idle passes made after a transmit: the command stays
    recorded as long as the virtual time of the checks is within one
    quantum of the transmit, and it is gone once a check was made
    later than that. *)
Lemma kbd_command_over_idle_passes (data : Z) (useds : list Z) (s0 : umac) :
  u8 data <> 0 ->
  Forall (fun used => 0 <= used) useds ->
  0 <= global_cycles s0 ->
  global_cycles s0 + fold_right Z.add 0 useds < 2 ^ 64 ->
  global_time_us s0 = global_cycles s0 / 8 ->
  let s := idle_passes useds (via_sr_tx data s0) in
  kbd_last_cmd s
  = if global_time_us s - global_time_us s0 <=? UMAC_EXECLOOP_QUANTUM
    then u8 data else 0.
Proof.
  intros Hd Hpos Hc0 Hsum Ht0 s.
  apply (kbd_waiting_passes data (global_time_us s0) useds (via_sr_tx data s0));
    try assumption.
  unfold kbd_waiting.
  destruct (via_sr_tx_records data s0) as [-> ->].
  change (global_cycles (via_sr_tx data s0)) with (global_cycles s0).
  change (global_time_us (via_sr_tx data s0)) with (global_time_us s0).
  rewrite Z.sub_diag. repeat split; try lia.
  rewrite Ht0. apply Z.div_pos; lia.
Qed.

(** ** Fatal errors and the main loop *)

Section Loop.

(** The main loop and the disc doorbell, in one build. *)
Variable cfg : config.

Lemma account_cycles_plain used s : plain_ok s (account_cycles used s).
Proof. unfold account_cycles. plain_frame. Qed.

Lemma umac_loop_tail_ok run s : out_ok cfg s (umac_loop_tail cfg run s).
Proof.
  unfold umac_loop_tail. cbv zeta.
  apply (out_ok_pre cfg s (account_cycles (used_cycles run) s));
    [apply account_cycles_plain|].
  apply out_ok_bind; [apply run_callbacks_call_ok|].
  intros _ s1. apply out_ok_ret, kbd_check_work_plain.
Qed.

(** No callback reaches [exit_error]. *)
Lemma run_callbacks_no_longjmp cs s s' :
  run_callbacks cfg cs s <> Longjmp s'.
Proof.
  revert s. induction cs as [|c cs IH]; intros s; cbn [run_callbacks];
    [discriminate|].
  destruct c; cbn [run_callback bind]; try apply IH.
  unfold umac_disc_ejected. destruct (SIM cfg); cbn [bind];
    [discriminate|apply IH].
Qed.

(** The tail returns the done flag, and it never takes the [longjmp]. *)
Lemma umac_loop_tail_returns_flag run s :
  match umac_loop_tail cfg run s with
  | Ret r s' => r = sim_done s'
  | Longjmp _ => False
  | Exit _ => True
  end.
Proof.
  unfold umac_loop_tail. cbv zeta.
  pose proof (run_callbacks_no_longjmp (tick run)
                (call (Call_via_tick (used_cycles run))
                      (account_cycles (used_cycles run) s))) as Hn.
  destruct (run_callbacks _ _ _) as [[] s1|s1|s1]; cbn;
    [reflexivity| |exact I].
  now apply (Hn s1).
Qed.

(** A pass that starts with the guard set cannot leave through the
    [longjmp]. *)
Lemma guarded_no_longjmp {A : Type} (s s' : umac) (m : outcome A) :
  err_ok s m -> guard_val s <> 0 -> m <> Longjmp s'.
Proof. intros He Hg ->. destruct He as (Hg0 & _). contradiction. Qed.

(** [umac_loop] returns its result after at most two passes: the second
    pass starts with the guard set. *)
Lemma umac_loop_returns_guarded run runs s :
  guard_val s <> 0 -> exists m, umac_loop cfg (run :: runs) s = Some m.
Proof.
  intros Hg. cbn [umac_loop]. cbv zeta.
  pose proof (m68k_execute_ok cfg (ops run) (entering run s))
    as (_ & _ & He & _).
  destruct (m68k_execute _ _ _) as [[] s1|s1|s1]; eauto.
  destruct He as (Hg0 & _). cbn in Hg0. contradiction.
Qed.

Lemma umac_loop_returns runs s :
  (2 <= length runs)%nat -> exists m, umac_loop cfg runs s = Some m.
Proof.
  destruct runs as [|run [|run' runs]]; cbn [length]; try lia. intros _.
  cbn [umac_loop]. cbv zeta. fold (entering run s).
  pose proof (m68k_execute_ok cfg (ops run) (entering run s))
    as (_ & _ & He & _).
  destruct (m68k_execute _ _ _) as [[] s1|s1|s1]; eauto.
  destruct He as (_ & _ & Hg1).
  apply umac_loop_returns_guarded. lia.
Qed.

(** Whatever [umac_loop] returns is the done flag; the call leaves the
    quadrature bits alone, only a [SIM] build can exit from it, and a
    set done flag stays set. *)
Lemma umac_loop_result runs s m :
  umac_loop cfg runs s = Some m ->
  via_quadbits (state_of m) = via_quadbits s
  /\ (sim_done s = 1 -> sim_done (state_of m) = 1)
  /\ match m with
     | Ret r s' => r = sim_done s'
     | Longjmp _ => False
     | Exit _ => SIM cfg = true
     end.
Proof.
  revert s. induction runs as [|run runs IH]; intros s; [discriminate|].
  cbn [umac_loop]. cbv zeta. fold (entering run s).
  pose proof (m68k_execute_ok cfg (ops run) (entering run s))
    as (Hq & _ & He & Hx).
  destruct (m68k_execute _ _ _) as [[] s1|s1|s1]; cbn in Hq, He, Hx.
  - intros [= <-].
    pose proof (umac_loop_tail_ok run s1) as (Hq' & _ & He' & Hx').
    pose proof (umac_loop_tail_returns_flag run s1) as Hr.
    destruct He as [Hd Hg]. cbn in Hd, Hg.
    destruct (umac_loop_tail cfg run s1) as [r s2|s2|s2];
      cbn in *; try contradiction.
    + destruct He' as [Hd' _]. repeat split; congruence.
    + destruct He' as [Hd' _]. repeat split; congruence.
  - intros Hm. destruct (IH s1 Hm) as (Hq' & Hs' & Hr).
    destruct He as (_ & Hd1 & _).
    repeat split; [congruence|auto|exact Hr].
  - intros [= <-]. destruct He as [Hd _]. cbn in Hd.
    repeat split; cbn; congruence.
Qed.

Lemma umac_loop_reports_done runs s m :
  sim_done s = 1 -> umac_loop cfg runs s = Some m -> reports_done cfg m.
Proof.
  intros Hd Hm. destruct (umac_loop_result runs s m Hm) as (_ & Hs & Hr).
  specialize (Hs Hd). destruct m as [r s'|s'|s']; cbn in *; try assumption.
  split; congruence.
Qed.

(** One host call made with the done flag set. *)
Lemma host_step_done h s :
  sim_done s = 1 -> described h ->
  exists m, host_step cfg h s = Some m
            /\ match m with
               | Ret r s' =>
                   sim_done s' = 1
                   /\ r = match h with
                          | H_umac_loop _ => Some 1
                          | _ => None
                          end
               | Exit _ => SIM cfg = true
               | Longjmp _ => False
               end.
Proof.
  intros Hd Hdesc.
  assert (Hplain : forall s', plain_ok s s' -> sim_done s' = 1).
  { intros s' (_ & (Hs & _) & _). congruence. }
  destruct h as [rb ob|en|sc dn|dx dy bt| | |v|v|react|runs]; cbn [host_step];
    try (eexists; split; [reflexivity|]; cbv beta iota; split; [|reflexivity];
         apply Hplain;
         first [ apply umac_init_plain | apply umac_opt_disassemble_plain
               | apply umac_kbd_event_plain | apply umac_reset_plain
               | apply int_controller_set_plain
               | apply int_controller_clear_plain ]).
  - eexists; split; [reflexivity|]. cbv beta iota. split; [|reflexivity].
    destruct (umac_mouse_plain dx dy bt s) as (_ & (Hs & _) & _).
    congruence.
  - eexists; split; [reflexivity|].
    pose proof (umac_disc_ejected_ok cfg s) as (_ & _ & He & Hx).
    unfold umac_disc_ejected in *. destruct (SIM cfg); cbn in *.
    + reflexivity.
    + split; reflexivity || apply Hd.
  - eexists; split; [reflexivity|].
    pose proof (run_callbacks_ok cfg react s) as (_ & _ & He & Hx).
    pose proof (run_callbacks_no_longjmp react s) as Hn.
    destruct (run_callbacks cfg react s) as [[] s1|s1|s1]; cbn in *.
    + split; [|reflexivity]. destruct He as [Hs _]. congruence.
    + now apply (Hn s1).
    + exact Hx.
  - cbn in Hdesc. destruct (umac_loop_returns runs s Hdesc) as [m Hm].
    rewrite Hm. eexists; split; [reflexivity|].
    pose proof (umac_loop_reports_done runs s m Hd Hm) as Hr.
    destruct m as [r s'|s'|s']; cbn in *; try assumption.
    destruct Hr as [-> Hs]. now split.
Qed.

(** C10.  Take a state in which the done flag is set.  [umac_reset]
    leaves the flag set, and in every session of host calls made from
    that state each call of [umac_loop] returns (after at most two
    passes through its body) and returns 1, with the flag still set at
    the end; the one way for a call not to return is the [exit] that a
    [SIM] build makes when a disc is ejected. *)
Theorem done_flag_is_sticky (hs : list host_call) (s : umac) :
  sim_done s = 1 ->
  Forall described hs ->
  sim_done (umac_reset s) = 1
  /\ exists m, host_run cfg hs s = Some m /\ session_done cfg hs m.
Proof.
  intros Hd Hdesc. split; [exact Hd|].
  revert s Hd. induction Hdesc as [|h hs Hh _ IH]; intros s Hd.
  - eexists; split; [reflexivity|]. cbn. repeat split; [constructor|exact Hd].
  - cbn [host_run].
    destruct (host_step_done h s Hd Hh) as (m1 & -> & H1).
    destruct m1 as [r s1|s1|s1]; [|contradiction|].
    + destruct H1 as [Hd1 Hr].
      destruct (IH s1 Hd1) as (m2 & -> & H2).
      destruct m2 as [rs s2|s2|s2]; [|contradiction|].
      * eexists; split; [reflexivity|]. cbn in *.
        destruct H2 as (Hlen & Hall & Hd2).
        destruct h; subst r; cbn; repeat split; auto.
      * eexists; split; [reflexivity|]. exact H2.
    + eexists; split; [reflexivity|]. exact H1.
Qed.


(** The disc doorbell. *)

Lemma m68k_execute_app pre post s :
  m68k_execute cfg (pre ++ post) s
  = bind (m68k_execute cfg pre s) (fun _ s => m68k_execute cfg post s).
Proof.
  revert s. induction pre as [|op pre IH]; intros s; [reflexivity|].
  cbn [app m68k_execute].
  destruct (run_bus_op cfg op s) as [[] s1|s1|s1]; cbn [bind];
    [apply IH|reflexivity|reflexivity].
Qed.



End Loop.

Lemma done_flag_is_sticky_witness :
  let hs := [H_umac_loop [idle_pass 40000; idle_pass 40000];
             H_umac_reset;
             H_umac_loop [failing_again_pass; idle_pass 40000]] in
  sim_done faulted_state = 1
  /\ sim_done (umac_reset faulted_state) = 1
  /\ exists m, host_run sample_cfg hs faulted_state = Some m
               /\ session_done sample_cfg hs m.
Proof.
  cbv zeta. split; [reflexivity|].
  apply (done_flag_is_sticky sample_cfg
           [H_umac_loop [idle_pass 40000; idle_pass 40000];
            H_umac_reset;
            H_umac_loop [failing_again_pass; idle_pass 40000]]
           faulted_state).
  - reflexivity.
  - repeat constructor.
Defined.




(** ** The quadrature bits over a session *)

Section Session.

(** One build. *)
Variable cfg : config.

Lemma host_step_quadbits h s m :
  host_step cfg h s = Some m -> via_quadbits (state_of m) = via_quadbits s.
Proof.
  destruct h as [rb ob|en|sc dn|dx dy bt| | |v|v|react|runs]; cbn [host_step];
    try (intros [= <-]; cbn [state_of]).
  - apply umac_init_plain.
  - apply umac_opt_disassemble_plain.
  - apply umac_kbd_event_plain.
  - apply umac_mouse_plain.
  - apply umac_reset_plain.
  - pose proof (umac_disc_ejected_ok cfg s) as (Hq & _).
    destruct (umac_disc_ejected cfg s); exact Hq.
  - apply int_controller_set_plain.
  - apply int_controller_clear_plain.
  - pose proof (run_callbacks_ok cfg react s) as (Hq & _).
    destruct (run_callbacks cfg react s); exact Hq.
  - destruct (umac_loop cfg runs s) as [m'|] eqn:E; [|discriminate].
    intros [= <-]. destruct (umac_loop_result cfg runs s m' E) as (Hq & _).
    destruct m'; exact Hq.
Qed.

(** No host call, CPU access or device callback changes [via_quadbits]:
    at the end of a session it holds what it held at the start. *)
Lemma host_run_quadbits hs s m :
  host_run cfg hs s = Some m -> via_quadbits (state_of m) = via_quadbits s.
Proof.
  revert s m. induction hs as [|h hs IH]; intros s m; cbn [host_run].
  - now intros [= <-].
  - destruct (host_step cfg h s) as [m1|] eqn:E1; [|discriminate].
    pose proof (host_step_quadbits h s m1 E1) as Hq1.
    destruct m1 as [r s1|s1|s1]; cbn [state_of] in Hq1;
      try (intros [= <-]; exact Hq1).
    destruct (host_run cfg hs s1) as [m2|] eqn:E2; [|discriminate].
    pose proof (IH s1 m2 E2) as Hq2.
    destruct m2 as [rs s2|s2|s2]; intros [= <-]; cbn [state_of] in *;
      congruence.
Qed.

End Session.

Lemma quadbits_stay_zero (cfg : config) hs ram0 rom0 m :
  host_run cfg hs (initial ram0 rom0) = Some m ->
  via_quadbits (state_of m) = 0.
Proof. intros H. now rewrite (host_run_quadbits cfg hs _ m H). Qed.

(** ** ROM patching *)

Lemma length_apply_writes (ws : list (Z * Z)) (m : list Z) :
  length (apply_writes ws m) = length m.
Proof.
  revert m. induction ws as [|w ws IH]; intros m; cbn; [reflexivity|].
  unfold apply_writes in IH. rewrite IH. apply length_buf_wr8.
Qed.

(** A byte of the result is the last store made to it, or the old byte. *)
Lemma lookup_apply_writes (ws : list (Z * Z)) (m : list Z) (i : nat) :
  apply_writes ws m !! i =
  match last_write ws i with
  | Some v => if bool_decide (i < length m)%nat then Some v else None
  | None => m !! i
  end.
Proof.
  revert m. induction ws as [|w ws IH]; intros m; [reflexivity|].
  change (apply_writes (w :: ws) m)
    with (apply_writes ws (buf_wr8 m (fst w) (snd w))).
  rewrite IH. cbn [last_write]. rewrite length_buf_wr8.
  destruct (last_write ws i); [reflexivity|].
  rewrite lookup_buf_wr8.
  destruct (hits (fst w) i); cbn [andb]; [|reflexivity].
  destruct (bool_decide_reflect (i < length m)%nat) as [Hlt|Hge];
    [reflexivity|].
  apply lookup_ge_None. lia.
Qed.

(** Stores whose values do not depend on the buffer can be repeated
    without effect. *)
Lemma apply_writes_idempotent (ws : list (Z * Z)) (m : list Z) :
  apply_writes ws (apply_writes ws m) = apply_writes ws m.
Proof.
  apply list_eq. intros i.
  rewrite (lookup_apply_writes ws (apply_writes ws m)).
  rewrite length_apply_writes.
  rewrite (lookup_apply_writes ws m).
  destruct (last_write ws i); reflexivity.
Qed.

Lemma last_write_below (lo : Z) (ws : list (Z * Z)) (i : nat) :
  Forall (fun w => lo <= fst w) ws -> Z.of_nat i < lo ->
  last_write ws i = None.
Proof.
  intros H Hi. induction H as [|w ws Hw _ IH]; [reflexivity|].
  cbn. rewrite IH. unfold hits.
  destruct (Z.leb_spec 0 (fst w)); cbn [andb]; [|reflexivity].
  destruct (Nat.eqb_spec (Z.to_nat (fst w)) i); [lia|reflexivity].
Qed.

Lemma writer_idempotent (lo : Z) (f : list Z -> list Z) (m : list Z) :
  writer lo f -> f (f m) = f m.
Proof. intros (ws & _ & E). rewrite !E. apply apply_writes_idempotent. Qed.

Lemma writer_below (lo : Z) (f : list Z -> list Z) (m : list Z) (i : nat) :
  writer lo f -> Z.of_nat i < lo -> f m !! i = m !! i.
Proof.
  intros (ws & H & E) Hi. rewrite E, lookup_apply_writes.
  now rewrite (last_write_below lo ws i H Hi).
Qed.

Lemma writer_id (lo : Z) : writer lo (fun m => m).
Proof. exists []. split; [constructor|reflexivity]. Qed.

Lemma writer_compose (lo : Z) (f g : list Z -> list Z) :
  writer lo f -> writer lo g -> writer lo (fun m => g (f m)).
Proof.
  intros (wf & Hf & Ef) (wg & Hg & Eg). exists (wf ++ wg). split.
  - now apply Forall_app.
  - intros m. rewrite Eg, Ef. unfold apply_writes. now rewrite fold_left_app.
Qed.

Lemma writer_wr8 (lo : Z) (f : list Z -> list Z) (a v : Z) :
  lo <= a -> writer lo f -> writer lo (fun m => ROM_WR8 (f m) a v).
Proof.
  intros Ha Hf. apply (writer_compose lo f (fun m => ROM_WR8 m a v) Hf).
  exists [(a, v)]. split; [repeat constructor; exact Ha|reflexivity].
Qed.

Lemma writer_wr16 (lo : Z) (f : list Z -> list Z) (a v : Z) :
  lo <= a -> writer lo f -> writer lo (fun m => ROM_WR16 (f m) a v).
Proof.
  intros Ha Hf. apply (writer_compose lo f (fun m => ROM_WR16 m a v) Hf).
  exists [(a, Z.shiftr v 8); (a + 1, v)].
  split; [repeat constructor; cbn; lia|reflexivity].
Qed.

Lemma writer_wr32 (lo : Z) (f : list Z -> list Z) (a v : Z) :
  lo <= a -> writer lo f -> writer lo (fun m => ROM_WR32 (f m) a v).
Proof.
  intros Ha Hf. apply (writer_compose lo f (fun m => ROM_WR32 m a v) Hf).
  exists [(a, Z.shiftr v 24); (a + 1, Z.shiftr v 16);
          (a + 2, Z.shiftr v 8); (a + 3, v)].
  split; [repeat constructor; cbn; lia|reflexivity].
Qed.

Lemma writer_memcpy_here (lo dst : Z) (src : list Z) :
  lo <= dst -> writer lo (fun m => memcpy m dst src).
Proof.
  revert dst. induction src as [|b src IH]; intros dst Hd; cbn [memcpy].
  - apply writer_id.
  - apply (writer_compose lo (fun m => buf_wr8 m dst b)
             (fun m => memcpy m (dst + 1) src)).
    + exists [(dst, b)]. split; [repeat constructor; exact Hd|reflexivity].
    + apply IH. lia.
Qed.

Lemma writer_memcpy (lo : Z) (f : list Z -> list Z) (dst : Z) (src : list Z) :
  lo <= dst -> writer lo f -> writer lo (fun m => memcpy (f m) dst src).
Proof.
  intros Hd Hf.
  exact (writer_compose lo f (fun m => memcpy m dst src) Hf
           (writer_memcpy_here lo dst src Hd)).
Qed.

Lemma writer_nop_fill_here (lo : Z) (n : nat) (i : Z) :
  lo <= i -> writer lo (fun m => nop_fill n m i).
Proof.
  revert i. induction n as [|n IH]; intros i Hi; cbn [nop_fill].
  - apply writer_id.
  - apply (writer_compose lo (fun m => ROM_WR16 m i M68K_INST_NOP)
             (fun m => nop_fill n m (i + 2))).
    + apply (writer_wr16 lo (fun m => m)); [exact Hi|apply writer_id].
    + apply IH. lia.
Qed.

Lemma writer_nop_fill (lo : Z) (f : list Z -> list Z) (n : nat) (i : Z) :
  lo <= i -> writer lo f -> writer lo (fun m => nop_fill n (f m) i).
Proof.
  intros Hi Hf.
  exact (writer_compose lo f (fun m => nop_fill n m i) Hf
           (writer_nop_fill_here lo n i Hi)).
Qed.

(** Peels the stores of a patch off, last one first. *)
Ltac writer_steps :=
  repeat first
    [ apply writer_id
    | apply writer_wr16; [lia|]
    | apply writer_wr32; [lia|]
    | apply writer_wr8; [lia|]
    | apply writer_memcpy; [lia|]
    | apply writer_nop_fill; [lia|] ].

Lemma writer_patch_memtop (lo : Z) (f : list Z -> list Z) (ram_size : Z) :
  lo <= 0x132 -> writer lo f ->
  writer lo (fun m => patch_memtop (f m) ram_size).
Proof.
  intros Hlo Hf. unfold patch_memtop. cbv zeta.
  writer_steps; try lia. exact Hf.
Qed.

Lemma writer_patch_screen_tables (lo : Z) (f : list Z -> list Z)
    (w h ss sb p0 p1 p2 : Z) :
  lo <= 0x8a -> writer lo f ->
  writer lo (fun m => patch_screen_tables (f m) w h ss sb p0 p1 p2).
Proof.
  intros Hlo Hf. unfold patch_screen_tables. cbv zeta.
  destruct (128 <=? Z.quot w 8); writer_steps; try lia; exact Hf.
Qed.

(** The patch of a Mac Plus v3 image never takes one of its two
    [return -1], and it is a fixed sequence of byte stores, all of them
    above the version word. *)
Lemma rom_patch_plusv3_writer (cfg : config) (w h m : Z) :
  exists f, writer 4 f
            /\ forall rom, rom_patch_plusv3 cfg rom w h m = (f rom, 0).
Proof.
  unfold rom_patch_plusv3. cbv zeta.
  change (88 <? 70 + 10 + 8) with false.
  change (65 <? 50 + 10) with false.
  cbv iota.
  pose proof (Nat2Z.is_nonneg (length (sony_driver cfg))) as Hlen.
  destruct ((128 * 1024 <? m) && (m <? 512 * 1024));
    destruct (negb (w =? 512) || negb (h =? 342));
    try destruct (128 <=? Z.quot w 8);
    (eexists; split; [|intros rom; reflexivity]);
    try (apply writer_patch_screen_tables; [lia|]);
    unfold ROM_PLUSv3_SONYDRV, sizeof;
    writer_steps;
    try (apply writer_patch_memtop; [lia|]);
    writer_steps.
Qed.

Lemma rom_patch_plusv3_succeeds (cfg : config) (rom : list Z) (w h m : Z) :
  snd (rom_patch_plusv3 cfg rom w h m) = 0.
Proof.
  destruct (rom_patch_plusv3_writer cfg w h m) as (f & _ & E).
  now rewrite E.
Qed.

(** The version word is read from the first four bytes. *)
Lemma rom_get_version_ext (m1 m2 : list Z) :
  (forall i : nat, (i < 4)%nat -> m1 !! i = m2 !! i) ->
  rom_get_version m1 = rom_get_version m2.
Proof.
  intros H.
  assert (R : forall a, 0 <= a < 4 -> buf_rd8 m1 a = buf_rd8 m2 a).
  { intros a Ha. unfold buf_rd8. rewrite H by lia. reflexivity. }
  unfold rom_get_version, buf_rd32, buf_rd16.
  now rewrite !R by lia.
Qed.

(** C7.  For a ROM buffer whose version word (the first four bytes,
    big-endian) is not 0x4D1F8172, [rom_patch1] returns a nonzero
    status and the buffer it leaves is the buffer it was given; the
    host then returns 1 without initialising the core. *)
Theorem rom_patch1_refuses_unknown (cfg : config) (rom : list Z)
    (disp_width disp_height mem_size : Z) :
  rom_get_version rom <> 0x4D1F8172 ->
  snd (rom_patch1 cfg rom disp_width disp_height mem_size) <> 0
  /\ fst (rom_patch1 cfg rom disp_width disp_height mem_size) = rom
  /\ forall ram, unix_main_start cfg rom ram = inl 1.
Proof.
  intros Hv.
  assert (E : forall w h m, rom_patch1 cfg rom w h m = (rom, -1)).
  { intros w h m. unfold rom_patch1. cbv zeta.
    unfold ROM_PLUSv3_VERSION.
    destruct (Z.eqb_spec (rom_get_version rom) 0x4d1f8172);
      [contradiction|reflexivity]. }
  rewrite E. cbn. split; [discriminate|]. split; [reflexivity|].
  intros ram. unfold unix_main_start, rom_patch. now rewrite E.
Qed.

Lemma rom_patch1_refuses_unknown_witness :
  rom_get_version other_rom = 0x4D1EEEE1
  /\ snd (rom_patch1 sample_cfg other_rom 512 342 (128 * 1024)) <> 0
  /\ fst (rom_patch1 sample_cfg other_rom 512 342 (128 * 1024)) = other_rom
  /\ forall ram, unix_main_start sample_cfg other_rom ram = inl 1.
Proof.
  split; [vm_compute; reflexivity|].
  apply (rom_patch1_refuses_unknown sample_cfg other_rom 512 342 (128 * 1024)).
  vm_compute. discriminate.
Defined.

(** C8.  For a ROM buffer with the Mac Plus v3 version word and any
    display width, height and RAM size for which [rom_patch1] succeeds,
    patching the patched buffer again gives the same bytes (and the
    same status) as patching once. *)
Theorem rom_patch1_idempotent (cfg : config) (rom : list Z)
    (disp_width disp_height mem_size : Z) :
  rom_get_version rom = 0x4D1F8172 ->
  snd (rom_patch1 cfg rom disp_width disp_height mem_size) = 0 ->
  rom_patch1 cfg (fst (rom_patch1 cfg rom disp_width disp_height mem_size))
             disp_width disp_height mem_size
  = rom_patch1 cfg rom disp_width disp_height mem_size.
Proof.
  intros Hv _.
  destruct (rom_patch_plusv3_writer cfg disp_width disp_height mem_size)
    as (f & Hf & E).
  assert (E1 : forall m, rom_get_version m = 0x4D1F8172 ->
                         rom_patch1 cfg m disp_width disp_height mem_size
                         = (f m, 0)).
  { intros m Hm. unfold rom_patch1, ROM_PLUSv3_VERSION. cbv zeta.
    rewrite Hm, Z.eqb_refl. apply E. }
  rewrite (E1 rom Hv). cbn [fst].
  rewrite E1.
  - now rewrite (writer_idempotent 4 f rom Hf).
  - rewrite <- Hv. apply rom_get_version_ext. intros i Hi.
    apply (writer_below 4 f rom i Hf). lia.
Qed.

Lemma rom_patch1_idempotent_witness :
  let once := rom_patch1 sample_cfg sample_rom 640 480 (256 * 1024) in
  rom_patch1 sample_cfg (fst once) 640 480 (256 * 1024) = once.
Proof.
  apply (rom_patch1_idempotent sample_cfg sample_rom 640 480 (256 * 1024)).
  - vm_compute. reflexivity.
  - vm_compute. reflexivity.
Defined.

Lemma lookup_memcpy_outside (m : list Z) (dst : Z) (src : list Z) (i : nat) :
  Z.of_nat i < dst \/ dst + sizeof src <= Z.of_nat i ->
  memcpy m dst src !! i = m !! i.
Proof.
  revert m dst. induction src as [|b src IH]; intros m dst H; [reflexivity|].
  unfold sizeof in *. cbn [memcpy length] in *.
  rewrite IH by lia. apply lookup_buf_wr8_ne. lia.
Qed.

Lemma length_memcpy (m : list Z) (dst : Z) (src : list Z) :
  length (memcpy m dst src) = length m.
Proof.
  revert m dst. induction src as [|b src IH]; intros m dst; [reflexivity|].
  cbn [memcpy]. rewrite IH. apply length_buf_wr8.
Qed.

(** C9.  For the 512x342 display and 128 KiB of RAM the Mac Plus v3
    patch succeeds, keeps the size of the buffer, and leaves every byte
    outside the checksum-compare word at 0xD92 and outside the
    replacement driver at 0x17D30 as it was (the driver being at least
    as long as the pointer stored in its last four bytes). *)
Theorem rom_patch_default_frame (cfg : config) (rom : list Z) (i : nat) :
  4 <= sizeof (sony_driver cfg) ->
  ~ in_checksum_word (Z.of_nat i) ->
  ~ in_sony_region cfg (Z.of_nat i) ->
  let patched := rom_patch_plusv3 cfg rom 512 342 (128 * 1024) in
  snd patched = 0
  /\ length (fst patched) = length rom
  /\ fst patched !! i = rom !! i.
Proof.
  intros Hlen Hck Hsony. unfold in_checksum_word, in_sony_region in *.
  unfold rom_patch_plusv3. cbv zeta.
  change ((128 * 1024 <? 128 * 1024) && (128 * 1024 <? 512 * 1024)) with false.
  change (negb (512 =? 512) || negb (342 =? 342)) with false.
  cbv iota. cbn [fst snd].
  unfold ROM_WR32, ROM_WR16, buf_wr32, buf_wr16, ROM_PLUSv3_SONYDRV in *.
  split; [reflexivity|]. split.
  - now rewrite !length_buf_wr8, length_memcpy, !length_buf_wr8.
  - rewrite !lookup_buf_wr8_ne by lia.
    rewrite lookup_memcpy_outside by lia.
    rewrite !lookup_buf_wr8_ne by lia. reflexivity.
Qed.

Lemma rom_patch_default_frame_witness :
  let patched := rom_patch_plusv3 sample_cfg sample_rom 512 342 (128 * 1024) in
  sizeof (sony_driver sample_cfg) = 64
  /\ snd patched = 0
  /\ length (fst patched) = length sample_rom
  /\ fst patched !! 0xd94%nat = sample_rom !! 0xd94%nat.
Proof.
  split; [reflexivity|].
  apply (rom_patch_default_frame sample_cfg sample_rom 0xd94%nat).
  - vm_compute. discriminate.
  - unfold in_checksum_word. lia.
  - unfold in_sony_region, ROM_PLUSv3_SONYDRV. lia.
Defined.

(** * Further properties of the code *)

(** ** What the accessors and callbacks never touch *)

Lemma fixed_refl (s : umac) : fixed s s.
Proof. repeat split. Qed.

Lemma fixed_trans (s1 s2 s3 : umac) : fixed s1 s2 -> fixed s2 s3 -> fixed s1 s3.
Proof.
  unfold fixed. intros (?&?&?&?&?&?&?) (?&?&?&?&?&?&?).
  repeat split; congruence.
Qed.

Lemma grows_refl (s : umac) : grows s s.
Proof. exists []. split; [reflexivity|constructor]. Qed.

Lemma steady_refl (s : umac) : steady s s.
Proof. split; [apply fixed_refl|]. split; [auto|apply grows_refl]. Qed.

Lemma steady_trans (s1 s2 s3 : umac) :
  steady s1 s2 -> steady s2 s3 -> steady s1 s3.
Proof.
  intros (Hf & Ha & l1 & E1 & H1) (Hf' & Ha' & l2 & E2 & H2).
  split; [exact (fixed_trans _ _ _ Hf Hf')|]. split; [auto|].
  exists (l2 ++ l1). split.
  - rewrite E2, E1. apply app_assoc.
  - intros Hs. apply Forall_app. auto.
Qed.

Lemma steady_call (c : ext_call) (s : umac) :
  (audio_inv s -> call_ok c) -> steady s (call c s).
Proof.
  intros Hc. split; [repeat split|]. split; [auto|].
  exists [c]. split; [reflexivity|]. intros Hs. repeat constructor. auto.
Qed.

(** For a function built from assignments and conditionals that makes
    no call and leaves the audio settings alone. *)
Ltac grows_nil := exists []; split; [reflexivity|intros; constructor].

Ltac steady_frame :=
  intros; split_ifs;
  (split; [repeat split|split; [auto|grows_nil]]).

Lemma land_7_range (x : Z) : 0 <= Z.land x 7 <= 7.
Proof.
  pose proof (Z.land_ones x 3) as H. change (Z.ones 3) with 7 in H.
  change (2 ^ 3) with 8 in H. rewrite H by lia.
  pose proof (Z.mod_pos_bound x 8). lia.
Qed.

Lemma land_255_range (x : Z) : 0 <= Z.land x 255 <= 255.
Proof.
  pose proof (Z.land_ones x 8) as H. change (Z.ones 8) with 255 in H.
  change (2 ^ 8) with 256 in H. rewrite H by lia.
  pose proof (Z.mod_pos_bound x 256). lia.
Qed.

Lemma u8_range (x : Z) : 0 <= u8 x < 256.
Proof. unfold u8. apply Z.mod_pos_bound. lia. Qed.

Lemma shiftr_7_range (x : Z) : 0 <= u8 (Z.shiftr (u8 x) 7) <= 1.
Proof.
  pose proof (u8_range x) as Hx.
  rewrite Z.shiftr_div_pow2 by lia. change (2 ^ 7) with 128.
  assert (0 <= u8 x / 128 <= 1) as Hq.
  { split; [apply Z.div_pos; lia|].
    apply Z.lt_succ_r. apply Z.div_lt_upper_bound; lia. }
  assert (u8 (u8 x / 128) = u8 x / 128) as ->; [|exact Hq].
  unfold u8 at 1. apply Z.mod_small. change (2 ^ 8) with 256. lia.
Qed.

Lemma via_ra_changed_steady cfg val s : steady s (via_ra_changed cfg val s).
Proof.
  unfold via_ra_changed, update_overlay_layout. cbv zeta.
  pose proof (land_7_range (u8 val)) as Hv.
  split_ifs;
    (split; [repeat split|]);
    unfold audio_inv; cbn;
    (split; [intros; lia|]);
    first [ grows_nil
          | (eexists (_ :: nil); split; [reflexivity|]; intros;
             unfold audio_inv in *; repeat constructor; cbn; lia) ].
Qed.

Lemma via_rb_changed_steady cfg val s : steady s (via_rb_changed cfg val s).
Proof.
  unfold via_rb_changed. cbv zeta.
  pose proof (shiftr_7_range val) as Hv.
  split_ifs;
    (split; [repeat split|]);
    unfold audio_inv; cbn;
    (split; [intros; lia|]);
    first [ grows_nil
          | (eexists (_ :: nil); split; [reflexivity|]; intros;
             unfold audio_inv in *; repeat constructor; cbn; lia) ].
Qed.

Lemma via_sr_tx_steady data s : steady s (via_sr_tx data s).
Proof. unfold via_sr_tx. steady_frame. Qed.

Lemma kbd_rx_steady data s : steady s (kbd_rx data s).
Proof.
  unfold kbd_rx. cbv zeta.
  destruct (u8 data =? KBD_CMD_GET_MODEL);
    [apply steady_call; intros; exact I|].
  destruct (u8 data =? KBD_CMD_INQUIRY); [|apply steady_refl].
  destruct (kbd_pending_evt s =? -1); [apply steady_call; intros; exact I|].
  apply (steady_trans _ (call (Call_via_sr_rx (kbd_pending_evt s)) s)).
  - apply steady_call. intros; exact I.
  - steady_frame.
Qed.

Lemma kbd_check_work_steady s : steady s (kbd_check_work s).
Proof.
  unfold kbd_check_work. destruct (_ && _); [|apply steady_refl].
  apply (steady_trans _ (kbd_rx (kbd_last_cmd s) s)); [apply kbd_rx_steady|].
  steady_frame.
Qed.

Lemma via_irq_set_steady status s : steady s (via_irq_set status s).
Proof.
  unfold via_irq_set. split_ifs; apply steady_call; intros; cbn; auto.
Qed.

Lemma scc_irq_set_steady status s : steady s (scc_irq_set status s).
Proof.
  unfold scc_irq_set. cbv zeta.
  destruct (truthy status).
  - apply (steady_trans _ (call (Call_m68k_set_virq 2 1) s));
      [apply steady_call; intros; cbn; auto|steady_frame].
  - apply (steady_trans _ (call (Call_m68k_set_virq 2 0) s));
      [apply steady_call; intros; cbn; auto|steady_frame].
Qed.

Lemma iwm_write_steady address data s : steady s (iwm_write address data s).
Proof.
  unfold iwm_write. cbv zeta.
  split; [repeat split; cbn; apply length_buf_wr8|].
  split; [auto|grows_nil].
Qed.

Lemma RAM_WR8_steady a v s : steady s (RAM_WR8 a v s).
Proof. unfold RAM_WR8. steady_frame. Qed.

Lemma RAM_WR16_steady a v s : steady s (RAM_WR16 a v s).
Proof. unfold RAM_WR16. steady_frame. Qed.

Lemma RAM_WR32_steady a v s : steady s (RAM_WR32 a v s).
Proof. unfold RAM_WR32. steady_frame. Qed.

Lemma umac_reset_steady s : steady s (umac_reset s).
Proof.
  unfold umac_reset. cbv zeta.
  eapply steady_trans; [|apply steady_call; intros; exact I]. steady_frame.
Qed.

Section Steady.

(** The functions that may not return, in one build. *)
Variable cfg : config.

Lemma steady_bind {A B : Type} s (m : outcome A) (k : A -> umac -> outcome B) :
  steady s (state_of m) ->
  (forall a s1, steady s1 (state_of (k a s1))) ->
  steady s (state_of (bind m k)).
Proof.
  intros Hm Hk. destruct m as [a s1|s1|s1]; cbn [bind state_of] in *;
    try exact Hm.
  exact (steady_trans _ _ _ Hm (Hk a s1)).
Qed.

Lemma exit_error_steady s : steady s (state_of (exit_error s)).
Proof. unfold exit_error. split_ifs; cbn [state_of]; steady_frame. Qed.

Lemma umac_disc_ejected_steady s :
  steady s (state_of (umac_disc_ejected cfg s)).
Proof.
  unfold umac_disc_ejected. split_ifs; cbn [state_of].
  - apply steady_call. intros; exact I.
  - apply umac_reset_steady.
Qed.

Lemma run_callback_steady c s : steady s (state_of (run_callback cfg c s)).
Proof.
  destruct c; cbn [run_callback state_of];
    first [ apply steady_refl | apply via_ra_changed_steady
          | apply via_rb_changed_steady | apply via_sr_tx_steady
          | apply via_irq_set_steady | apply scc_irq_set_steady
          | apply RAM_WR8_steady | apply umac_disc_ejected_steady ].
Qed.

Lemma run_callbacks_steady cs s : steady s (state_of (run_callbacks cfg cs s)).
Proof.
  revert s. induction cs as [|c cs IH]; intros s; cbn [run_callbacks].
  - apply steady_refl.
  - apply steady_bind; [apply run_callback_steady|intros _ s1; apply IH].
Qed.

Lemma run_callbacks_call_steady cs c s :
  (audio_inv s -> call_ok c) ->
  steady s (state_of (run_callbacks cfg cs (call c s))).
Proof.
  intros Hc. eapply steady_trans; [apply steady_call, Hc|].
  apply run_callbacks_steady.
Qed.

Ltac steady_out :=
  repeat first
    [ apply exit_error_steady
    | apply steady_refl
    | apply iwm_write_steady
    | apply RAM_WR8_steady | apply RAM_WR16_steady | apply RAM_WR32_steady
    | (apply run_callbacks_call_steady; intros; exact I)
    | (apply steady_bind; [|intros ? ?])
    | progress cbn [state_of]
    | match goal with
      | |- context [if ?b then _ else _] => destruct b
      end ].

Lemma cpu_read_byte_steady address react dev s :
  steady s (state_of (cpu_read_byte cfg address react dev s)).
Proof. unfold cpu_read_byte. steady_out. Qed.

Lemma cpu_read_word_steady address s :
  steady s (state_of (cpu_read_word cfg address s)).
Proof. unfold cpu_read_word. steady_out. Qed.

Lemma cpu_read_long_steady address s :
  steady s (state_of (cpu_read_long cfg address s)).
Proof. unfold cpu_read_long. steady_out. Qed.

Lemma cpu_read_word_dasm_steady address s :
  steady s (state_of (cpu_read_word_dasm cfg address s)).
Proof. unfold cpu_read_word_dasm. steady_out. Qed.

Lemma cpu_write_byte_steady address value react r s :
  steady s (state_of (cpu_write_byte cfg address value react r s)).
Proof.
  unfold cpu_write_byte. cbv zeta.
  destruct (IS_RAM cfg (overlay s) address).
  { cbn [state_of].
    apply (steady_trans _ (RAM_WR8 (CLAMP_RAM_ADDR cfg address) value s));
      [apply RAM_WR8_steady|].
    destruct (_ && _); [apply steady_call; intros; exact I|apply steady_refl]. }
  steady_out.
Qed.

Lemma cpu_write_word_steady address value s :
  steady s (state_of (cpu_write_word cfg address value s)).
Proof. unfold cpu_write_word. steady_out. Qed.

Lemma cpu_write_long_steady address value s :
  steady s (state_of (cpu_write_long cfg address value s)).
Proof. unfold cpu_write_long. steady_out. Qed.

Lemma make_hex_steady n pc s : steady s (state_of (make_hex cfg n pc s)).
Proof.
  revert pc s. induction n as [|n IH]; intros pc s; cbn [make_hex].
  - apply steady_refl.
  - apply steady_bind; [apply cpu_read_word_dasm_steady|intros _ s1; apply IH].
Qed.

Lemma dasm_reads_steady addrs s : steady s (state_of (dasm_reads cfg addrs s)).
Proof.
  revert s. induction addrs as [|a addrs IH]; intros s; cbn [dasm_reads].
  - apply steady_refl.
  - apply steady_bind; [apply cpu_read_word_dasm_steady|intros _ s1; apply IH].
Qed.

Lemma cpu_instr_callback_steady pc addrs instr_size s :
  steady s (state_of (cpu_instr_callback cfg pc addrs instr_size s)).
Proof.
  unfold cpu_instr_callback. destruct (negb _); [apply steady_refl|].
  apply steady_bind; [apply dasm_reads_steady|intros _ s1; apply make_hex_steady].
Qed.

Lemma run_bus_op_steady op s : steady s (state_of (run_bus_op cfg op s)).
Proof.
  destruct op; cbn [run_bus_op]; unfold discard, cpu_pulse_reset, cpu_irq_ack;
    first [ apply steady_refl
          | apply cpu_write_byte_steady | apply cpu_write_word_steady
          | apply cpu_write_long_steady | apply cpu_instr_callback_steady
          | (apply steady_bind;
             [ first [ apply cpu_read_byte_steady | apply cpu_read_word_steady
                     | apply cpu_read_long_steady ]
             | intros; apply steady_refl ]) ].
Qed.

Lemma m68k_execute_steady ops s : steady s (state_of (m68k_execute cfg ops s)).
Proof.
  revert s. induction ops as [|op ops IH]; intros s; cbn [m68k_execute].
  - apply steady_refl.
  - apply steady_bind; [apply run_bus_op_steady|intros _ s1; apply IH].
Qed.

End Steady.

(** ** The main loop: what it keeps and how it keeps time *)

Lemma steady_loosen (s s' : umac) : steady s s' -> steady_but_clock s s'.
Proof.
  intros ((Hr & _ & _ & Hd & Hp & Hh & Hi) & Ha & Hg).
  unfold steady_but_clock. tauto.
Qed.

Lemma steady_but_clock_trans (s1 s2 s3 : umac) :
  steady_but_clock s1 s2 -> steady_but_clock s2 s3 -> steady_but_clock s1 s3.
Proof.
  intros (Hr & Hd & Hp & Hh & Hi & Ha & l1 & E1 & H1)
         (Hr' & Hd' & Hp' & Hh' & Hi' & Ha' & l2 & E2 & H2).
  do 6 (split; [first [congruence|tauto]|]).
  exists (l2 ++ l1). split.
  - rewrite E2, E1. apply app_assoc.
  - intros Hs. apply Forall_app. auto.
Qed.

Lemma account_cycles_steady used s :
  steady_but_clock s (account_cycles used s).
Proof.
  unfold account_cycles. cbv zeta.
  do 5 (split; [reflexivity|]). split; [tauto|].
  exists []. split; [reflexivity|constructor].
Qed.

Lemma entering_steady run s : steady s (entering run s).
Proof.
  unfold entering.
  eapply steady_trans; apply steady_call; intros; exact I.
Qed.

Section LoopClock.

Variable cfg : config.

(** After [m68k_execute] has returned the pass accounts its cycles and
    polls the devices, which leave the clock alone. *)
Lemma umac_loop_tail_steady run s :
  steady_but_clock s (state_of (umac_loop_tail cfg run s))
  /\ match umac_loop_tail cfg run s with
     | Ret _ s' => clock_after (used_cycles run) s s'
     | _ => True
     end.
Proof.
  unfold umac_loop_tail. cbv zeta.
  set (s0 := account_cycles (used_cycles run) s).
  pose proof (account_cycles_steady (used_cycles run) s) as H0. fold s0 in H0.
  pose proof (run_callbacks_call_steady cfg (tick run)
                (Call_via_tick (used_cycles run)) s0 (fun _ => I)) as H1.
  destruct (run_callbacks cfg (tick run) _) as [[] s1|s1|s1];
    cbn [bind state_of] in *.
  - pose proof (kbd_check_work_steady s1) as H2.
    split.
    + eapply steady_but_clock_trans; [exact H0|].
      apply steady_loosen. eapply steady_trans; eassumption.
    + destruct (steady_trans _ _ _ H1 H2) as ((_ & Hc & Ht & _) & _).
      unfold clock_after. rewrite Hc, Ht. split; reflexivity.
  - split; [|exact I].
    eapply steady_but_clock_trans; [exact H0|apply steady_loosen, H1].
  - split; [|exact I].
    eapply steady_but_clock_trans; [exact H0|apply steady_loosen, H1].
Qed.

Lemma umac_loop_steady runs s m :
  umac_loop cfg runs s = Some m ->
  steady_but_clock s (state_of m)
  /\ match m with
     | Ret _ s' => exists run, In run runs
                               /\ clock_after (used_cycles run) s s'
     | _ => True
     end.
Proof.
  revert s. induction runs as [|run runs IH]; intros s; [discriminate|].
  cbn [umac_loop]. cbv zeta. fold (entering run s).
  pose proof (entering_steady run s) as He.
  pose proof (m68k_execute_steady cfg (ops run) (entering run s)) as Hx.
  pose proof (steady_trans _ _ _ He Hx) as Hs.
  destruct (m68k_execute cfg (ops run) (entering run s)) as [[] s1|s1|s1];
    cbn [state_of] in *.
  - intros [= <-].
    destruct (umac_loop_tail_steady run s1) as [Ht Hc]. split.
    + eapply steady_but_clock_trans; [apply steady_loosen, Hs|exact Ht].
    + destruct (umac_loop_tail cfg run s1) as [r s2|s2|s2]; [|exact I|exact I].
      exists run. split; [now left|].
      destruct Hs as ((_ & Hgc & _) & _).
      unfold clock_after in *. now rewrite <- Hgc.
  - intros Hm. destruct (IH s1 Hm) as [Ht Hc]. split.
    + eapply steady_but_clock_trans; [apply steady_loosen, Hs|exact Ht].
    + destruct m as [r s2|s2|s2]; [|exact I|exact I].
      destruct Hc as (run' & Hin & Hc). exists run'. split; [now right|].
      destruct Hs as ((_ & Hgc & _) & _).
      unfold clock_after in *. now rewrite <- Hgc.
  - intros [= <-]. split; [apply steady_loosen, Hs|exact I].
Qed.

Lemma umac_loop_unfold (run : cpu_run) (runs : list cpu_run) (s : umac) :
  umac_loop cfg (run :: runs) s
  = match m68k_execute cfg (ops run) (entering run s) with
    | Longjmp s => umac_loop cfg runs s
    | Exit s => Some (Exit s)
    | Ret _ s => Some (umac_loop_tail cfg run s)
    end.
Proof. reflexivity. Qed.

(** A pass that returns accounts its own cycles. *)
Lemma returning_pass_clock (run : cpu_run) (s0 s1 s' : umac) (r : Z) :
  global_cycles s1 = global_cycles s0 ->
  umac_loop_tail cfg run s1 = Ret r s' ->
  clock_after (used_cycles run) s0 s'.
Proof.
  intros Hgc Ht. destruct (umac_loop_tail_steady run s1) as [_ Hc].
  rewrite Ht in Hc. unfold clock_after in *. now rewrite <- Hgc.
Qed.

(** X1.  A call of [umac_loop] that returns has advanced the cycle
    counter, modulo 2^64, by the cycles of exactly one pass through its
    body, the pass that reached the end: the first pass if the CPU came
    back from it, and otherwise the second (the first was abandoned by
    the [longjmp] of [exit_error], and its cycles are not accounted).
    The microsecond clock is an eighth of the counter. *)
Theorem umac_loop_accounts_cycles (run1 : cpu_run) (runs : list cpu_run)
    (s s' : umac) (r : Z) :
  umac_loop cfg (run1 :: runs) s = Some (Ret r s') ->
  global_cycles s'
  = u64 (global_cycles s + accounted_cycles cfg run1 runs s)
  /\ global_time_us s' = global_cycles s' / 8.
Proof.
  rewrite umac_loop_unfold. unfold accounted_cycles.
  pose proof (entering_steady run1 s) as He.
  pose proof (m68k_execute_steady cfg (ops run1) (entering run1 s)) as Hx.
  destruct (steady_trans _ _ _ He Hx) as ((_ & Hgc1 & _) & _).
  pose proof (m68k_execute_ok cfg (ops run1) (entering run1 s))
    as (_ & _ & Herr & _).
  destruct (m68k_execute cfg (ops run1) (entering run1 s)) as [[] s1|s1|s1];
    cbn [state_of] in Hgc1.
  - intros [= Ht]. exact (returning_pass_clock run1 s s1 s' r Hgc1 Ht).
  - destruct runs as [|run2 runs]; [discriminate|].
    rewrite umac_loop_unfold.
    destruct Herr as (_ & _ & Hg1).
    pose proof (entering_steady run2 s1) as He2.
    pose proof (m68k_execute_steady cfg (ops run2) (entering run2 s1)) as Hx2.
    destruct (steady_trans _ _ _ He2 Hx2) as ((_ & Hgc2 & _) & _).
    pose proof (m68k_execute_ok cfg (ops run2) (entering run2 s1))
      as (_ & _ & Herr2 & _).
    destruct (m68k_execute cfg (ops run2) (entering run2 s1))
      as [[] s2|s2|s2]; cbn [state_of] in Hgc2.
    + intros [= Ht].
      apply (returning_pass_clock run2 s s2 s' r); [congruence|exact Ht].
    + destruct Herr2 as (Hg0 & _). cbn in Hg0. lia.
    + discriminate.
  - discriminate.
Qed.

(** X2.  While the CPU runs, the seven-level interrupt controller is
    out of the picture: a call of [umac_loop] leaves its pending mask
    and its level as they were and never calls [m68k_set_irq]; the VIA
    and the SCC reach the CPU through [m68k_set_virq], on line 1 or 2
    and with status 0 or 1.  The audio settings handed to
    [umac_audio_cfg] are a volume of 0 to 7 and a sound-disable bit of
    0 or 1, and they stay in that range (given that they start in
    it). *)
Theorem umac_loop_interrupt_calls (runs : list cpu_run) (s : umac)
    (m : outcome Z) :
  audio_inv s ->
  umac_loop cfg runs s = Some m ->
  g_int_controller_pending (state_of m) = g_int_controller_pending s
  /\ g_int_controller_highest_int (state_of m)
     = g_int_controller_highest_int s
  /\ audio_inv (state_of m)
  /\ exists l, calls (state_of m) = l ++ calls s /\ Forall call_ok l.
Proof.
  intros Ha H.
  destruct (umac_loop_steady runs s m H)
    as [(_ & _ & Hp & Hh & _ & Ha' & l & El & Hl) _].
  do 3 (split; [auto|]). exists l. auto.
Qed.

Lemma host_step_rom h s m :
  no_init [h] = true -> host_step cfg h s = Some m ->
  rom (state_of m) = rom s.
Proof.
  destruct h as [rb ob|en|sc dn|dx dy bt| | |v|v|react|runs];
    cbn [no_init host_step]; try discriminate; intros _.
  - intros [= <-]. reflexivity.
  - intros [= <-]. reflexivity.
  - intros [= <-]. unfold umac_mouse, RAM_WR16, RAM_WR8. cbv zeta.
    split_ifs; reflexivity.
  - intros [= <-]. reflexivity.
  - intros [= <-].
    pose proof (umac_disc_ejected_steady cfg s) as ((Hr & _) & _).
    destruct (umac_disc_ejected cfg s); exact Hr.
  - intros [= <-]. unfold int_controller_set. cbv zeta. split_ifs; reflexivity.
  - intros [= <-]. reflexivity.
  - intros [= <-].
    pose proof (run_callbacks_steady cfg react s) as ((Hr & _) & _).
    destruct (run_callbacks cfg react s); exact Hr.
  - destruct (umac_loop cfg runs s) as [m'|] eqn:E; [|discriminate].
    intros [= <-].
    destruct (umac_loop_steady runs s m' E) as [(Hr & _) _].
    destruct m'; exact Hr.
Qed.

Lemma no_init_cons h hs :
  no_init (h :: hs) = true -> no_init [h] = true /\ no_init hs = true.
Proof.
  destruct h; cbn; intros H; try discriminate; (split; [reflexivity|exact H]).
Qed.

(** X3.  The ROM buffer is read-only to the core: over a whole session
    of host calls after [umac_init] (key and mouse events, resets, disc
    ejects, interrupt controller calls, device callbacks, calls of
    [umac_loop] with whatever the CPU reads and writes) the ROM holds
    the bytes it was handed over with. *)
Theorem rom_is_read_only (hs : list host_call) (s : umac)
    (m : outcome (list Z)) :
  no_init hs = true ->
  host_run cfg hs s = Some m ->
  rom (state_of m) = rom s.
Proof.
  revert s m. induction hs as [|h hs IH]; intros s m Hn; cbn [host_run].
  - intros [= <-]. reflexivity.
  - apply no_init_cons in Hn as [Hh Hn].
    destruct (host_step cfg h s) as [m1|] eqn:E1; [|discriminate].
    pose proof (host_step_rom h s m1 Hh E1) as H1.
    destruct m1 as [r s1|s1|s1]; cbn [state_of] in H1.
    + destruct (host_run cfg hs s1) as [m2|] eqn:E2; [|discriminate].
      pose proof (IH s1 m2 Hn E2) as H2.
      destruct m2 as [rs s2|s2|s2]; intros [= <-]; cbn [state_of] in *;
        congruence.
    + intros [= <-]. exact H1.
    + intros [= <-]. exact H1.
Qed.

End LoopClock.

Lemma umac_loop_accounts_cycles_witness :
  accounted_cycles sample_cfg abandoned_pass [idle_pass 40000] small_state
  = 40000
  /\ global_cycles after_abandoned_pass
     = u64 (global_cycles small_state
            + accounted_cycles sample_cfg abandoned_pass [idle_pass 40000]
                small_state)
  /\ global_time_us after_abandoned_pass
     = global_cycles after_abandoned_pass / 8.
Proof.
  split; [reflexivity|].
  apply (umac_loop_accounts_cycles sample_cfg abandoned_pass
           [idle_pass 40000] small_state after_abandoned_pass 1).
  vm_compute. reflexivity.
Defined.

Lemma umac_loop_interrupt_calls_witness :
  g_int_controller_pending (state_of via_pass_outcome)
    = g_int_controller_pending small_state
  /\ g_int_controller_highest_int (state_of via_pass_outcome)
     = g_int_controller_highest_int small_state
  /\ audio_inv (state_of via_pass_outcome)
  /\ exists l, calls (state_of via_pass_outcome) = l ++ calls small_state
               /\ Forall call_ok l.
Proof.
  apply (umac_loop_interrupt_calls sample_audio_cfg [via_pass] small_state
           via_pass_outcome).
  - vm_compute. split; split; discriminate.
  - vm_compute. reflexivity.
Defined.

Lemma rom_is_read_only_witness :
  rom (state_of sample_session_outcome) = rom small_state.
Proof.
  apply (rom_is_read_only sample_cfg sample_session small_state
           sample_session_outcome).
  - reflexivity.
  - vm_compute. reflexivity.
Defined.

(** ** Memory accessors *)

Lemma land_15_range (x : Z) : 0 <= Z.land x 15 <= 15.
Proof.
  pose proof (Z.land_ones x 4) as H. change (Z.ones 4) with 15 in H.
  change (2 ^ 4) with 16 in H. rewrite H by lia.
  pose proof (Z.mod_pos_bound x 16). lia.
Qed.

(** X4.  The IWM is a bank of sixteen byte registers selected by bits
    12 to 9 of the address.  A read of register 8 yields 0xff and a read
    of register 14 yields 0x1f, whatever was written; any other
    register reads back the low byte of the last value written to it,
    and a write to one register leaves the others as they were. *)
Theorem iwm_read_after_write (a a' d : Z) (s : umac) :
  length (iwm_regs s) = 16%nat ->
  iwm_read a' (iwm_write a d s)
  = if iwm_reg a' =? 8 then 0xff
    else if iwm_reg a' =? 14 then 0x1f
    else if iwm_reg a' =? iwm_reg a then Z.land d 255
    else iwm_read a' s.
Proof.
  intros Hlen. unfold iwm_read, iwm_write. cbv zeta.
  cbn [iwm_regs set_iwm_regs]. fold (iwm_reg a) (iwm_reg a').
  pose proof (land_15_range (Z.shiftr a 9)) as Ha. fold (iwm_reg a) in Ha.
  destruct (iwm_reg a' =? 8); [reflexivity|].
  destruct (iwm_reg a' =? 14); [reflexivity|].
  destruct (Z.eqb_spec (iwm_reg a') (iwm_reg a)) as [->|Hne].
  - apply buf_rd8_wr8_same. lia.
  - apply buf_rd8_wr8_other. congruence.
Qed.

Lemma iwm_read_after_write_witness :
  iwm_read 0xdfe1ff (iwm_write 0xdfe1ff 0x155 sample_state) = 0x55
  /\ iwm_read 0xdff1ff (iwm_write 0xdff1ff 0x155 sample_state) = 0xff.
Proof.
  split.
  - apply (iwm_read_after_write 0xdfe1ff 0xdfe1ff 0x155 sample_state).
    reflexivity.
  - apply (iwm_read_after_write 0xdff1ff 0xdff1ff 0x155 sample_state).
    reflexivity.
Defined.

Section Accessors.

Variable cfg : config.

Lemma wide_read_unmapped (long : bool) (address : Z) (s : umac) :
  unmapped cfg s address ->
  run_bus_op cfg (wide_read long address) s
  = bind (exit_error s) (fun _ s => Ret tt s).
Proof.
  intros (Hram & Hrom & Htest).
  destruct long; cbn [wide_read run_bus_op];
    unfold discard, cpu_read_long, cpu_read_word;
    rewrite Hram, Hrom, Htest; now destruct (exit_error s).
Qed.

(** X5.  A word or long read from an address that is neither RAM nor
    ROM nor the test-software window is fatal the first time: the
    accessor sets the done flag and unwinds to the entry of [umac_loop],
    which starts its body again in that state (the rest of the
    abandoned pass is not run and its cycles are not accounted) and
    then returns 1.  Once [exit_error] has run, the same read returns to
    the CPU with the core unchanged. *)
Theorem unmapped_read_is_fatal (long : bool) (address : Z)
    (run : cpu_run) (runs : list cpu_run) (pre post : list bus_op)
    (s s1 : umac) :
  unmapped cfg s1 address ->
  ops run = pre ++ wide_read long address :: post ->
  m68k_execute cfg pre (entering run s) = Ret tt s1 ->
  (guard_val s1 = 0 ->
   run_bus_op cfg (wide_read long address) s1 = Longjmp (faulted s1)
   /\ umac_loop cfg (run :: runs) s = umac_loop cfg runs (faulted s1)
   /\ (runs <> [] ->
       exists m, umac_loop cfg (run :: runs) s = Some m
                 /\ reports_done cfg m))
  /\ (guard_val s1 <> 0 ->
      run_bus_op cfg (wide_read long address) s1 = Ret tt s1).
Proof.
  intros Hun Hops Hpre.
  pose proof (wide_read_unmapped long address s1 Hun) as Hw.
  unfold exit_error, truthy in Hw. split.
  - intros Hg. rewrite Hg in Hw. cbn in Hw.
    split; [exact Hw|].
    assert (Hl : umac_loop cfg (run :: runs) s
                 = umac_loop cfg runs (faulted s1)).
    { cbn [umac_loop]. cbv zeta. fold (entering run s).
      rewrite Hops, m68k_execute_app, Hpre. cbn [bind m68k_execute].
      rewrite Hw. reflexivity. }
    split; [exact Hl|].
    intros Hruns. destruct runs as [|run' runs]; [contradiction|].
    rewrite Hl.
    destruct (umac_loop_returns_guarded cfg run' runs (faulted s1))
      as [m Hm]; [cbn; lia|].
    exists m. split; [exact Hm|].
    apply (umac_loop_reports_done cfg (run' :: runs) (faulted s1) m);
      [reflexivity|exact Hm].
  - intros Hg. rewrite Hw.
    destruct (Z.eqb_spec (guard_val s1) 0); [contradiction|reflexivity].
Qed.

Lemma safe_op_returns (op : bus_op) (s s' : umac) :
  may_fault op = false -> run_bus_op cfg op s <> Longjmp s'.
Proof.
  destruct op as [a|a react dev|a|a|a v react r|a v|a v| |l|pc addrs n];
    cbn [may_fault run_bus_op]; try discriminate; intros Hsafe.
  - unfold discard, cpu_read_byte.
    repeat match goal with
           | |- context [if ?b then _ else _] => destruct b
           end; cbn [bind]; try discriminate.
    + pose proof (run_callbacks_no_longjmp cfg react
                    (call (Call_via_read a) s)) as Hn.
      destruct (run_callbacks cfg react _) as [[] s1|s1|s1]; cbn [bind];
        [discriminate|intros [= <-]; now apply (Hn s1)|discriminate].
    + pose proof (run_callbacks_no_longjmp cfg react
                    (call (Call_scc_read a) s)) as Hn.
      destruct (run_callbacks cfg react _) as [[] s1|s1|s1]; cbn [bind];
        [discriminate|intros [= <-]; now apply (Hn s1)|discriminate].
  - unfold cpu_write_byte. cbv zeta. rewrite Hsafe.
    repeat match goal with
           | |- context [if ?b then _ else _] => destruct b
           end; try discriminate; try apply run_callbacks_no_longjmp.
    pose proof (run_callbacks_no_longjmp cfg react
                  (call (Call_disc_pv_hook v) s)) as Hn.
    destruct (run_callbacks cfg react _) as [[] s1|s1|s1]; cbn [bind];
      [discriminate|intros [= <-]; now apply (Hn s1)|discriminate].
  - unfold cpu_write_word. destruct (IS_RAM _ _ _); discriminate.
  - unfold cpu_write_long. destruct (IS_RAM _ _ _); discriminate.
Qed.

(** X6.  Only four kinds of access can end a pass: a word read, a long
    read, the instruction trace, and a byte write for which the disc
    service reports a failure.  A run of the CPU that makes none of
    them (byte reads, words and longs written anywhere, byte writes
    with a successful or no disc service, interrupt acknowledges) comes
    back to [umac_loop] with the done flag and the guard of
    [exit_error] as they were; only the [exit] of a [SIM] build on a
    disc eject can stop it. *)
Theorem faults_need_a_faulting_access (ops : list bus_op) (s : umac) :
  forallb (fun op => negb (may_fault op)) ops = true ->
  match m68k_execute cfg ops s with
  | Ret _ s' => sim_done s' = sim_done s /\ guard_val s' = guard_val s
  | Longjmp _ => False
  | Exit s' => SIM cfg = true /\ sim_done s' = sim_done s
  end.
Proof.
  intros Hsafe.
  assert (Hn : forall s', m68k_execute cfg ops s <> Longjmp s').
  { revert s. induction ops as [|op ops IH]; intros s s';
      cbn [m68k_execute forallb] in *; [discriminate|].
    apply andb_prop in Hsafe as [Hop Hops].
    apply negb_true_iff in Hop.
    pose proof (safe_op_returns op s) as Hs.
    destruct (run_bus_op cfg op s) as [[] s1|s1|s1]; cbn [bind].
    - now apply IH.
    - now destruct (Hs s1 Hop).
    - discriminate. }
  pose proof (m68k_execute_ok cfg ops s) as (_ & _ & He & Hx).
  destruct (m68k_execute cfg ops s) as [[] s1|s1|s1]; cbn in He, Hx.
  - exact He.
  - now apply (Hn s1).
  - split; [exact Hx|apply He].
Qed.

Lemma cpu_read_word_dasm_unmapped (address : Z) (s : umac) :
  guard_val s = 0 ->
  IS_RAM cfg (overlay s) address = false ->
  IS_ROM cfg (overlay s) address = false ->
  cpu_read_word_dasm cfg address s = Longjmp (faulted s).
Proof.
  intros Hg Hram Hrom. unfold cpu_read_word_dasm, exit_error, truthy.
  now rewrite Hram, Hrom, Hg.
Qed.

(** The disassembler's reads change nothing unless one of them is
    fatal. *)
Lemma dasm_reads_pure (addrs : list Z) (s : umac) :
  guard_val s = 0 ->
  dasm_reads cfg addrs s = Ret tt s
  \/ dasm_reads cfg addrs s = Longjmp (faulted s).
Proof.
  intros Hg. induction addrs as [|a addrs IH]; [now left|].
  cbn [dasm_reads]. unfold cpu_read_word_dasm, exit_error, truthy.
  rewrite Hg. cbn [Z.eqb negb].
  destruct (IS_RAM cfg (overlay s) a); [exact IH|].
  destruct (IS_ROM cfg (overlay s) a); [exact IH|].
  now right.
Qed.

(** X7.  The instruction trace makes the core stricter.  With the
    option off [cpu_instr_callback] returns at once.  With it on, an
    instruction at an address that is neither RAM nor ROM is fatal,
    since the bytes to print are fetched with [cpu_read_word_dasm],
    which stops where [cpu_read_word] still answers 0: in the
    test-software window. *)
Theorem instruction_trace_is_stricter (pc instr_size : Z) (addrs : list Z)
    (s : umac) :
  guard_val s = 0 ->
  0 < instr_size ->
  IS_RAM cfg (overlay s) pc = false ->
  IS_ROM cfg (overlay s) pc = false ->
  cpu_instr_callback cfg pc addrs instr_size s
  = (if truthy (disassemble s) then Longjmp (faulted s) else Ret tt s)
  /\ (IS_TESTSW cfg pc = true -> cpu_read_word cfg pc s = Ret 0 s).
Proof.
  intros Hg Hsize Hram Hrom. split.
  - unfold cpu_instr_callback.
    destruct (truthy (disassemble s)); cbn [negb]; [|reflexivity].
    destruct (dasm_reads_pure addrs s Hg) as [-> | ->]; [|reflexivity].
    cbn [bind].
    assert (Hn : exists n, Z.to_nat ((instr_size + 1) / 2) = S n).
    { exists (Nat.pred (Z.to_nat ((instr_size + 1) / 2))).
      assert (1 <= (instr_size + 1) / 2)
        by (apply Z.div_le_lower_bound; lia).
      lia. }
    destruct Hn as [n ->]. cbn [make_hex].
    now rewrite (cpu_read_word_dasm_unmapped pc s Hg Hram Hrom).
  - intros Htest. unfold cpu_read_word. now rewrite Hram, Hrom, Htest.
Qed.

Lemma be32_bytes (v : Z) :
  Z.lor (Z.shiftl (u16 (Z.shiftr v 16)) 16) (u16 v) = u32 v.
Proof.
  unfold u16, u32. apply Z.bits_inj'. intros n Hn.
  rewrite Z.lor_spec, !Z.testbit_mod_pow2 by lia.
  destruct (Z.ltb_spec n 16) as [Hlt|Hge].
  - rewrite Z.shiftl_spec_low by lia. cbn [orb].
    destruct (Z.ltb_spec n 32); [reflexivity|lia].
  - rewrite Z.shiftl_spec by lia. rewrite Z.testbit_mod_pow2 by lia.
    rewrite Z.shiftr_spec by lia. replace (n - 16 + 16) with n by lia.
    rewrite orb_false_r.
    destruct (Z.ltb_spec (n - 16) 16), (Z.ltb_spec n 32);
      try reflexivity; lia.
Qed.

Lemma buf_wr32_as_wr16 (m : list Z) (a v : Z) :
  buf_wr32 m a v = buf_wr16 (buf_wr16 m a (Z.shiftr v 16)) (a + 2) v.
Proof.
  unfold buf_wr32, buf_wr16.
  rewrite Z.shiftr_shiftr by lia. cbn [Z.add Pos.add Pos.succ].
  replace (a + 2 + 1) with (a + 3) by lia. reflexivity.
Qed.

Lemma buf_rd32_wr32_same (m : list Z) (a v : Z) :
  0 <= a -> a + 3 < Z.of_nat (length m) ->
  buf_rd32 (buf_wr32 m a v) a = u32 v.
Proof.
  intros Ha Hb. rewrite buf_wr32_as_wr16. unfold buf_rd32.
  rewrite buf_rd16_wr16_other by lia.
  rewrite !buf_rd16_wr16_same by (rewrite ?length_buf_wr16; lia).
  apply be32_bytes.
Qed.

(** X8.  What the CPU stores into RAM it reads back, in each of the
    three access sizes, through every address that is decoded as RAM
    and clamps to the same offset (the RAM mirrors): a byte comes back
    as its low 8 bits, a word as its low 16 bits, a long as its low 32
    bits. *)
Theorem ram_write_read_round_trip (a a' v : Z) (s : umac) :
  IS_RAM cfg (overlay s) a = true ->
  IS_RAM cfg (overlay s) a' = true ->
  CLAMP_RAM_ADDR cfg a' = CLAMP_RAM_ADDR cfg a ->
  0 <= CLAMP_RAM_ADDR cfg a ->
  CLAMP_RAM_ADDR cfg a + 3 < Z.of_nat (length (ram s)) ->
  (forall react dev r,
      exists s1, cpu_write_byte cfg a v react r s = Ret tt s1
                 /\ cpu_read_byte cfg a' react dev s1 = Ret (u8 v) s1)
  /\ (exists s1, cpu_write_word cfg a v s = Ret tt s1
                 /\ cpu_read_word cfg a' s1 = Ret (u16 v) s1)
  /\ (exists s1, cpu_write_long cfg a v s = Ret tt s1
                 /\ cpu_read_long cfg a' s1 = Ret (u32 v) s1).
Proof.
  intros Hram Hram' Hclamp Hlo Hhi.
  split; [|split].
  - intros react dev r. unfold cpu_write_byte. rewrite Hram. cbv zeta.
    eexists. split; [reflexivity|].
    unfold cpu_read_byte.
    assert (Ho : forall s0,
               overlay (if ENABLE_AUDIO cfg
                           && IS_RAM_AUDIO_TRAP cfg (CLAMP_RAM_ADDR cfg a)
                        then call Call_umac_audio_trap s0 else s0)
               = overlay s0) by (intros; now destruct (_ && _)).
    assert (Hr : forall s0,
               ram (if ENABLE_AUDIO cfg
                       && IS_RAM_AUDIO_TRAP cfg (CLAMP_RAM_ADDR cfg a)
                    then call Call_umac_audio_trap s0 else s0)
               = ram s0) by (intros; now destruct (_ && _)).
    rewrite Ho. cbn [RAM_WR8 overlay set_ram]. rewrite Hram'.
    unfold RAM_RD8. rewrite Hr, Hclamp. cbn [RAM_WR8 ram set_ram].
    rewrite buf_rd8_wr8_same by lia.
    unfold u8. change 255 with (Z.ones 8). now rewrite Z.land_ones by lia.
  - unfold cpu_write_word. rewrite Hram.
    eexists. split; [reflexivity|].
    unfold cpu_read_word. cbn [RAM_WR16 overlay set_ram]. rewrite Hram'.
    unfold RAM_RD16. rewrite Hclamp. cbn [RAM_WR16 ram set_ram].
    now rewrite buf_rd16_wr16_same by lia.
  - unfold cpu_write_long. rewrite Hram.
    eexists. split; [reflexivity|].
    unfold cpu_read_long. cbn [RAM_WR32 overlay set_ram]. rewrite Hram'.
    unfold RAM_RD32. rewrite Hclamp. cbn [RAM_WR32 ram set_ram].
    now rewrite buf_rd32_wr32_same by lia.
Qed.

End Accessors.

Lemma unmapped_read_is_fatal_witness :
  run_bus_op sample_cfg (Op_read_word 0x500000) before_stray_read
  = Longjmp (faulted before_stray_read)
  /\ umac_loop sample_cfg [stray_read_pass; idle_pass 40000] small_state
     = umac_loop sample_cfg [idle_pass 40000] (faulted before_stray_read)
  /\ exists m, umac_loop sample_cfg [stray_read_pass; idle_pass 40000]
                 small_state = Some m
               /\ reports_done sample_cfg m.
Proof.
  destruct (unmapped_read_is_fatal sample_cfg false 0x500000
              stray_read_pass [idle_pass 40000]
              [Op_write_byte 0x600010 0x55 [] 0]
              [Op_write_byte 0x600011 0x66 [] 0]
              small_state before_stray_read) as [Hfatal _].
  - split; [|split]; vm_compute; reflexivity.
  - reflexivity.
  - vm_compute. reflexivity.
  - destruct Hfatal as (H1 & H2 & H3); [vm_compute; reflexivity|].
    split; [exact H1|]. split; [exact H2|]. apply H3. discriminate.
Defined.

Lemma faults_need_a_faulting_access_witness :
  match m68k_execute sample_cfg harmless_ops small_state with
  | Ret _ s' => sim_done s' = sim_done small_state
                /\ guard_val s' = guard_val small_state
  | Longjmp _ => False
  | Exit s' => SIM sample_cfg = true /\ sim_done s' = sim_done small_state
  end.
Proof.
  apply (faults_need_a_faulting_access sample_cfg harmless_ops small_state).
  reflexivity.
Defined.

Lemma instruction_trace_is_stricter_witness :
  let s := umac_opt_disassemble 1 small_state in
  cpu_instr_callback sample_cfg 0xf00000 [] 2 s
  = (if truthy (disassemble s) then Longjmp (faulted s) else Ret tt s)
  /\ (IS_TESTSW sample_cfg 0xf00000 = true ->
      cpu_read_word sample_cfg 0xf00000 s = Ret 0 s).
Proof.
  apply (instruction_trace_is_stricter sample_cfg 0xf00000 2 []
           (umac_opt_disassemble 1 small_state));
    [reflexivity|lia|reflexivity|reflexivity].
Defined.

Lemma ram_write_read_round_trip_witness :
  (forall react dev r,
      exists s1, cpu_write_byte sample_cfg 0x600010 0x1234 react r small_state
                 = Ret tt s1
                 /\ cpu_read_byte sample_cfg 0x620010 react dev s1
                    = Ret (u8 0x1234) s1)
  /\ (exists s1, cpu_write_word sample_cfg 0x600010 0x1234 small_state
                 = Ret tt s1
                 /\ cpu_read_word sample_cfg 0x620010 s1 = Ret (u16 0x1234) s1)
  /\ (exists s1, cpu_write_long sample_cfg 0x600010 0x1234 small_state
                 = Ret tt s1
                 /\ cpu_read_long sample_cfg 0x620010 s1 = Ret (u32 0x1234) s1).
Proof.
  apply (ram_write_read_round_trip sample_cfg 0x600010 0x620010 0x1234
           small_state);
    [reflexivity|reflexivity|reflexivity|vm_compute; discriminate
    |vm_compute; reflexivity].
Defined.

(** ** Devices behind the VIA *)

Lemma u8_land_7 (x : Z) : u8 (Z.land x 7) = Z.land x 7.
Proof.
  pose proof (land_7_range x). unfold u8. apply Z.mod_small.
  change (2 ^ 8) with 256. lia.
Qed.

Lemma lxor_self_bit (x : Z) : truthy (Z.land (Z.lxor x x) 0x10) = false.
Proof. now rewrite Z.lxor_nilpotent. Qed.

(** Reduction of the projections of a state that is given by
    assignments. *)
Ltac fields :=
  cbn [g_int_controller_pending g_int_controller_highest_int ram rom
       umac_volume umac_sndres overlay global_time_us global_cycles sim_done
       disassemble guard_val oldval via_quadbits via_mouse_pressed
       kbd_last_cmd kbd_last_cmd_time kbd_pending_evt scc_irq_state iwm_regs
       cpu_read_instr calls
       set_g_int_controller_pending set_g_int_controller_highest_int
       set_ram set_rom set_umac_volume set_umac_sndres set_overlay
       set_global_time_us set_global_cycles set_sim_done set_disassemble
       set_guard_val set_oldval set_via_mouse_pressed set_kbd_last_cmd
       set_kbd_last_cmd_time set_kbd_pending_evt set_scc_irq_state
       set_iwm_regs set_cpu_read_instr set_calls call].

(** X9.  Reporting the same value of port A or of port B twice is the
    same as reporting it once: the overlay flag, the fetch accessor and
    the audio settings are those of the first report, and
    [umac_audio_cfg] is not called a second time. *)
Theorem via_port_report_is_idempotent (cfg : config) (val : Z) (s : umac) :
  via_ra_changed cfg val (via_ra_changed cfg val s) = via_ra_changed cfg val s
  /\ via_rb_changed cfg val (via_rb_changed cfg val s)
     = via_rb_changed cfg val s.
Proof.
  destruct s as [p h ram0 rom0 vol res ov t c sd dis g old q mp kc kt kp
                 scc iwm rd cs].
  split.
  - unfold via_ra_changed, update_overlay_layout. cbv zeta.
    rewrite u8_land_7. fields.
    set (b := b2i (truthy (Z.land (u8 val) 16))).
    destruct (ENABLE_AUDIO cfg).
    + destruct (truthy (Z.land (Z.lxor old (u8 val)) 16));
        destruct (truthy b) eqn:Eb; fields;
        destruct (negb (Z.land (u8 val) 7 =? vol)) eqn:Ev; fields;
        repeat (progress (fields; cbn [negb];
                          rewrite ?lxor_self_bit, ?Z.eqb_refl, ?Eb, ?Ev));
        reflexivity.
    + destruct (truthy (Z.land (Z.lxor old (u8 val)) 16)) eqn:Ex;
        destruct (truthy b) eqn:Eb;
        repeat (progress (fields; rewrite ?Ex, ?Eb)); reflexivity.
  - unfold via_rb_changed. cbv zeta.
    destruct (ENABLE_AUDIO cfg); [|reflexivity]. fields.
    destruct (negb (u8 (Z.shiftr (u8 val) 7) =? res)) eqn:E;
      fields; rewrite ?Z.eqb_refl, ?E; reflexivity.
Qed.


Lemma key_code_not_empty (scancode down : Z) :
  (Z.lor (u8 scancode) (if truthy down then 0 else 0x80) =? -1) = false.
Proof.
  apply Z.eqb_neq.
  assert (0 <= Z.lor (u8 scancode) (if truthy down then 0 else 0x80)).
  { apply Z.lor_nonneg. pose proof (u8_range scancode).
    destruct (truthy down); lia. }
  lia.
Qed.

(** X11.  The key buffer holds one event.  Of two key events that
    arrive before the Mac inquires, the first is lost: the inquiry is
    answered with the code of the second (its scancode byte, with bit 7
    set for a release), and the inquiry after that gets the null
    response 0x7b. *)
Theorem key_buffer_holds_one_event (scancode1 down1 scancode2 down2 : Z)
    (s : umac) :
  let s1 := kbd_rx KBD_CMD_INQUIRY
              (umac_kbd_event scancode2 down2
                 (umac_kbd_event scancode1 down1 s)) in
  calls s1
  = Call_via_sr_rx (Z.lor (u8 scancode2) (if truthy down2 then 0 else 0x80))
      :: calls s
  /\ calls (kbd_rx KBD_CMD_INQUIRY s1) = Call_via_sr_rx KBD_RSP_NULL :: calls s1.
Proof.
  cbv zeta. unfold kbd_rx, umac_kbd_event. cbv zeta.
  change (u8 KBD_CMD_INQUIRY =? KBD_CMD_GET_MODEL) with false.
  change (u8 KBD_CMD_INQUIRY =? KBD_CMD_INQUIRY) with true.
  cbn [kbd_pending_evt set_kbd_pending_evt].
  rewrite key_code_not_empty. cbn. split; reflexivity.
Qed.

(** ** Interrupt controller *)

Lemma round_trip_table :
  forallb (fun p =>
             negb (pending_ok p)
             || forallb (fun v => round_trip_ok p v) (Zrange 1 7))
          (Zrange 0 256) = true.
Proof. vm_compute. reflexivity. Qed.

Lemma round_trip_cases (p v : Z) :
  pending_ok p = true -> 1 <= v <= 7 -> round_trip_ok p v = true.
Proof.
  intros Hp Hv.
  assert (Hr : 0 <= p < 0 + Z.of_nat 256).
  { unfold pending_ok in Hp. lia. }
  pose proof (Zrange_forallb _ _ _ round_trip_table p Hr) as H.
  cbv beta in H. rewrite Hp in H. cbn [negb orb] in H.
  apply (Zrange_forallb _ _ _ H v). lia.
Qed.

(** X12.  Let the controller hold a mask of levels 1 to 7 and report
    its highest level.  Raising a level that is already pending changes
    nothing and makes no call.  Raising a level that is not pending and
    then clearing it brings the mask and the level back; on the way
    [m68k_set_irq] is called with the new level only if it is above the
    old one, and then once more with the old level. *)
Theorem int_controller_set_clear_round_trip (v : Z) (s : umac) :
  1 <= v <= 7 ->
  pending_ok (g_int_controller_pending s) = true ->
  g_int_controller_highest_int s
    = highest_set_bit (g_int_controller_pending s) ->
  (Z.testbit (g_int_controller_pending s) v = true ->
   int_controller_set v s = s)
  /\ (Z.testbit (g_int_controller_pending s) v = false ->
      let s' := int_controller_clear v (int_controller_set v s) in
      g_int_controller_pending s' = g_int_controller_pending s
      /\ g_int_controller_highest_int s' = g_int_controller_highest_int s
      /\ calls s'
         = Call_m68k_set_irq (g_int_controller_highest_int s)
             :: (if g_int_controller_highest_int s <? v
                 then [Call_m68k_set_irq v] else [])
             ++ calls s).
Proof.
  intros Hv Hp Hh.
  pose proof (round_trip_cases _ _ Hp Hv) as Hrt.
  unfold round_trip_ok in Hrt. cbv zeta in Hrt.
  split; intros Hbit; rewrite Hbit in Hrt.
  - apply Z.eqb_eq in Hrt. unfold int_controller_set. cbv zeta.
    cbn [g_int_controller_pending set_g_int_controller_pending].
    rewrite Hrt, Z.eqb_refl. cbn [negb andb].
    destruct s; reflexivity.
  - apply andb_prop in Hrt as [Hrt Hhi]. apply andb_prop in Hrt as [Hne Hback].
    apply Z.eqb_eq in Hhi, Hback.
    unfold int_controller_clear, int_controller_set. cbv zeta. fields.
    rewrite Hne. cbn [andb].
    destruct (g_int_controller_highest_int s <? v); fields;
      rewrite Hhi, Hback, <- Hh; repeat split; reflexivity.
Qed.

Lemma int_controller_set_clear_round_trip_witness :
  let s := int_controller_set 2 small_state in
  let s' := int_controller_clear 5 (int_controller_set 5 s) in
  int_controller_set 2 s = s
  /\ g_int_controller_pending s' = g_int_controller_pending s
  /\ g_int_controller_highest_int s' = g_int_controller_highest_int s
  /\ calls s'
     = Call_m68k_set_irq (g_int_controller_highest_int s)
         :: (if g_int_controller_highest_int s <? 5
             then [Call_m68k_set_irq 5] else [])
         ++ calls s.
Proof.
  cbv zeta.
  destruct (int_controller_set_clear_round_trip 2
              (int_controller_set 2 small_state)) as [Hsame _];
    [lia|reflexivity|reflexivity|].
  destruct (int_controller_set_clear_round_trip 5
              (int_controller_set 2 small_state)) as [_ Hback];
    [lia|reflexivity|reflexivity|].
  split; [apply Hsame; reflexivity|apply Hback; reflexivity].
Defined.

(** ** Mouse *)

Lemma umac_mouse_ram_length (deltax deltay button : Z) (s : umac) :
  length (ram (umac_mouse deltax deltay button s)) = length (ram s).
Proof.
  unfold umac_mouse, RAM_WR16, RAM_WR8. cbv zeta.
  destruct (truthy deltax), (truthy deltay); cbn [orb]; fields;
    now rewrite ?length_buf_wr8, ?length_buf_wr16.
Qed.

Lemma u16_mod_add (x y : Z) : u16 (u16 x + y) = u16 (x + y).
Proof. unfold u16. apply Zplus_mod_idemp_l. Qed.

Lemma u16_mod_sub (x y : Z) : u16 (u16 x - y) = u16 (x - y).
Proof. unfold u16. apply Zminus_mod_idemp_l. Qed.

(** X13.  Mouse motion accumulates in the low-memory words [MTemp_h]
    and [MTemp_v], modulo 2^16: after two reports the horizontal word
    holds the old value plus both [deltax], the vertical word the old
    value minus both [deltay] (Y grows upwards for the caller, downwards
    on the screen).  A report without motion leaves both words as they
    are. *)
Theorem umac_mouse_accumulates (dx1 dy1 b1 dx2 dy2 b2 : Z) (s : umac) :
  CrsrCouple < Z.of_nat (length (ram s)) ->
  let s' := umac_mouse dx2 dy2 b2 (umac_mouse dx1 dy1 b1 s) in
  u16 (RAM_RD16 s' MTemp_h) = u16 (RAM_RD16 s MTemp_h + dx1 + dx2)
  /\ u16 (RAM_RD16 s' MTemp_v) = u16 (RAM_RD16 s MTemp_v - dy1 - dy2)
  /\ RAM_RD16 (umac_mouse 0 0 b1 s) MTemp_h = RAM_RD16 s MTemp_h
  /\ RAM_RD16 (umac_mouse 0 0 b1 s) MTemp_v = RAM_RD16 s MTemp_v.
Proof.
  intros Hlen s'.
  destruct (umac_mouse_adds_motion dx1 dy1 b1 s Hlen) as (Hh1 & Hv1 & _).
  assert (Hlen' : CrsrCouple
                  < Z.of_nat (length (ram (umac_mouse dx1 dy1 b1 s))))
    by now rewrite umac_mouse_ram_length.
  destruct (umac_mouse_adds_motion dx2 dy2 b2 _ Hlen') as (Hh2 & Hv2 & _).
  fold s' in Hh2, Hv2. cbv zeta in Hh1, Hv1.
  split; [|split; [|split; reflexivity]].
  - rewrite Hh2, Hh1. unfold truthy.
    destruct (Z.eqb_spec dx1 0) as [->|_], (Z.eqb_spec dx2 0) as [->|_];
      cbn [negb]; rewrite ?Z.add_0_r;
      rewrite ?u16_mod_add; try reflexivity.
    all: unfold u16; now rewrite ?Zmod_mod.
  - rewrite Hv2, Hv1. unfold truthy.
    destruct (Z.eqb_spec dy1 0) as [->|_], (Z.eqb_spec dy2 0) as [->|_];
      cbn [negb]; rewrite ?Z.sub_0_r;
      rewrite ?u16_mod_sub; try reflexivity.
    all: unfold u16; now rewrite ?Zmod_mod.
Qed.

Lemma umac_mouse_accumulates_witness :
  let s' := umac_mouse (-7) 4 1 (umac_mouse 5 (-3) 0 small_state) in
  u16 (RAM_RD16 s' MTemp_h) = u16 (RAM_RD16 small_state MTemp_h + 5 + -7)
  /\ u16 (RAM_RD16 s' MTemp_v) = u16 (RAM_RD16 small_state MTemp_v - -3 - 4)
  /\ RAM_RD16 (umac_mouse 0 0 0 small_state) MTemp_h
     = RAM_RD16 small_state MTemp_h
  /\ RAM_RD16 (umac_mouse 0 0 0 small_state) MTemp_v
     = RAM_RD16 small_state MTemp_v.
Proof.
  apply (umac_mouse_accumulates 5 (-3) 0 (-7) 4 1 small_state).
  vm_compute. reflexivity.
Defined.

(** ** ROM patching: what the patch leaves in the image *)

Lemma last_write_outside (P : Z -> Prop) (ws : list (Z * Z)) (i : nat) :
  Forall (fun w => P (fst w)) ws -> ~ P (Z.of_nat i) ->
  last_write ws i = None.
Proof.
  intros H Hi. induction H as [|w ws Hw _ IH]; [reflexivity|].
  cbn. rewrite IH. unfold hits.
  destruct (Z.leb_spec 0 (fst w)); cbn [andb]; [|reflexivity].
  destruct (Nat.eqb_spec (Z.to_nat (fst w)) i) as [E|]; [|reflexivity].
  exfalso. apply Hi. rewrite <- E, Z2Nat.id by lia. exact Hw.
Qed.

Lemma within_lookup (P : Z -> Prop) (f : list Z -> list Z) (m : list Z)
    (i : nat) :
  writes_within P f -> ~ P (Z.of_nat i) -> f m !! i = m !! i.
Proof.
  intros (ws & H & E) Hi. rewrite E, lookup_apply_writes.
  now rewrite (last_write_outside P ws i H Hi).
Qed.

Lemma within_length (P : Z -> Prop) (f : list Z -> list Z) (m : list Z) :
  writes_within P f -> length (f m) = length m.
Proof. intros (ws & _ & E). rewrite E. apply length_apply_writes. Qed.

Lemma within_rd8 (P : Z -> Prop) (f : list Z -> list Z) (m : list Z) (a : Z) :
  writes_within P f -> ~ P a -> buf_rd8 (f m) a = buf_rd8 m a.
Proof.
  intros Hf Ha. unfold buf_rd8. destruct (Z.ltb_spec a 0); [reflexivity|].
  rewrite (within_lookup P f m (Z.to_nat a) Hf); [reflexivity|].
  now rewrite Z2Nat.id by lia.
Qed.

Lemma within_rd16 (P : Z -> Prop) (f : list Z -> list Z) (m : list Z) (a : Z) :
  writes_within P f -> ~ P a -> ~ P (a + 1) ->
  buf_rd16 (f m) a = buf_rd16 m a.
Proof.
  intros Hf H0 H1. unfold buf_rd16.
  now rewrite !(within_rd8 P f m) by assumption.
Qed.

Lemma within_weaken (P Q : Z -> Prop) (f : list Z -> list Z) :
  (forall a, P a -> Q a) -> writes_within P f -> writes_within Q f.
Proof.
  intros HPQ (ws & H & E). exists ws. split; [|exact E].
  eapply Forall_impl; [exact H|]. intros w. apply HPQ.
Qed.

Lemma within_id (P : Z -> Prop) : writes_within P (fun m => m).
Proof. exists []. split; [constructor|reflexivity]. Qed.

Lemma within_compose (P : Z -> Prop) (f g : list Z -> list Z) :
  writes_within P f -> writes_within P g -> writes_within P (fun m => g (f m)).
Proof.
  intros (wf & Hf & Ef) (wg & Hg & Eg). exists (wf ++ wg). split.
  - now apply Forall_app.
  - intros m. rewrite Eg, Ef. unfold apply_writes. now rewrite fold_left_app.
Qed.

Lemma within_wr8 (P : Z -> Prop) (f : list Z -> list Z) (a v : Z) :
  P a -> writes_within P f -> writes_within P (fun m => ROM_WR8 (f m) a v).
Proof.
  intros Ha Hf. apply (within_compose P f (fun m => ROM_WR8 m a v) Hf).
  exists [(a, v)]. split; [repeat constructor; exact Ha|reflexivity].
Qed.

Lemma within_wr16 (P : Z -> Prop) (f : list Z -> list Z) (a v : Z) :
  P a -> P (a + 1) -> writes_within P f ->
  writes_within P (fun m => ROM_WR16 (f m) a v).
Proof.
  intros H0 H1 Hf. apply (within_compose P f (fun m => ROM_WR16 m a v) Hf).
  exists [(a, Z.shiftr v 8); (a + 1, v)].
  split; [repeat constructor; assumption|reflexivity].
Qed.

Lemma within_wr32 (P : Z -> Prop) (f : list Z -> list Z) (a v : Z) :
  P a -> P (a + 1) -> P (a + 2) -> P (a + 3) -> writes_within P f ->
  writes_within P (fun m => ROM_WR32 (f m) a v).
Proof.
  intros H0 H1 H2 H3 Hf.
  apply (within_compose P f (fun m => ROM_WR32 m a v) Hf).
  exists [(a, Z.shiftr v 24); (a + 1, Z.shiftr v 16);
          (a + 2, Z.shiftr v 8); (a + 3, v)].
  split; [repeat constructor; assumption|reflexivity].
Qed.

Lemma within_memcpy_here (P : Z -> Prop) (dst : Z) (src : list Z) :
  (forall a, dst <= a < dst + sizeof src -> P a) ->
  writes_within P (fun m => memcpy m dst src).
Proof.
  revert dst. induction src as [|b src IH]; intros dst Hd; cbn [memcpy].
  - apply within_id.
  - unfold sizeof in Hd. cbn [length] in Hd.
    apply (within_compose P (fun m => buf_wr8 m dst b)
             (fun m => memcpy m (dst + 1) src)).
    + exists [(dst, b)]. split; [|reflexivity].
      repeat constructor. apply Hd. cbn [fst]. lia.
    + apply IH. intros a Ha. apply Hd. unfold sizeof in Ha. lia.
Qed.

Lemma within_memcpy (P : Z -> Prop) (f : list Z -> list Z) (dst : Z)
    (src : list Z) :
  (forall a, dst <= a < dst + sizeof src -> P a) ->
  writes_within P f -> writes_within P (fun m => memcpy (f m) dst src).
Proof.
  intros Hd Hf.
  exact (within_compose P f (fun m => memcpy m dst src) Hf
           (within_memcpy_here P dst src Hd)).
Qed.

(** Peels the stores of a patch off, last one first; [area] proves that
    an offset lies in the area. *)
Ltac within_steps area :=
  repeat first
    [ apply within_id
    | apply within_wr16; [area|area|]
    | apply within_wr32; [area|area|area|area|]
    | apply within_wr8; [area|] ].

Lemma within_patch_memtop (cfg : config) (f : list Z -> list Z) (m : Z) :
  writes_within (patch_area cfg) f ->
  writes_within (patch_area cfg) (fun rom => memtop_step m (f rom)).
Proof.
  intros Hf. unfold memtop_step.
  destruct ((128 * 1024 <? m) && (m <? 512 * 1024)); [|exact Hf].
  unfold patch_memtop. cbv zeta. cbn [nop_fill].
  within_steps ltac:(unfold patch_area; lia). exact Hf.
Qed.

Lemma within_install_driver (cfg : config) :
  4 <= sizeof (sony_driver cfg) ->
  writes_within (patch_area cfg) (install_driver cfg).
Proof.
  intros Hlen. unfold install_driver.
  apply within_wr32;
    try (unfold patch_area, in_sony_region, ROM_PLUSv3_SONYDRV; lia).
  apply within_memcpy.
  { intros a Ha. right. exact Ha. }
  apply within_wr16; try (unfold patch_area; lia). apply within_id.
Qed.

(** The resolution branch, for every display size: it cannot take one
    of its two [return -1], and what it stores lies in [tables_area]. *)
Lemma rom_patch_plusv3_parts (cfg : config) (w h m : Z) :
  exists tables,
    writes_within tables_area tables
    /\ forall rom, rom_patch_plusv3 cfg rom w h m
                   = (tables (memtop_step m (install_driver cfg rom)), 0).
Proof.
  unfold rom_patch_plusv3, memtop_step, install_driver. cbv zeta.
  change (88 <? 70 + 10 + 8) with false.
  change (65 <? 50 + 10) with false.
  cbv iota.
  destruct (negb (w =? 512) || negb (h =? 342));
    [|exists (fun m => m); split; [apply within_id|reflexivity]].
  destruct (128 <=? Z.quot w 8) eqn:Ew;
    (eexists; split; cycle 1;
     [ intros rom;
       generalize (if (128 * 1024 <? m) && (m <? 512 * 1024)
                   then patch_memtop
                          (ROM_WR32
                             (memcpy (ROM_WR16 rom 3474 45953)
                                     ROM_PLUSv3_SONYDRV (sony_driver cfg))
                             (ROM_PLUSv3_SONYDRV + sizeof (sony_driver cfg) - 4)
                             (PV_SONY_ADDR cfg)) m
                   else ROM_WR32
                          (memcpy (ROM_WR16 rom 3474 45953)
                                  ROM_PLUSv3_SONYDRV (sony_driver cfg))
                          (ROM_PLUSv3_SONYDRV + sizeof (sony_driver cfg) - 4)
                          (PV_SONY_ADDR cfg)) as base;
       clear rom; intros base; reflexivity
     | unfold patch_screen_tables; cbv zeta; rewrite Ew;
       within_steps ltac:(unfold tables_area; lia) ]).
Qed.

Lemma tables_in_patch_area (cfg : config) (a : Z) :
  tables_area a -> patch_area cfg a.
Proof. intros (H & _). now left. Qed.

(** X14.  For every display size and RAM size the patch of a Mac Plus
    v3 image succeeds (neither of its two size checks can fail), keeps
    the length of the buffer, and changes no byte outside the low ROM
    from 0x2E to 0x1E83 and the replacement driver at 0x17D30: the
    vectors and the version word below 0x2E and everything between
    0x1E84 and the driver stay as they were (the driver being at least
    as long as the pointer stored in its last four bytes). *)
Theorem rom_patch1_frame (cfg : config) (rom : list Z)
    (disp_width disp_height mem_size : Z) (i : nat) :
  rom_get_version rom = 0x4D1F8172 ->
  4 <= sizeof (sony_driver cfg) ->
  ~ patch_area cfg (Z.of_nat i) ->
  let patched := rom_patch1 cfg rom disp_width disp_height mem_size in
  snd patched = 0
  /\ length (fst patched) = length rom
  /\ fst patched !! i = rom !! i.
Proof.
  intros Hv Hlen Hi.
  destruct (rom_patch_plusv3_parts cfg disp_width disp_height mem_size)
    as (tables & Ht & E).
  unfold rom_patch1, ROM_PLUSv3_VERSION. cbv zeta.
  rewrite Hv, Z.eqb_refl, E. cbn [fst snd].
  assert (Hall : writes_within (patch_area cfg)
                   (fun rom => tables (memtop_step mem_size
                                         (install_driver cfg rom)))).
  { apply (within_compose (patch_area cfg)
             (fun rom => memtop_step mem_size (install_driver cfg rom))
             tables).
    - apply within_patch_memtop, within_install_driver, Hlen.
    - exact (within_weaken _ _ _ (tables_in_patch_area cfg) Ht). }
  split; [reflexivity|]. split.
  - exact (within_length _ _ rom Hall).
  - exact (within_lookup _ _ rom i Hall Hi).
Qed.

Lemma rom_patch1_frame_witness :
  let patched := rom_patch1 sample_cfg sample_rom 640 480 (256 * 1024) in
  snd patched = 0
  /\ length (fst patched) = length sample_rom
  /\ fst patched !! 0x1e84%nat = sample_rom !! 0x1e84%nat.
Proof.
  apply (rom_patch1_frame sample_cfg sample_rom 640 480 (256 * 1024)
           0x1e84%nat).
  - vm_compute. reflexivity.
  - vm_compute. discriminate.
  - unfold patch_area, in_sony_region, ROM_PLUSv3_SONYDRV.
    change (sizeof (sony_driver sample_cfg)) with 64. lia.
Defined.

Lemma length_buf_wr32 (m : list Z) (a v : Z) :
  length (buf_wr32 m a v) = length m.
Proof. unfold buf_wr32. now rewrite !length_buf_wr8. Qed.

Lemma buf_rd16_wr32_other (m : list Z) (a v b : Z) :
  a + 3 < b \/ b + 1 < a -> buf_rd16 (buf_wr32 m a v) b = buf_rd16 m b.
Proof.
  intros H. rewrite buf_wr32_as_wr16.
  now rewrite !buf_rd16_wr16_other by lia.
Qed.

Lemma buf_rd32_wr16_other (m : list Z) (a v b : Z) :
  a + 1 < b \/ b + 3 < a -> buf_rd32 (buf_wr16 m a v) b = buf_rd32 m b.
Proof.
  intros H. unfold buf_rd32. now rewrite !buf_rd16_wr16_other by lia.
Qed.

Lemma buf_rd32_wr32_other (m : list Z) (a v b : Z) :
  a + 3 < b \/ b + 3 < a -> buf_rd32 (buf_wr32 m a v) b = buf_rd32 m b.
Proof.
  intros H. unfold buf_rd32. now rewrite !buf_rd16_wr32_other by lia.
Qed.

Lemma u16_small (z : Z) : 0 <= z < 2 ^ 16 -> u16 z = z.
Proof. intros H. unfold u16. now apply Z.mod_small. Qed.

Lemma u32_small (z : Z) : 0 <= z < 2 ^ 32 -> u32 z = z.
Proof. intros H. unfold u32. now apply Z.mod_small. Qed.

Lemma u16_land (z : Z) : u16 (Z.land z 0xffff) = u16 z.
Proof.
  change 0xffff with (Z.ones 16). rewrite Z.land_ones by lia.
  unfold u16. apply Zmod_mod.
Qed.

(** X15.  With a RAM size strictly between 128 KiB and 512 KiB the
    patch rewrites the memory-size probe: the four words at 0x376 read
    [movea.l #ram_size, A5] followed by a [nop], the branch at 0x132 is
    made unconditional, and the long at 0x292 holds the address of the
    boot-beep sound buffer, 768 bytes below the top of RAM.  No later
    store of the patch, whatever the display size, touches these
    words. *)
Theorem memtop_patch_reads_back (cfg : config) (rom : list Z)
    (disp_width disp_height ram_size : Z) :
  128 * 1024 < ram_size < 512 * 1024 ->
  0x380 <= Z.of_nat (length rom) ->
  let patched :=
    fst (rom_patch_plusv3 cfg rom disp_width disp_height ram_size) in
  buf_rd16 patched 0x376 = 0x2a7c
  /\ buf_rd32 patched 0x378 = ram_size
  /\ buf_rd16 patched 0x37c = M68K_INST_NOP
  /\ buf_rd16 patched 0x132 = 0x6000
  /\ buf_rd32 patched 0x292 = ram_size - 768.
Proof.
  intros Hm Hlen.
  destruct (rom_patch_plusv3_parts cfg disp_width disp_height ram_size)
    as (tables & Ht & E).
  rewrite E. cbn [fst]. cbv zeta.
  unfold buf_rd32.
  rewrite !(within_rd16 tables_area tables _ _ Ht)
    by (unfold tables_area; lia).
  unfold memtop_step.
  destruct (Z.ltb_spec (128 * 1024) ram_size); [|lia].
  destruct (Z.ltb_spec ram_size (512 * 1024)); [|lia].
  cbn [andb]. unfold patch_memtop. cbv zeta. cbn [nop_fill].
  unfold ROM_WR16, ROM_WR32.
  set (base := install_driver cfg rom).
  assert (Hbase : length base = length rom).
  { unfold base, install_driver, ROM_WR32, ROM_WR16.
    now rewrite length_buf_wr32, length_memcpy, length_buf_wr16. }
  assert (Hhi : Z.shiftr ram_size 16 < 2 ^ 16).
  { rewrite Z.shiftr_div_pow2 by lia. apply Z.div_lt_upper_bound; lia. }
  assert (Hlo : 0 <= Z.shiftr ram_size 16).
  { apply Z.shiftr_nonneg. lia. }
  repeat split.
  - rewrite buf_rd16_wr32_other by lia.
    rewrite !buf_rd16_wr16_other by lia.
    rewrite buf_rd16_wr16_same by (rewrite ?length_buf_wr16; lia).
    reflexivity.
  - rewrite !buf_rd16_wr32_other by lia.
    rewrite (buf_rd16_wr16_other _ 0x132) by lia.
    rewrite (buf_rd16_wr16_other _ 0x132) by lia.
    rewrite (buf_rd16_wr16_other _ 0x37a _ 0x378) by lia.
    rewrite !buf_rd16_wr16_same by (rewrite ?length_buf_wr16; lia).
    rewrite u16_land, be32_bytes. apply u32_small. lia.
  - rewrite buf_rd16_wr32_other by lia.
    rewrite !(buf_rd16_wr16_other _ _ _ 0x37c) by lia.
    rewrite buf_rd16_wr16_same by (rewrite ?length_buf_wr16; lia).
    reflexivity.
  - rewrite buf_rd16_wr32_other by lia.
    rewrite buf_rd16_wr16_same by (rewrite ?length_buf_wr16; lia).
    reflexivity.
  - fold (buf_rd32 (buf_wr32 (buf_wr16 (buf_wr16 (buf_wr16 (buf_wr16
            (buf_wr16 (buf_wr16 (buf_wr16 (buf_wr16 base 886 M68K_INST_NOP)
            (886 + 2) M68K_INST_NOP) (886 + 2 + 2) M68K_INST_NOP)
            (886 + 2 + 2 + 2) M68K_INST_NOP) 886 10876) 888
            (Z.shiftr ram_size 16)) 890 (Z.land ram_size 65535)) 306 24576)
            658 (ram_size - 768)) 658).
    rewrite buf_rd32_wr32_same by (rewrite ?length_buf_wr16; lia).
    apply u32_small. lia.
Qed.

Lemma memtop_patch_reads_back_witness :
  let patched :=
    fst (rom_patch_plusv3 sample_cfg sample_rom 640 480 (256 * 1024)) in
  buf_rd16 patched 0x376 = 0x2a7c
  /\ buf_rd32 patched 0x378 = 256 * 1024
  /\ buf_rd16 patched 0x37c = M68K_INST_NOP
  /\ buf_rd16 patched 0x132 = 0x6000
  /\ buf_rd32 patched 0x292 = 256 * 1024 - 768.
Proof.
  apply (memtop_patch_reads_back sample_cfg sample_rom 640 480 (256 * 1024)).
  - lia.
  - vm_compute. discriminate.
Defined.

Lemma buf_rd8_memcpy_outside (m : list Z) (dst : Z) (src : list Z) (a : Z) :
  a < dst \/ dst + sizeof src <= a ->
  buf_rd8 (memcpy m dst src) a = buf_rd8 m a.
Proof.
  intros H. unfold buf_rd8. destruct (Z.ltb_spec a 0); [reflexivity|].
  rewrite lookup_memcpy_outside; [reflexivity|]. lia.
Qed.

(** A byte inside the copied block is the byte of the source. *)
Lemma buf_rd8_memcpy_inside (m : list Z) (dst : Z) (src : list Z) (j : nat) :
  0 <= dst -> dst + sizeof src <= Z.of_nat (length m) ->
  (j < length src)%nat ->
  buf_rd8 (memcpy m dst src) (dst + Z.of_nat j) = Z.land (nth j src 0) 255.
Proof.
  revert m dst j. induction src as [|b src IH]; intros m dst j Hd Hlen Hj;
    cbn [length] in Hj; [lia|].
  unfold sizeof in *. cbn [memcpy length] in *.
  destruct j as [|j].
  - rewrite buf_rd8_memcpy_outside by (unfold sizeof; lia).
    rewrite Z.add_0_r. cbn [nth]. apply buf_rd8_wr8_same. lia.
  - replace (dst + Z.of_nat (S j)) with (dst + 1 + Z.of_nat j) by lia.
    cbn [nth]. apply IH; rewrite ?length_buf_wr8; lia.
Qed.

(** X16.  After the patch the replacement driver sits at 0x17D30: each
    of its bytes but the last four is the byte of [sony_driver], and
    its last four bytes hold, big-endian, the doorbell address
    [PV_SONY_ADDR] that [cpu_write_byte] decodes.  No later store of
    the patch reaches that far up. *)
Theorem driver_is_installed (cfg : config) (rom : list Z)
    (disp_width disp_height ram_size : Z) :
  4 <= sizeof (sony_driver cfg) ->
  ROM_PLUSv3_SONYDRV + sizeof (sony_driver cfg) <= Z.of_nat (length rom) ->
  0 <= PV_SONY_ADDR cfg < 2 ^ 32 ->
  let patched :=
    fst (rom_patch_plusv3 cfg rom disp_width disp_height ram_size) in
  buf_rd32 patched (ROM_PLUSv3_SONYDRV + sizeof (sony_driver cfg) - 4)
  = PV_SONY_ADDR cfg
  /\ forall j : nat,
      Z.of_nat j < sizeof (sony_driver cfg) - 4 ->
      buf_rd8 patched (ROM_PLUSv3_SONYDRV + Z.of_nat j)
      = Z.land (nth j (sony_driver cfg) 0) 255.
Proof.
  intros Hsize Hlen Hpv.
  destruct (rom_patch_plusv3_parts cfg disp_width disp_height ram_size)
    as (tables & Ht & E).
  rewrite E. cbn [fst]. cbv zeta.
  assert (Hlow : writes_within (fun a => a < 0x1e84)
                   (fun base => tables (memtop_step ram_size base))).
  { apply (within_compose _ (memtop_step ram_size) tables).
    - unfold memtop_step.
      destruct ((128 * 1024 <? ram_size) && (ram_size <? 512 * 1024));
        [|apply within_id].
      unfold patch_memtop. cbv zeta. cbn [nop_fill].
      within_steps ltac:(lia).
    - apply (within_weaken tables_area); [|exact Ht].
      unfold tables_area. intros a Ha. lia. }
  unfold ROM_PLUSv3_SONYDRV in *.
  assert (Hskip : forall base a, 0x1e84 <= a ->
                    buf_rd8 (tables (memtop_step ram_size base)) a
                    = buf_rd8 base a).
  { intros base a Ha.
    apply (within_rd8 _ (fun base => tables (memtop_step ram_size base))
             base a Hlow). lia. }
  split.
  - unfold buf_rd32, buf_rd16. rewrite !Hskip by lia.
    fold (buf_rd16 (install_driver cfg rom) (97584 + sizeof (sony_driver cfg) - 4)).
    fold (buf_rd16 (install_driver cfg rom)
            (97584 + sizeof (sony_driver cfg) - 4 + 2)).
    fold (buf_rd32 (install_driver cfg rom)
            (97584 + sizeof (sony_driver cfg) - 4)).
    unfold install_driver, ROM_WR32, ROM_WR16, ROM_PLUSv3_SONYDRV.
    rewrite buf_rd32_wr32_same
      by (rewrite ?length_memcpy, ?length_buf_wr16; lia).
    apply u32_small. exact Hpv.
  - intros j Hj. rewrite Hskip by lia.
    unfold install_driver, ROM_WR32, ROM_WR16, ROM_PLUSv3_SONYDRV, buf_wr32.
    rewrite !buf_rd8_wr8_other by lia.
    apply buf_rd8_memcpy_inside; rewrite ?length_buf_wr16; unfold sizeof in *;
      lia.
Qed.

Lemma driver_is_installed_witness :
  let patched :=
    fst (rom_patch_plusv3 sample_cfg sample_rom 640 480 (256 * 1024)) in
  buf_rd32 patched (ROM_PLUSv3_SONYDRV + sizeof (sony_driver sample_cfg) - 4)
  = PV_SONY_ADDR sample_cfg
  /\ forall j : nat,
      Z.of_nat j < sizeof (sony_driver sample_cfg) - 4 ->
      buf_rd8 patched (ROM_PLUSv3_SONYDRV + Z.of_nat j)
      = Z.land (nth j (sony_driver sample_cfg) 0) 255.
Proof.
  apply (driver_is_installed sample_cfg sample_rom 640 480 (256 * 1024)).
  - vm_compute. discriminate.
  - vm_compute. discriminate.
  - vm_compute. split; [discriminate|reflexivity].
Defined.

Lemma buf_rd32_wr8_other (m : list Z) (a v b : Z) :
  a < b \/ b + 3 < a -> buf_rd32 (buf_wr8 m a v) b = buf_rd32 m b.
Proof.
  intros H. unfold buf_rd32. now rewrite !buf_rd16_wr8_other by lia.
Qed.

Lemma length_memtop_step (m : Z) (rom : list Z) :
  length (memtop_step m rom) = length rom.
Proof.
  unfold memtop_step. destruct (_ && _); [|reflexivity].
  unfold patch_memtop, ROM_WR32, ROM_WR16. cbv zeta. cbn [nop_fill].
  unfold ROM_WR16. now rewrite length_buf_wr32, !length_buf_wr16.
Qed.

Lemma length_install_driver (cfg : config) (rom : list Z) :
  length (install_driver cfg rom) = length rom.
Proof.
  unfold install_driver, ROM_WR32, ROM_WR16.
  now rewrite length_buf_wr32, length_memcpy, length_buf_wr16.
Qed.

(** Reads a word or a long through the stores made after it. *)
Ltac skip_writes :=
  repeat first
    [ rewrite buf_rd32_wr32_other by lia
    | rewrite buf_rd32_wr16_other by lia
    | rewrite buf_rd32_wr8_other by lia
    | rewrite buf_rd16_wr32_other by lia
    | rewrite buf_rd16_wr16_other by lia
    | rewrite buf_rd16_wr8_other by lia ].

Ltac buf_lengths :=
  repeat first [ rewrite length_buf_wr32 | rewrite length_buf_wr16
               | rewrite length_buf_wr8 ].

(** Display sizes for which the [int] arithmetic of the resolution
    branch of [rom_patch_plusv3] cannot overflow, so that it is the
    arithmetic of the model. *)
Lemma screen_ints_fit (disp_width disp_height : Z) :
  0 < disp_width <= 32768 -> 0 < disp_height <= 32768 ->
  0 <= disp_width * disp_height < 2 ^ 31
  /\ 0 <= Z.quot (disp_width * disp_height) 8 + 0x380 < 2 ^ 31
  /\ - 2 ^ 31 <= 0x400000 - (Z.quot (disp_width * disp_height) 8 + 0x380)
     < 2 ^ 31.
Proof.
  intros Hw Hh.
  assert (Hp : 0 <= disp_width * disp_height <= 32768 * 32768) by nia.
  rewrite Z.quot_div_nonneg by lia.
  assert (Hq : 0 <= disp_width * disp_height / 8 <= 32768 * 32768).
  { split; [apply Z.div_pos; lia|].
    apply Z.div_le_upper_bound; lia. }
  change (2 ^ 31) with 2147483648. lia.
Qed.

(** X17.  For a display other than 512x342, of a width and a height of
    at most 32768 (so that no [int] of the resolution branch
    overflows), the patch moves the screen: the two copies of the
    screen base at 0x8A and 0x146 hold, as 32-bit two's complement, the
    top of the 4 MiB address space minus 0x380 minus the size of the
    frame buffer ([disp_width * disp_height / 8] bytes), the long at
    0x48 (the operand of the [suba.l] placed at 0x46) holds that
    distance, and the screen height, width and row bytes are at 0x494,
    0x498 and 0x474, whatever the RAM size and whether or not the
    wide-display code is added. *)
Theorem screen_patch_reads_back (cfg : config) (rom : list Z)
    (disp_width disp_height ram_size : Z) :
  0 < disp_width <= 32768 ->
  0 < disp_height <= 32768 ->
  disp_width <> 512 \/ disp_height <> 342 ->
  0x1e84 <= Z.of_nat (length rom) ->
  let patched :=
    fst (rom_patch_plusv3 cfg rom disp_width disp_height ram_size) in
  let screen_size := Z.quot (disp_width * disp_height) 8 in
  buf_rd32 patched 0x8a = u32 (0x400000 - (screen_size + 0x380))
  /\ buf_rd32 patched 0x146 = u32 (0x400000 - (screen_size + 0x380))
  /\ buf_rd32 patched 0x48 = screen_size + 0x380
  /\ buf_rd16 patched 0x494 = disp_height
  /\ buf_rd16 patched 0x498 = disp_width
  /\ buf_rd16 patched 0x474 = Z.quot disp_width 8.
Proof.
  intros Hw Hh Hres Hlen.
  destruct (screen_ints_fit disp_width disp_height Hw Hh) as (_ & Hd & _).
  assert (Hrow : 0 <= Z.quot disp_width 8 < 2 ^ 16).
  { rewrite Z.quot_div_nonneg by lia. split; [apply Z.div_pos; lia|].
    apply Z.div_lt_upper_bound; lia. }
  cbv zeta.
  enough (H : buf_rd32 (fst (rom_patch_plusv3 cfg rom disp_width disp_height
                               ram_size)) 0x8a
              = u32 (0x400000 - (Z.quot (disp_width * disp_height) 8 + 0x380))
              /\ buf_rd32 (fst (rom_patch_plusv3 cfg rom disp_width
                                  disp_height ram_size)) 0x146
                 = u32 (0x400000
                        - (Z.quot (disp_width * disp_height) 8 + 0x380))
              /\ buf_rd32 (fst (rom_patch_plusv3 cfg rom disp_width
                                  disp_height ram_size)) 0x48
                 = u32 (Z.quot (disp_width * disp_height) 8 + 0x380)
              /\ buf_rd16 (fst (rom_patch_plusv3 cfg rom disp_width
                                  disp_height ram_size)) 0x494
                 = u16 disp_height
              /\ buf_rd16 (fst (rom_patch_plusv3 cfg rom disp_width
                                  disp_height ram_size)) 0x498
                 = u16 disp_width
              /\ buf_rd16 (fst (rom_patch_plusv3 cfg rom disp_width
                                  disp_height ram_size)) 0x474
                 = u16 (Z.quot disp_width 8)).
  { rewrite (u32_small (Z.quot (disp_width * disp_height) 8 + 0x380)) in H
      by (change (2 ^ 32) with (2 * 2 ^ 31); lia).
    rewrite (u16_small disp_height), (u16_small disp_width),
      (u16_small (Z.quot disp_width 8)) in H by lia.
    exact H. }
  pose proof (length_memtop_step ram_size (install_driver cfg rom)) as Hbase.
  rewrite length_install_driver in Hbase.
  unfold memtop_step, install_driver in Hbase.
  unfold rom_patch_plusv3. cbv zeta.
  set (base := if (128 * 1024 <? ram_size) && (ram_size <? 512 * 1024)
               then _ else _) in *.
  clearbody base.
  assert (Hc : negb (disp_width =? 512) || negb (disp_height =? 342) = true).
  { destruct (Z.eqb_spec disp_width 512), (Z.eqb_spec disp_height 342);
      try reflexivity. lia. }
  rewrite Hc.
  change (88 <? 70 + 10 + 8) with false.
  change (65 <? 50 + 10) with false.
  cbv iota.
  destruct (128 <=? Z.quot disp_width 8) eqn:Ew; cbn [fst];
    unfold patch_screen_tables; cbv zeta; rewrite Ew;
    unfold ROM_WR32, ROM_WR16, ROM_WR8;
    (repeat split; skip_writes;
     first [ rewrite buf_rd32_wr32_same by (buf_lengths; lia)
           | rewrite buf_rd16_wr16_same by (buf_lengths; lia) ];
     reflexivity).
Qed.

Lemma screen_patch_reads_back_witness :
  let patched :=
    fst (rom_patch_plusv3 sample_cfg sample_rom 640 480 (128 * 1024)) in
  let screen_size := Z.quot (640 * 480) 8 in
  buf_rd32 patched 0x8a = u32 (0x400000 - (screen_size + 0x380))
  /\ buf_rd32 patched 0x146 = u32 (0x400000 - (screen_size + 0x380))
  /\ buf_rd32 patched 0x48 = screen_size + 0x380
  /\ buf_rd16 patched 0x494 = 480
  /\ buf_rd16 patched 0x498 = 640
  /\ buf_rd16 patched 0x474 = Z.quot 640 8.
Proof.
  apply (screen_patch_reads_back sample_cfg sample_rom 640 480 (128 * 1024)).
  - lia.
  - lia.
  - left. lia.
  - vm_compute. discriminate.
Defined.

(** ** The SDL host *)

Lemma fb_pixel_testbit (p i : Z) :
  0 <= i < 8 ->
  fb_pixel p i = if Z.testbit p (7 - i) then 0 else 0xffffffff.
Proof.
  intros Hi. unfold fb_pixel.
  assert (E : Z.shiftr 0x80 i = 2 ^ (7 - i)).
  { change 0x80 with (2 ^ 7). rewrite Z.shiftr_div_pow2 by lia.
    rewrite <- Z.pow_sub_r by lia. reflexivity. }
  rewrite E, land_pow2 by lia.
  destruct (Z.testbit p (7 - i)); [|reflexivity].
  unfold truthy. destruct (Z.eqb_spec (2 ^ (7 - i)) 0) as [H0|]; [|reflexivity].
  pose proof (Z.pow_pos_nonneg 2 (7 - i)). lia.
Qed.

Lemma nth_fb_pixels8 (p : Z) (j : nat) :
  (j < 8)%nat -> nth j (fb_pixels8 p) 0 = fb_pixel p (Z.of_nat j).
Proof.
  intros Hj. do 8 (destruct j as [|j]; [reflexivity|]). lia.
Qed.

Lemma length_copy_fb_row (n : nat) cfg fb_in y x :
  length (copy_fb_row n cfg fb_in y x) = (16 * n)%nat.
Proof.
  revert x. induction n as [|n IH]; intros x; [reflexivity|].
  cbn [copy_fb_row]. cbv zeta. rewrite !length_app, IH. cbn. lia.
Qed.

(** Pixel [16 * k + j] of a row comes from byte [2 * k + j / 8] of the
    row, bit [j mod 8] from the left. *)
Lemma nth_copy_fb_row (n : nat) cfg fb_in y x (k j : nat) :
  (k < n)%nat -> (j < 16)%nat -> 0 <= x ->
  nth (16 * k + j) (copy_fb_row n cfg fb_in y x) 0
  = fb_pixel (buf_rd8 fb_in (Z.quot (x + 16 * Z.of_nat k) 8
                             + Z.quot (y * DISP_WIDTH cfg) 8
                             + Z.of_nat (j / 8)))
             (Z.of_nat (j mod 8)).
Proof.
  revert x k. induction n as [|n IH]; intros x k Hk Hj Hx; [lia|].
  cbn [copy_fb_row]. cbv zeta.
  destruct k as [|k].
  - rewrite Nat.mul_0_r, Nat.add_0_l. change (Z.of_nat 0) with 0.
    rewrite Z.mul_0_r, !Z.add_0_r.
    destruct (Nat.lt_ge_cases j 8) as [Hlo|Hhi].
    + rewrite app_nth1 by (cbn; lia).
      rewrite nth_fb_pixels8 by exact Hlo.
      rewrite Nat.div_small, Nat.mod_small by exact Hlo.
      change (Z.of_nat 0) with 0. now rewrite Z.add_0_r.
    + rewrite app_nth2 by (cbn; lia).
      rewrite app_nth1 by (cbn; lia).
      change (length (fb_pixels8 _)) with 8%nat.
      rewrite nth_fb_pixels8 by lia.
      replace (j / 8)%nat with 1%nat.
      2:{ apply (Nat.div_unique j 8 1 (j - 8)); lia. }
      replace (j mod 8)%nat with (j - 8)%nat.
      2:{ apply (Nat.mod_unique j 8 1 (j - 8)); lia. }
      reflexivity.
  - rewrite app_nth2 by (cbn; lia).
    rewrite app_nth2 by (cbn; lia).
    change (length (fb_pixels8 _)) with 8%nat.
    replace (16 * S k + j - 8 - 8)%nat with (16 * k + j)%nat by lia.
    rewrite IH by lia.
    replace (x + 16 + 16 * Z.of_nat k) with (x + 16 * Z.of_nat (S k)) by lia.
    reflexivity.
Qed.

Lemma length_copy_fb_rows (n : nat) cfg fb_in y :
  length (copy_fb_rows n cfg fb_in y)
  = (n * (16 * Z.to_nat ((DISP_WIDTH cfg + 15) / 16)))%nat.
Proof.
  revert y. induction n as [|n IH]; intros y; [reflexivity|].
  cbn [copy_fb_rows]. rewrite length_app, length_copy_fb_row, IH. lia.
Qed.

Lemma nth_copy_fb_rows (n : nat) cfg fb_in y (r c : nat) :
  (r < n)%nat -> (c < 16 * Z.to_nat ((DISP_WIDTH cfg + 15) / 16))%nat ->
  nth (r * (16 * Z.to_nat ((DISP_WIDTH cfg + 15) / 16)) + c)
      (copy_fb_rows n cfg fb_in y) 0
  = nth c (copy_fb_row (Z.to_nat ((DISP_WIDTH cfg + 15) / 16)) cfg fb_in
                       (y + Z.of_nat r) 0) 0.
Proof.
  revert y r. induction n as [|n IH]; intros y r Hr Hc; [lia|].
  cbn [copy_fb_rows].
  destruct r as [|r].
  - rewrite app_nth1 by (rewrite length_copy_fb_row; lia).
    now rewrite Z.add_0_r.
  - rewrite app_nth2 by (rewrite length_copy_fb_row; lia).
    rewrite length_copy_fb_row.
    replace (S r * (16 * Z.to_nat ((DISP_WIDTH cfg + 15) / 16)) + c
             - 16 * Z.to_nat ((DISP_WIDTH cfg + 15) / 16))%nat
      with (r * (16 * Z.to_nat ((DISP_WIDTH cfg + 15) / 16)) + c)%nat by lia.
    rewrite IH by lia.
    replace (y + 1 + Z.of_nat r) with (y + Z.of_nat (S r)) by lia.
    reflexivity.
Qed.

(** X18.  For a display whose width is a multiple of 16, [copy_fb]
    produces one 32-bit pixel per screen pixel, row by row: the pixel at
    column [x] of row [y] is black (0) when bit [7 - x mod 8] of the
    frame buffer byte [(y * width + x) / 8] is set, and white
    (0xffffffff) when it is clear; so a row takes [width / 8] bytes and
    the leftmost pixel of a byte is its most significant bit. *)
Theorem copy_fb_pixel (cfg : config) (fb_in : list Z) (x y : Z) :
  0 < DISP_WIDTH cfg ->
  DISP_WIDTH cfg mod 16 = 0 ->
  0 <= x < DISP_WIDTH cfg ->
  0 <= y < DISP_HEIGHT cfg ->
  length (copy_fb cfg fb_in)
  = Z.to_nat (DISP_WIDTH cfg * DISP_HEIGHT cfg)
  /\ nth (Z.to_nat (y * DISP_WIDTH cfg + x)) (copy_fb cfg fb_in) 0
     = if Z.testbit (buf_rd8 fb_in ((y * DISP_WIDTH cfg + x) / 8))
                    (7 - x mod 8)
       then 0 else 0xffffffff.
Proof.
  intros Hw Hmod Hx Hy.
  assert (Hq : DISP_WIDTH cfg = 16 * (DISP_WIDTH cfg / 16)).
  { pose proof (Z.div_mod (DISP_WIDTH cfg) 16). lia. }
  assert (Hn : (DISP_WIDTH cfg + 15) / 16 = DISP_WIDTH cfg / 16).
  { rewrite Hq at 1.
    replace (16 * (DISP_WIDTH cfg / 16) + 15)
      with (15 + (DISP_WIDTH cfg / 16) * 16) by lia.
    rewrite Z.div_add by lia. reflexivity. }
  assert (Hrow : (16 * Z.to_nat ((DISP_WIDTH cfg + 15) / 16))%nat
                 = Z.to_nat (DISP_WIDTH cfg)).
  { rewrite Hn. lia. }
  unfold copy_fb. split.
  - rewrite length_copy_fb_rows, Hrow. nia.
  - replace (Z.to_nat (y * DISP_WIDTH cfg + x))
      with (Z.to_nat y * (16 * Z.to_nat ((DISP_WIDTH cfg + 15) / 16))
            + Z.to_nat x)%nat
      by (rewrite Hrow; nia).
    rewrite nth_copy_fb_rows by lia.
    rewrite Z.add_0_l, Z2Nat.id by lia.
    set (k := Z.to_nat (x / 16)). set (j := Z.to_nat (x mod 16)).
    pose proof (Z.div_mod x 16) as Hdx.
    pose proof (Z.mod_pos_bound x 16) as Hmx.
    assert (Hxd : 0 <= x / 16) by (apply Z.div_pos; lia).
    assert (Hxk : Z.to_nat x = (16 * k + j)%nat) by (unfold k, j; lia).
    assert (Hkn : (k < Z.to_nat ((DISP_WIDTH cfg + 15) / 16))%nat).
    { assert (x / 16 < DISP_WIDTH cfg / 16)
        by (apply Z.div_lt_upper_bound; lia).
      rewrite Hn. unfold k. lia. }
    rewrite Hxk, nth_copy_fb_row by (unfold j; lia).
    rewrite fb_pixel_testbit.
    2:{ pose proof (Nat.mod_upper_bound j 8). lia. }
    assert (Hj : Z.of_nat j = x mod 16) by (unfold j; lia).
    assert (Hk : Z.of_nat k = x / 16) by (unfold k; lia).
    assert (Hj8 : Z.of_nat (j / 8) = (x mod 16) / 8).
    { rewrite Nat2Z.inj_div, Hj. reflexivity. }
    assert (Hjm : Z.of_nat (j mod 8) = x mod 8).
    { rewrite Nat2Z.inj_mod, Hj.
      replace (x mod 16) with (x + (- 2 * (x / 16)) * 8) by lia.
      apply Z.mod_add. lia. }
    rewrite Hj8, Hjm, Hk, Z.add_0_l.
    set (W := DISP_WIDTH cfg) in *.
    rewrite !Z.quot_div_nonneg by nia.
    replace (16 * (x / 16) / 8 + y * W / 8 + x mod 16 / 8)
      with ((y * W + x) / 8); [reflexivity|].
    replace (y * W) with ((2 * y * (W / 16)) * 8) by lia.
    rewrite Z.div_add_l, Z.div_mul by lia.
    replace (16 * (x / 16)) with ((2 * (x / 16)) * 8) by lia.
    rewrite Z.div_mul by lia.
    replace x with (x mod 16 + (2 * (x / 16)) * 8) at 1 by lia.
    rewrite Z.div_add by lia. lia.
Qed.

Lemma copy_fb_pixel_witness :
  let fb := repeat 0xa5 (Z.to_nat 0x5580) in
  length (copy_fb sample_cfg fb)
  = Z.to_nat (DISP_WIDTH sample_cfg * DISP_HEIGHT sample_cfg)
  /\ nth (Z.to_nat (3 * DISP_WIDTH sample_cfg + 21)) (copy_fb sample_cfg fb) 0
     = if Z.testbit (buf_rd8 fb ((3 * DISP_WIDTH sample_cfg + 21) / 8))
                    (7 - 21 mod 8)
       then 0 else 0xffffffff.
Proof.
  apply (copy_fb_pixel sample_cfg (repeat 0xa5 (Z.to_nat 0x5580)) 21 3).
  - reflexivity.
  - reflexivity.
  - split; [discriminate|reflexivity].
  - split; [discriminate|reflexivity].
Defined.

Lemma s16_small (z : Z) : - 32768 <= z < 32768 -> s16 z = z.
Proof.
  intros H. unfold s16. change (2 ^ 15) with 32768. change (2 ^ 16) with 65536.
  rewrite Z.mod_small; lia.
Qed.

Lemma umac_audio_cfg_range (volume sndres : Z) :
  0 <= volume <= 7 -> 0 <= umac_audio_cfg volume sndres <= 65536.
Proof.
  intros Hv. unfold umac_audio_cfg. destruct (truthy sndres); [lia|].
  rewrite Z.quot_div_nonneg by lia.
  split; [apply Z.div_pos; lia|].
  apply Z.lt_succ_r. apply Z.div_lt_upper_bound; lia.
Qed.

Lemma nth_audio_samples (n : nat) (scale : Z) (audiodata : list Z) (i : nat) :
  (i < n)%nat ->
  nth i (audio_samples n scale audiodata) 0
  = s16 (Z.shiftr ((Z.land (nth i audiodata 0) 0xff - 128) * scale) 8).
Proof.
  revert audiodata i. induction n as [|n IH]; intros audiodata i Hi; [lia|].
  cbn [audio_samples]. cbv zeta.
  destruct i as [|i]; cbn [nth].
  - now destruct audiodata.
  - rewrite IH by lia. destruct audiodata; [now destruct i|reflexivity].
Qed.

Lemma length_audio_samples (n : nat) (scale : Z) (audiodata : list Z) :
  length (audio_samples n scale audiodata) = n.
Proof.
  revert audiodata. induction n as [|n IH]; intros audiodata; [reflexivity|].
  cbn [audio_samples length]. cbv zeta. now rewrite IH.
Qed.

(** X19.  With a volume of 0 to 7, as the core hands it over, the audio
    trap fills the 370 samples without overflow: sample [i] is the low
    byte of word [i] of the sound buffer, minus 128, times the volume
    scale [65536 * volume / 7], divided by 256 (rounding down); it
    lies between -32768 and 32512, so the store into [int16_t] keeps
    its value.  With the sound disabled or at volume 0 every sample
    is 0. *)
Theorem audio_trap_samples (volume sndres : Z) (audiodata : list Z) (i : nat) :
  0 <= volume <= 7 ->
  (i < 370)%nat ->
  let scale := umac_audio_cfg volume sndres in
  let audio := umac_audio_trap scale audiodata in
  length audio = 370%nat
  /\ nth i audio 0
     = ((Z.land (nth i audiodata 0) 0xff - 128) * scale) / 256
  /\ - 32768 <= nth i audio 0 <= 32512
  /\ (sndres <> 0 \/ volume = 0 -> nth i audio 0 = 0).
Proof.
  intros Hv Hi scale audio.
  pose proof (umac_audio_cfg_range volume sndres Hv) as Hs. fold scale in Hs.
  pose proof (land_255_range (nth i audiodata 0)) as Hb.
  set (a := Z.land (nth i audiodata 0) 0xff - 128) in *.
  assert (Hr : - 32768 <= a * scale / 256 <= 32512).
  { split.
    - apply Z.div_le_lower_bound; nia.
    - apply Z.lt_succ_r. apply Z.div_lt_upper_bound; nia. }
  assert (Hn : nth i audio 0 = a * scale / 256).
  { unfold audio, umac_audio_trap. cbv zeta. unfold truthy.
    destruct (Z.eqb_spec scale 0) as [E|E]; cbn [negb].
    - rewrite E, Z.mul_0_r. apply nth_repeat.
    - rewrite nth_audio_samples by exact Hi. fold a.
      rewrite Z.shiftr_div_pow2 by lia. change (2 ^ 8) with 256.
      apply s16_small. lia. }
  split; [|split; [exact Hn|split; [rewrite Hn; exact Hr|]]].
  - unfold audio, umac_audio_trap. cbv zeta.
    destruct (negb (truthy scale));
      [apply repeat_length|apply length_audio_samples].
  - intros Hoff. rewrite Hn.
    assert (E : scale = 0).
    { unfold scale, umac_audio_cfg, truthy.
      destruct Hoff as [Hoff| ->].
      - destruct (Z.eqb_spec sndres 0); [contradiction|reflexivity].
      - now destruct (negb (sndres =? 0)). }
    rewrite E, Z.mul_0_r. reflexivity.
Qed.

Lemma audio_trap_samples_witness :
  let scale := umac_audio_cfg 7 0 in
  let audio := umac_audio_trap scale (repeat 0x12ff 370) in
  length audio = 370%nat
  /\ nth 5 audio 0 = ((Z.land (nth 5 (repeat 0x12ff 370) 0) 0xff - 128) * scale) / 256
  /\ - 32768 <= nth 5 audio 0 <= 32512
  /\ (0 <> 0 \/ 7 = 0 -> nth 5 audio 0 = 0).
Proof.
  apply (audio_trap_samples 7 0 (repeat 0x12ff 370) 5); lia.
Defined.

(** ** Sessions *)

Section Restart.

Variable cfg : config.

Lemma umac_loop_cons (run : cpu_run) (runs : list cpu_run) (s : umac) :
  umac_loop cfg (run :: runs) s
  = match m68k_execute cfg (ops run) (entering run s) with
    | Longjmp s => umac_loop cfg runs s
    | Exit s => Some (Exit s)
    | Ret _ s => Some (umac_loop_tail cfg run s)
    end.
Proof. reflexivity. Qed.

(** X20.  A call of [umac_loop] goes through its body at most twice:
    the [longjmp] of [exit_error] needs the guard clear and sets it, so
    the pass that follows a restart cannot be abandoned.  The call
    therefore returns (or, in a [SIM] build, exits), and what it does
    is decided by the first two passes alone. *)
Theorem umac_loop_restarts_at_most_once (run1 run2 : cpu_run)
    (runs : list cpu_run) (s : umac) :
  umac_loop cfg (run1 :: run2 :: runs) s = umac_loop cfg [run1; run2] s
  /\ exists m, umac_loop cfg [run1; run2] s = Some m
               /\ match m with Longjmp _ => False | _ => True end.
Proof.
  assert (H2 : forall runs' s1,
             guard_val s1 <> 0 ->
             exists m, umac_loop cfg (run2 :: runs') s1 = Some m
                       /\ umac_loop cfg [run2] s1 = Some m
                       /\ match m with Longjmp _ => False | _ => True end).
  { intros runs' s1 Hg.
    rewrite (umac_loop_cons run2 runs' s1), (umac_loop_cons run2 [] s1).
    pose proof (m68k_execute_ok cfg (ops run2) (entering run2 s1))
      as (_ & _ & He & _).
    destruct (m68k_execute cfg (ops run2) (entering run2 s1))
      as [[] s2|s2|s2].
    - eexists. split; [reflexivity|]. split; [reflexivity|].
      pose proof (umac_loop_tail_returns_flag cfg run2 s2) as Hr.
      now destruct (umac_loop_tail cfg run2 s2).
    - destruct He as (Hg0 & _). cbn in Hg0. contradiction.
    - eexists. split; [reflexivity|]. split; [reflexivity|exact I]. }
  rewrite (umac_loop_cons run1 (run2 :: runs) s),
    (umac_loop_cons run1 [run2] s).
  pose proof (m68k_execute_ok cfg (ops run1) (entering run1 s))
    as (_ & _ & He & _).
  destruct (m68k_execute cfg (ops run1) (entering run1 s)) as [[] s1|s1|s1].
  - split; [reflexivity|]. eexists. split; [reflexivity|].
    pose proof (umac_loop_tail_returns_flag cfg run1 s1) as Hr.
    now destruct (umac_loop_tail cfg run1 s1).
  - destruct He as (_ & _ & Hg1).
    assert (Hg : guard_val s1 <> 0) by lia.
    destruct (H2 runs s1 Hg) as (m & E1 & E2 & Hm).
    rewrite E1, E2. split; [reflexivity|]. now exists m.
  - split; [reflexivity|]. eexists. split; [reflexivity|exact I].
Qed.

(** X21.  The quadrature bits are never driven: over a whole session
    that starts from the static initialisers, whatever the host, the
    CPU and the devices do, port B of the VIA reads 8 while the mouse
    button is up and 0 while it is down; bits 4 and 5, the X2 and Y2
    lines of the mouse, always read 0. *)
Theorem port_b_reads_button_only (hs : list host_call) (ram0 rom0 : list Z)
    (m : outcome (list Z)) :
  host_run cfg hs (initial ram0 rom0) = Some m ->
  via_rb_in (state_of m)
  = (if truthy (via_mouse_pressed (state_of m)) then 0 else 8)
  /\ Z.land (via_rb_in (state_of m)) 0x30 = 0.
Proof.
  intros H.
  pose proof (host_run_quadbits cfg hs _ m H) as Hq. cbn in Hq.
  rewrite (via_rb_in_button _ Hq).
  split; [reflexivity|]. now destruct (truthy _).
Qed.

End Restart.

Lemma port_b_reads_button_only_witness :
  via_rb_in (state_of sample_session_outcome)
  = (if truthy (via_mouse_pressed (state_of sample_session_outcome))
     then 0 else 8)
  /\ Z.land (via_rb_in (state_of sample_session_outcome)) 0x30 = 0.
Proof.
  apply (port_b_reads_button_only sample_cfg sample_session sample_ram
           [0x4d; 0x1f; 0x81; 0x72] sample_session_outcome).
  vm_compute. reflexivity.
Defined.
